(** * MS-MDConverter: the markdown block parser and the inline stripper

    A shallow embedding of [parse_md], [_parse_table_row],
    [_is_special_line] and [strip_inline_md] of [md_converter.py], and
    the properties of the specification checked against it.

    Modelling choices.
    - A Python [str] is a list of characters; a character is a code
      point below 256 ([ascii]).  On that range [str.isspace] (used by
      [str.strip]) and the regular expression class [\s] are the same
      set, and [\d] is [0-9].
    - [re.match] and [re.sub] are given by a backtracking matcher over
      the fragment of the pattern language the program uses: every
      repetition in the program's patterns repeats a single character
      class, so the matcher is structurally recursive.
    - The outer [while] loop of [parse_md] is run with fuel; the inner
      loops scan a suffix of the line array and are structural. *)

From Stdlib Require Import List Ascii String Bool Arith Lia.
Import ListNotations.

Local Open Scope list_scope.
Local Open Scope bool_scope.

(** ** Strings *)

Definition str := list ascii.

Definition LF : ascii := "010"%char.
Definition TAB : ascii := "009"%char.

(** Python string literals: [py] reads the escapes [\n], [\t] and [\\]. *)
Fixpoint py (s : string) : str :=
  match s with
  | EmptyString => []
  | String c s' =>
      if Ascii.eqb c "\"%char then
        match s' with
        | String "n"%char s'' => LF :: py s''
        | String "t"%char s'' => TAB :: py s''
        | String "\"%char s'' => "\"%char :: py s''
        | _ => c :: py s'
        end
      else c :: py s'
  end.

Definition chr_is (a : ascii) : ascii -> bool := fun c => Ascii.eqb c a.

(** [str.isspace] on one character, code points below 256:
    U+0009..U+000D, U+001C..U+001F, U+0020, U+0085, U+00A0. *)
Definition isspace (c : ascii) : bool :=
  let n := nat_of_ascii c in
  ((9 <=? n) && (n <=? 13)) || ((28 <=? n) && (n <=? 31))
  || (n =? 32) || (n =? 133) || (n =? 160).

(** [\d] on code points below 256. *)
Definition isdigit (c : ascii) : bool :=
  let n := nat_of_ascii c in (48 <=? n) && (n <=? 57).

Fixpoint lstrip (s : str) : str :=
  match s with
  | c :: s' => if isspace c then lstrip s' else s
  | [] => []
  end.

Definition rstrip (s : str) : str := rev (lstrip (rev s)).

(** [s.strip()] *)
Definition strip (s : str) : str := rstrip (lstrip s).

(** Truth value of a string: non-empty. *)
Definition truthy (s : str) : bool :=
  match s with [] => false | _ :: _ => true end.

(** [s.startswith(p)] *)
Fixpoint startswith (s p : str) : bool :=
  match p, s with
  | [], _ => true
  | a :: p', c :: s' => Ascii.eqb c a && startswith s' p'
  | _ :: _, [] => false
  end.

(** [s.endswith(p)] *)
Definition endswith (s p : str) : bool := startswith (rev s) (rev p).

(** [a in s] for a one-character [a] *)
Definition contains (a : ascii) (s : str) : bool := existsb (chr_is a) s.

(** [s.split(a)] for a one-character separator *)
Fixpoint split (a : ascii) (s : str) : list str :=
  match s with
  | [] => [[]]
  | c :: s' =>
      if Ascii.eqb c a then [] :: split a s'
      else match split a s' with
           | w :: ws => (c :: w) :: ws
           | [] => [[c]]
           end
  end.

(** [sep.join(l)] *)
Fixpoint join (sep : str) (l : list str) : str :=
  match l with
  | [] => []
  | [x] => x
  | x :: l' => x ++ sep ++ join sep l'
  end.

(** ** Regular expressions

    The fragment used by the program.  [Rep] repeats one character
    class between [lo] and [hi] times ([None]: unbounded), greedily or
    lazily: [c*], [c+], [c?], [c{m,n}], [c+?], [c*?]. *)

Inductive regex : Type :=
| Bol                                                     (* ^ *)
| Eol                                                     (* $ *)
| One (p : ascii -> bool)                                 (* a literal or a class *)
| Rep (greedy : bool) (lo : nat) (hi : option nat) (p : ascii -> bool)
| Cat (r1 r2 : regex)
| Alt (r1 r2 : regex)
| Grp (n : nat) (r : regex).                              (* ( ... ), group n *)

Definition groups := list (nat * str).

(** A match: its end position and the text of its groups. *)
Definition matched := (nat * groups)%type.

Definition room (hi : option nat) : bool :=
  match hi with Some 0 => false | _ => true end.

Definition dec (hi : option nat) : option nat := option_map pred hi.

(** Repetition of a class with backtracking: the greedy one takes one
    more character first and gives it back if the continuation fails;
    the lazy one tries the continuation first. *)
Fixpoint rep (greedy : bool) (p : ascii -> bool) (lo : nat) (hi : option nat)
    (i : nat) (s : str) (k : nat -> str -> option matched) : option matched :=
  if greedy then
    match
      match s with
      | c :: s' =>
          if room hi && p c then rep greedy p (pred lo) (dec hi) (S i) s' k
          else None
      | [] => None
      end
    with
    | Some m => Some m
    | None => match lo with 0 => k i s | S _ => None end
    end
  else
    match (match lo with 0 => k i s | S _ => None end) with
    | Some m => Some m
    | None =>
        match s with
        | c :: s' =>
            if room hi && p c then rep greedy p (pred lo) (dec hi) (S i) s' k
            else None
        | [] => None
        end
    end.

(** [run r i s g k]: match [r] at position [i], where [s] is the rest
    of the subject, then continue with [k]; the first success in
    Python's order of alternatives is returned. *)
Fixpoint run (r : regex) (i : nat) (s : str) (g : groups)
    (k : nat -> str -> groups -> option matched) : option matched :=
  match r with
  | Bol => if i =? 0 then k i s g else None
  | Eol =>
      match s with
      | [] => k i s g
      | [c] => if Ascii.eqb c LF then k i s g else None
      | _ => None
      end
  | One p =>
      match s with
      | c :: s' => if p c then k (S i) s' g else None
      | [] => None
      end
  | Rep gr lo hi p => rep gr p lo hi i s (fun j t => k j t g)
  | Cat r1 r2 => run r1 i s g (fun j t g' => run r2 j t g' k)
  | Alt r1 r2 =>
      match run r1 i s g k with
      | Some m => Some m
      | None => run r2 i s g k
      end
  | Grp n r1 => run r1 i s g (fun j t g' => k j t ((n, firstn (j - i) s) :: g'))
  end.

(** A match of [r] starting at position [i], [s] being the subject from
    [i] on. *)
Definition match_at (r : regex) (i : nat) (s : str) : option matched :=
  run r i s [] (fun j _ g => Some (j, g)).

(** [re.match(r, s)] *)
Definition re_match (r : regex) (s : str) : option matched := match_at r 0 s.

Definition matches (r : regex) (s : str) : bool :=
  match re_match r s with Some _ => true | None => false end.

(** [m.group(n)] *)
Fixpoint lookup (n : nat) (g : groups) : str :=
  match g with
  | (n', t) :: g' => if n =? n' then t else lookup n g'
  | [] => []
  end.

Definition group (n : nat) (m : matched) : str := lookup n (snd m).

(** [re.sub(r, repl, s)]: the matches are found from left to right
    and do not overlap; [repl] builds the replacement from the match
    (the template [\1] is [group 1]).  After a match of length [len]
    at the current position the next [len - 1] characters are skipped
    ([skip]); the patterns of the program never match the empty
    string. *)
Fixpoint sub_from (r : regex) (repl : matched -> str) (i : nat) (skip : nat)
    (s : str) : str :=
  match s with
  | [] => []
  | c :: s' =>
      match skip with
      | S n => sub_from r repl (S i) n s'
      | 0 =>
          match match_at r i s with
          | Some m =>
              match fst m - i with
              | 0 => repl m ++ c :: sub_from r repl (S i) 0 s'
              | S n => repl m ++ sub_from r repl (S i) n s'
              end
          | None => c :: sub_from r repl (S i) 0 s'
          end
      end
  end.

Definition re_sub (r : regex) (repl : matched -> str) (s : str) : str :=
  sub_from r repl 0 0 s.

(** Pattern notation. *)
Declare Scope re_scope.
Delimit Scope re_scope with re.
Bind Scope re_scope with regex.
Infix ";;" := Cat (at level 41, right associativity) : re_scope.
Infix "</>" := Alt (at level 42, right associativity) : re_scope.

Definition lit (a : ascii) : regex := One (chr_is a).
Definition star (p : ascii -> bool) : regex := Rep true 0 None p.
Definition plus (p : ascii -> bool) : regex := Rep true 1 None p.
Definition opt (p : ascii -> bool) : regex := Rep true 0 (Some 1) p.
Definition lazy_star (p : ascii -> bool) : regex := Rep false 0 None p.
Definition lazy_plus (p : ascii -> bool) : regex := Rep false 1 None p.
Definition at_least (n : nat) (p : ascii -> bool) : regex := Rep true n None p.
Definition between (m n : nat) (p : ascii -> bool) : regex := Rep true m (Some n) p.

(** [.] without DOTALL: any character but a newline. *)
Definition dot (c : ascii) : bool := negb (Ascii.eqb c LF).

(** A letter under IGNORECASE. *)
Definition nocase (lower upper : ascii) (c : ascii) : bool :=
  Ascii.eqb c lower || Ascii.eqb c upper.

(** ** The patterns of [md_converter.py] *)

Local Open Scope re_scope.
Local Open Scope char_scope.

(** Pattern "^(#{1,6})\s+(.+)$" *)
Definition re_heading : regex :=
  Bol ;; Grp 1 (between 1 6 (chr_is "#")) ;; plus isspace ;; Grp 2 (plus dot) ;; Eol.

(** Pattern "^#{1,6}\s+" *)
Definition re_heading_start : regex :=
  Bol ;; between 1 6 (chr_is "#") ;; plus isspace.

(** Pattern "^(\*{3,}|-{3,}|_{3,})\s*$" *)
Definition re_hr : regex :=
  Bol ;; Grp 1 (at_least 3 (chr_is "*") </> at_least 3 (chr_is "-")
                </> at_least 3 (chr_is "_")) ;; star isspace ;; Eol.

(** The class "[\s\-:|]" *)
Definition sep_class (c : ascii) : bool :=
  isspace c || chr_is "-" c || chr_is ":" c || chr_is "|" c.

(** Pattern "^\|?[\s\-:|]+\|" *)
Definition re_separator : regex :=
  Bol ;; opt (chr_is "|") ;; plus sep_class ;; lit "|".

(** The class "[-*+]" *)
Definition bullet (c : ascii) : bool :=
  chr_is "-" c || chr_is "*" c || chr_is "+" c.

(** Pattern "^ ( \s* ) ([-*+]) \s+" (blanks added around the first group) *)
Definition re_ul : regex :=
  Bol ;; Grp 1 (star isspace) ;; Grp 2 (One bullet) ;; plus isspace.

(** Pattern "^ ( \s* ) ([-*+]) \s+ (.+) $" (blanks added) *)
Definition re_ul_item : regex :=
  Bol ;; Grp 1 (star isspace) ;; Grp 2 (One bullet) ;; plus isspace
      ;; Grp 3 (plus dot) ;; Eol.

(** Pattern "^ ( \s* ) \d+ \. \s+" (blanks added) *)
Definition re_ol : regex :=
  Bol ;; Grp 1 (star isspace) ;; plus isdigit ;; lit "." ;; plus isspace.

(** Pattern "^ ( \s* ) \d+ \. \s+ (.+) $" (blanks added) *)
Definition re_ol_item : regex :=
  Bol ;; Grp 1 (star isspace) ;; plus isdigit ;; lit "." ;; plus isspace
      ;; Grp 2 (plus dot) ;; Eol.

(** Pattern "<br\s*/?>", IGNORECASE *)
Definition re_br : regex :=
  lit "<" ;; One (nocase "b" "B") ;; One (nocase "r" "R") ;; star isspace
      ;; opt (chr_is "/") ;; lit ">".

(** Pattern "\*\*(.+?)\*\*" *)
Definition re_bold : regex :=
  lit "*" ;; lit "*" ;; Grp 1 (lazy_plus dot) ;; lit "*" ;; lit "*".

(** Pattern "__(.+?)__" *)
Definition re_bold_alt : regex :=
  lit "_" ;; lit "_" ;; Grp 1 (lazy_plus dot) ;; lit "_" ;; lit "_".

(** Pattern "\*(.+?)\*" *)
Definition re_italic : regex :=
  lit "*" ;; Grp 1 (lazy_plus dot) ;; lit "*".

(** Pattern "_(.+?)_" *)
Definition re_italic_alt : regex :=
  lit "_" ;; Grp 1 (lazy_plus dot) ;; lit "_".

(** Pattern "`(.+?)`" *)
Definition re_code : regex :=
  lit "`" ;; Grp 1 (lazy_plus dot) ;; lit "`".

(** Pattern "\[(.+?)\]\(.+?\)" *)
Definition re_link : regex :=
  lit "[" ;; Grp 1 (lazy_plus dot) ;; lit "]" ;; lit "(" ;; lazy_plus dot ;; lit ")".

(** Pattern "<a\s[^>]*?>(.*?)</a>", IGNORECASE *)
Definition re_anchor : regex :=
  lit "<" ;; One (nocase "a" "A") ;; One isspace
      ;; lazy_star (fun c => negb (chr_is ">" c)) ;; lit ">"
      ;; Grp 1 (lazy_star dot)
      ;; lit "<" ;; lit "/" ;; One (nocase "a" "A") ;; lit ">".

Local Close Scope char_scope.
Local Close Scope re_scope.

(** ** Blocks *)

(** [MDBlock.kind] *)
Inductive kind := heading | table | paragraph | list_ | code | hr.

(** [MDBlock.content]: a string, the rows of a table, or the items of
    a list. *)
Inductive content :=
| Text (t : str)
| Rows (rows : list (list str))
| Items (items : list (nat * str)).

Record MDBlock := mkBlock { b_kind : kind; b_content : content; b_level : nat }.

(** The exception of the program: an attribute of [None] is read. *)
Inductive exn := AttributeError.

(** What a piece of Python code without an unbounded loop does: it
    yields a value or it raises. *)
Inductive result (A : Type) :=
| Ok (a : A)
| Error (e : exn).
Arguments Ok {A} a.
Arguments Error {A} e.

(** What the fuelled outer loop does: it returns, it raises, or it is
    still running when the fuel is spent. *)
Inductive outcome (A : Type) :=
| Returns (a : A)
| Raises (e : exn)
| OutOfFuel.
Arguments Returns {A} a.
Arguments Raises {A} e.
Arguments OutOfFuel {A}.

(** ** [_parse_table_row] *)

Definition PIPE : ascii := "|"%char.
Definition HASH : ascii := "#"%char.
Definition BACKTICK : ascii := "`"%char.
Definition FENCE : str := ["`"; "`"; "`"]%char.

Definition _parse_table_row (line : str) : list str :=
  let line := strip line in
  let line := if startswith line [PIPE] then tl line else line in
  let line := if endswith line [PIPE] then removelast line else line in
  map strip (split PIPE line).

(** ** [_is_special_line] *)

(** The table test, shared by [parse_md] and [_is_special_line]:
    a pipe in the line, a next line, and the separator pattern
    matching it. *)
Definition table_head (line : str) (lines : list str) (i : nat) : bool :=
  contains PIPE line
  && match nth_error lines (i + 1) with
     | Some next => matches re_separator next
     | None => false
     end.

Definition _is_special_line (line : str) (lines : list str) (i : nat) : bool :=
  if matches re_heading_start line then true
  else if matches re_hr line then true
  else if startswith (strip line) FENCE then true
  else if table_head line lines i then true
  else if matches re_ul line then true
  else if matches re_ol line then true
  else false.

(** ** [parse_md] *)

(** The loop of the fenced code block, from the line after the opening
    fence: the captured lines and the cursor where it stops. *)
Fixpoint code_loop (rest : list str) (i : nat) : list str * nat :=
  match rest with
  | l :: rest' =>
      if negb (startswith (strip l) FENCE) then
        let '(code_lines, j) := code_loop rest' (S i) in (l :: code_lines, j)
      else ([], i)
  | [] => ([], i)
  end.

(** The loop over the body rows of a table. *)
Fixpoint table_loop (rest : list str) (i : nat) : list (list str) * nat :=
  match rest with
  | l :: rest' =>
      if contains PIPE l && truthy (strip l) then
        let '(rows, j) := table_loop rest' (S i) in (_parse_table_row l :: rows, j)
      else ([], i)
  | [] => ([], i)
  end.

(** The loop over the items of a list: [start] is the pattern of the
    loop test, [item] the pattern whose match object is used without a
    test ([m.group] on [None] raises), [txt] the number of the text
    group. *)
Fixpoint list_loop (start item : regex) (txt : nat) (rest : list str) (i : nat)
    : result (list (nat * str) * nat) :=
  match rest with
  | l :: rest' =>
      if matches start l then
        match re_match item l with
        | None => Error AttributeError
        | Some m =>
            match list_loop start item txt rest' (S i) with
            | Ok (items, j) =>
                Ok ((List.length (group 1 m), strip (group txt m)) :: items, j)
            | Error e => Error e
            end
        end
      else Ok ([], i)
  | [] => Ok ([], i)
  end.

(** The loop of the paragraph. *)
Fixpoint para_loop (lines : list str) (rest : list str) (i : nat)
    : list str * nat :=
  match rest with
  | l :: rest' =>
      if truthy (strip l) && negb (_is_special_line l lines i) then
        let '(para_lines, j) := para_loop lines rest' (S i) in
        (strip l :: para_lines, j)
      else ([], i)
  | [] => ([], i)
  end.

(** One turn of the outer loop at cursor [i], [line] being [lines[i]]:
    the next cursor and the blocks appended. *)
Definition turn (lines : list str) (i : nat) (line : str)
    : result (nat * list MDBlock) :=
  if negb (truthy (strip line)) then Ok (i + 1, [])
  else
    match re_match re_heading line with
    | Some m =>
        Ok (i + 1, [mkBlock heading (Text (strip (group 2 m)))
                                 (List.length (group 1 m))])
    | None =>
    if matches re_hr line then Ok (i + 1, [mkBlock hr (Text []) 0])
    else if startswith (strip line) FENCE then
      let '(code_lines, j) := code_loop (skipn (i + 1) lines) (i + 1) in
      Ok (j + 1, [mkBlock code (Text (join [LF] code_lines)) 0])
    else if table_head line lines i then
      let '(rows, j) := table_loop (skipn (i + 2) lines) (i + 2) in
      Ok (j, [mkBlock table (Rows (_parse_table_row line :: rows)) 0])
    else if matches re_ul line then
      match list_loop re_ul re_ul_item 3 (skipn i lines) i with
      | Ok (items, j) => Ok (j, [mkBlock list_ (Items items) 0])
      | Error e => Error e
      end
    else if matches re_ol line then
      match list_loop re_ol re_ol_item 2 (skipn i lines) i with
      | Ok (items, j) => Ok (j, [mkBlock list_ (Items items) 0])
      | Error e => Error e
      end
    else
      let '(para_lines, j) := para_loop lines (skipn i lines) i in
      Ok (j, match para_lines with
                  | [] => []
                  | _ :: _ => [mkBlock paragraph (Text (join [" "%char] para_lines)) 0]
                  end)
    end.

(** The outer loop, [while i < len(lines)], with fuel. *)
Fixpoint parse_loop (fuel : nat) (lines : list str) (i : nat)
    (blocks : list MDBlock) : outcome (list MDBlock) :=
  match fuel with
  | 0 => OutOfFuel
  | S fuel' =>
      match nth_error lines i with
      | None => Returns blocks
      | Some line =>
          match turn lines i line with
          | Ok (j, bs) => parse_loop fuel' lines j (blocks ++ bs)
          | Error e => Raises e
          end
      end
  end.

Definition parse_md (fuel : nat) (text : str) : outcome (list MDBlock) :=
  parse_loop fuel (split LF text) 0 [].

(** ** [strip_inline_md] *)

Definition strip_inline_md (text : str) : str :=
  let text := re_sub re_br (fun _ => [LF]) text in
  let text := re_sub re_bold (group 1) text in
  let text := re_sub re_bold_alt (group 1) text in
  let text := re_sub re_italic (group 1) text in
  let text := re_sub re_italic_alt (group 1) text in
  let text := re_sub re_code (group 1) text in
  let text := re_sub re_link (group 1) text in
  let text := re_sub re_anchor (group 1) text in
  text.

(** ** Declarative reading of the patterns *)

(** The bound [hi] of a repetition allows [n] characters. *)
Definition within (hi : option nat) (n : nat) : Prop :=
  match hi with Some h => n <= h | None => True end.


(** What it means for a pattern to match the first [n] characters of
    [s], [s] starting at position [i] of the subject. *)
Fixpoint spans (r : regex) (i : nat) (s : str) (n : nat) : Prop :=
  match r with
  | Bol => i = 0 /\ n = 0
  | Eol => n = 0 /\ (s = [] \/ s = [LF])
  | One p => n = 1 /\ exists c s', s = c :: s' /\ p c = true
  | Rep _ lo hi p =>
      lo <= n /\ within hi n /\ n <= List.length s
      /\ forallb p (firstn n s) = true
  | Cat r1 r2 =>
      exists n1 n2, n = n1 + n2 /\ spans r1 i s n1
                    /\ spans r2 (i + n1) (skipn n1 s) n2
  | Alt r1 r2 => spans r1 i s n \/ spans r2 i s n
  | Grp _ r1 => spans r1 i s n
  end.

(** The characters that make a horizontal rule. *)
Definition rule_char (c : ascii) : bool :=
  chr_is "*"%char c || chr_is "-"%char c || chr_is "_"%char c.


(** ** Runs of lines *)

(** How many lines from the cursor [i] on pass the test [f] of a
    scanning loop, [rest] being the lines from [i] on. *)
Fixpoint run_len (f : nat -> str -> bool) (rest : list str) (i : nat) : nat :=
  match rest with
  | l :: rest' => if f i l then S (run_len f rest' (S i)) else 0
  | [] => 0
  end.

(** The loop tests of [parse_md]. *)
Definition is_fence (l : str) : bool := startswith (strip l) FENCE.
Definition in_code (_ : nat) (l : str) : bool := negb (is_fence l).
Definition in_table (_ : nat) (l : str) : bool :=
  contains PIPE l && truthy (strip l).
Definition in_list (start : regex) (_ : nat) (l : str) : bool := matches start l.
Definition in_para (lines : list str) (i : nat) (l : str) : bool :=
  truthy (strip l) && negb (_is_special_line l lines i).

(** The item a list line contributes. *)
Definition item_of (item : regex) (txt : nat) (l : str) : nat * str :=
  match re_match item l with
  | Some m => (List.length (group 1 m), strip (group txt m))
  | None => (0, [])
  end.

(** The lines [i], ..., [j - 1]. *)
Definition slice (lines : list str) (i j : nat) : list str :=
  firstn (j - i) (skipn i lines).

(** ** The rules of the scanner, as the specification orders them *)

Inductive rule :=
| rule_heading | rule_hr | rule_fence | rule_table
| rule_ul | rule_ol | rule_paragraph.

(** heading, horizontal rule, fenced code, table, unordered list,
    ordered list, paragraph. *)
Definition precedence : list rule :=
  [rule_heading; rule_hr; rule_fence; rule_table; rule_ul; rule_ol;
   rule_paragraph].

(** Whether a rule matches at the cursor. *)
Definition applies (lines : list str) (i : nat) (line : str) (r : rule) : bool :=
  match r with
  | rule_heading => matches re_heading line
  | rule_hr => matches re_hr line
  | rule_fence => is_fence line
  | rule_table => table_head line lines i
  | rule_ul => matches re_ul line
  | rule_ol => matches re_ol line
  | rule_paragraph => true
  end.

(** The first rule of the order that matches; the paragraph always
    does. *)
Definition first_match (lines : list str) (i : nat) (line : str) : rule :=
  match find (applies lines i line) precedence with
  | Some r => r
  | None => rule_paragraph
  end.

(** What a rule consumes and emits when it is the one applied. *)
Definition consume (lines : list str) (i : nat) (line : str) (r : rule)
    : result (nat * list MDBlock) :=
  match r with
  | rule_heading =>
      Ok (i + 1, match re_match re_heading line with
                 | Some m => [mkBlock heading (Text (strip (group 2 m)))
                                      (List.length (group 1 m))]
                 | None => []
                 end)
  | rule_hr => Ok (i + 1, [mkBlock hr (Text []) 0])
  | rule_fence =>
      let '(code_lines, j) := code_loop (skipn (i + 1) lines) (i + 1) in
      Ok (j + 1, [mkBlock code (Text (join [LF] code_lines)) 0])
  | rule_table =>
      let '(rows, j) := table_loop (skipn (i + 2) lines) (i + 2) in
      Ok (j, [mkBlock table (Rows (_parse_table_row line :: rows)) 0])
  | rule_ul =>
      match list_loop re_ul re_ul_item 3 (skipn i lines) i with
      | Ok (items, j) => Ok (j, [mkBlock list_ (Items items) 0])
      | Error e => Error e
      end
  | rule_ol =>
      match list_loop re_ol re_ol_item 2 (skipn i lines) i with
      | Ok (items, j) => Ok (j, [mkBlock list_ (Items items) 0])
      | Error e => Error e
      end
  | rule_paragraph =>
      let '(para_lines, j) := para_loop lines (skipn i lines) i in
      Ok (j, match para_lines with
             | [] => []
             | _ :: _ =>
                 [mkBlock paragraph (Text (join [" "%char] para_lines)) 0]
             end)
  end.

(** ** The separator line of a table *)

(** The separator as the specification words it: an optional leading
    pipe, then only blanks, dashes, colons and pipes, among them at
    least one pipe. *)
Definition separator_as_worded (l : str) : bool :=
  let body := match l with
              | c :: l' => if chr_is PIPE c then l' else l
              | [] => []
              end in
  forallb sep_class body && contains PIPE body.

(** The separator as the pattern reads it: the line begins with an
    optional pipe, one or more characters of the class, and a pipe;
    what follows is free. *)
Definition separator_prefix (l : str) : Prop :=
  exists a b rest,
    l = a ++ b ++ PIPE :: rest
    /\ (a = [] \/ a = [PIPE]) /\ b <> [] /\ forallb sep_class b = true.

(** ** A table row, as the specification words it *)

Definition drop_leading_pipe (s : str) : str :=
  match s with
  | c :: s' => if Ascii.eqb c PIPE then s' else s
  | [] => []
  end.

Definition drop_trailing_pipe (s : str) : str :=
  rev (drop_leading_pipe (rev s)).

(** One optional leading and one optional trailing pipe removed, the
    rest split on the pipe, every cell trimmed. *)
Definition row_as_worded (line : str) : list str :=
  map strip (split PIPE (drop_trailing_pipe (drop_leading_pipe line))).

(** ** The two list styles *)

Inductive style := unordered | ordered.

Definition start_of (s : style) : regex :=
  match s with unordered => re_ul | ordered => re_ol end.

Definition item_pattern (s : style) : regex :=
  match s with unordered => re_ul_item | ordered => re_ol_item end.

Definition text_group (s : style) : nat :=
  match s with unordered => 3 | ordered => 2 end.

(** The pair (indent, text) of a list line. *)
Definition list_item (s : style) (l : str) : nat * str :=
  item_of (item_pattern s) (text_group s) l.

(** ** The characters [strip_inline_md] reacts to *)

(** A character one of the eight patterns can begin with. *)
Definition opener (c : ascii) : bool :=
  chr_is "*"%char c || chr_is "_"%char c || chr_is "`"%char c
  || chr_is "["%char c || chr_is "<"%char c.

(** None of the characters star, underscore, backtick, opening bracket,
    opening angle. *)
Definition plain (s : str) : bool := forallb (fun c => negb (opener c)) s.

(** The delimiters of the markdown spans proper (bold, italic, code,
    link): star, underscore, backtick, brackets and parentheses. *)
Definition md_delimiter (c : ascii) : bool :=
  chr_is "*"%char c || chr_is "_"%char c || chr_is "`"%char c
  || chr_is "["%char c || chr_is "]"%char c
  || chr_is "("%char c || chr_is ")"%char c.

Definition no_md_delimiter (s : str) : bool :=
  forallb (fun c => negb (md_delimiter c)) s.

(** Whether a match of one of the eight patterns can begin at the head
    of [s]: a markdown opener, or an angle followed by [b], or by [a]
    and a blank, in either case. *)
Definition may_start (s : str) : bool :=
  match s with
  | c :: rest =>
      if chr_is "<"%char c then
        match rest with
        | d :: rest' =>
            nocase "b"%char "B"%char d
            || (nocase "a"%char "A"%char d
                && match rest' with e :: _ => isspace e | [] => false end)
        | [] => false
        end
      else opener c
  | [] => false
  end.

(** No position of [s] can begin a match. *)
Fixpoint quiet (s : str) : bool :=
  match s with
  | [] => true
  | _ :: s' => negb (may_start s) && quiet s'
  end.

(** ** Lines on which a loop test and the pattern used after it agree *)

(** The heading test of [_is_special_line] and the heading rule agree
    on the line, and so do the loop test and the item pattern of each
    list style. *)
Definition well_marked (l : str) : bool :=
  implb (matches re_heading_start l) (matches re_heading l)
  && implb (matches re_ul l) (matches re_ul_item l)
  && implb (matches re_ol l) (matches re_ol_item l).

(** ** Markers followed by one blank *)

(** The text a heading or list line begins with, up to the blank that
    must follow: one to six hashes; blanks and a bullet; blanks, digits
    and a dot. *)
Definition marker (m : str) : Prop :=
  (exists n, 1 <= n /\ n <= 6 /\ m = repeat HASH n)
  \/ (exists ws b, forallb isspace ws = true /\ bullet b = true /\ m = ws ++ [b])
  \/ (exists ws ds, forallb isspace ws = true /\ ds <> []
                    /\ forallb isdigit ds = true
                    /\ m = ws ++ ds ++ ["."%char]).

(** A marker, one blank, and nothing else. *)
Definition lone_blank (l : str) : Prop :=
  exists m w, marker m /\ isspace w = true /\ l = m ++ [w].

(** ** Coverage of the lines by the blocks *)

(** [covers lines i bs]: from line [i] to the end, the lines fall into
    consecutive runs, each either one skipped blank line or the lines
    [i], ..., [j - 1] one turn of the loop makes into one block; [bs]
    are the blocks, in order. *)
Inductive covers (lines : list str) : nat -> list MDBlock -> Prop :=
| covers_end (i : nat) :
    List.length lines <= i -> covers lines i []
| covers_blank (i : nat) (line : str) (bs : list MDBlock) :
    nth_error lines i = Some line ->
    truthy (strip line) = false ->
    covers lines (i + 1) bs ->
    covers lines i bs
| covers_block (i j : nat) (line : str) (b : MDBlock) (bs : list MDBlock) :
    nth_error lines i = Some line ->
    truthy (strip line) = true ->
    turn lines i line = Ok (j, [b]) ->
    i < j ->
    covers lines j bs ->
    covers lines i (b :: bs).

(** ** The shape of a block *)

(** A block as [parse_md] builds it: the content has the shape its kind
    requires, a heading has a level from 1 to 6 and every other block
    the default level 0, a table has a head row, a list an item and a
    paragraph some text. *)
Definition well_formed (b : MDBlock) : Prop :=
  match b_kind b, b_content b with
  | heading, Text _ => 1 <= b_level b /\ b_level b <= 6
  | table, Rows rows => rows <> [] /\ b_level b = 0
  | paragraph, Text t => t <> [] /\ b_level b = 0
  | list_, Items items => items <> [] /\ b_level b = 0
  | code, Text _ => b_level b = 0
  | hr, Text t => t = [] /\ b_level b = 0
  | _, _ => False
  end.


(** The delimiters of the emphasis and code spans of [strip_inline_md]:
    two stars, two underscores, one star, one underscore, one
    backtick. *)
Definition span_delimiters : list str :=
  [ ["*"; "*"]; ["_"; "_"]; ["*"]; ["_"]; ["`"] ]%char.

(** ** [export_to_excel]

    The exporter drives the sheet through the spreadsheet library.
    The model is the sequence of requests the loop over the blocks
    makes of the sheet, in the order of the source, with the
    arguments the source computes.  The loop over the columns that
    follows reads the sheet back through the library and is not
    modelled. *)

(** The module constants [HEADING_FONTS[level]], [TABLE_HEADER_FONT],
    [TABLE_BODY_FONT], [BODY_FONT], [CODE_FONT]. *)
Inductive font :=
| HEADING_FONTS (level : nat)
| TABLE_HEADER_FONT
| TABLE_BODY_FONT
| BODY_FONT
| CODE_FONT.

(** [HEADING_FILLS[level]], [TABLE_HEADER_FILL], [CODE_FILL]. *)
Inductive fill :=
| HEADING_FILLS (level : nat)
| TABLE_HEADER_FILL
| CODE_FILL.

(** [THIN_BORDER] and the border of a rule,
    [Border(bottom=Side(style="medium", color="888888"))]. *)
Inductive border := THIN_BORDER | MEDIUM_BOTTOM.

(** [Alignment(wrap_text=..., vertical="center")], either argument
    optional. *)
Inductive alignment := Alignment (wrap_text : option bool) (vertical_center : bool).

(** The value of a cell: a text, or the text of a list item behind
    its prefix, ["  " * depth + "• "]; the bullet, U+2022, is not a
    character of [str], so the prefix is kept as its depth. *)
Inductive value :=
| text_value (t : str)
| bullet_value (depth : nat) (t : str).

Inductive sheet_op :=
| ws_cell (row column : nat) (v : option value)
    (* ws.cell(row=row, column=column, value=v) *)
| cell_font (row column : nat) (f : font)
| cell_fill (row column : nat) (f : fill)
| cell_border (row column : nat) (b : border)
| cell_alignment (row column : nat) (a : alignment)
| row_height (row : nat) (height : nat).

(** [HEADING_FONTS.get(level, HEADING_FONTS[6])] *)
Definition heading_font (level : nat) : font :=
  if (1 <=? level) && (level <=? 6) then HEADING_FONTS level
  else HEADING_FONTS 6.

(** [level in HEADING_FILLS] *)
Definition has_heading_fill (level : nat) : bool :=
  (1 <=? level) && (level <=? 3).

(** The branch of a heading. *)
Definition excel_heading (row level : nat) (content : str) : list sheet_op :=
  [ws_cell row 1 (Some (text_value (strip_inline_md content)));
   cell_font row 1 (heading_font level)]
  ++ (if has_heading_fill level
      then flat_map (fun col => [ws_cell row col None;
                                 cell_fill row col (HEADING_FILLS level)])
                    (seq 1 7)
      else [])
  ++ [cell_alignment row 1 (Alignment None true);
      row_height row (if level <=? 2 then 28 else 22)].

(** The inner loop of a table, [for ci, cell_text in enumerate(trow)],
    from column index [ci] on. *)
Fixpoint excel_table_row (row ri ci : nat) (trow : list str) : list sheet_op :=
  match trow with
  | [] => []
  | cell_text :: trow' =>
      [ws_cell row (ci + 1) (Some (text_value (strip_inline_md cell_text)));
       cell_border row (ci + 1) THIN_BORDER;
       cell_alignment row (ci + 1) (Alignment (Some true) true)]
      ++ (if ri =? 0
          then [cell_fill row (ci + 1) TABLE_HEADER_FILL;
                cell_font row (ci + 1) TABLE_HEADER_FONT]
          else [cell_font row (ci + 1) TABLE_BODY_FONT])
      ++ excel_table_row row ri (S ci) trow'
  end.

(** The outer loop of a table, [for ri, trow in enumerate(table_rows)],
    from row index [ri] on; the row counter is returned. *)
Fixpoint excel_table_rows (row ri : nat) (table_rows : list (list str))
    : list sheet_op * nat :=
  match table_rows with
  | [] => ([], row)
  | trow :: table_rows' =>
      let '(ops, row') := excel_table_rows (S row) (S ri) table_rows' in
      (excel_table_row row ri 0 trow ++ ops, row')
  end.

(** The loop of a list, [for indent, text in block.content]. *)
Fixpoint excel_list (row : nat) (items : list (nat * str))
    : list sheet_op * nat :=
  match items with
  | [] => ([], row)
  | (indent, text) :: items' =>
      let '(ops, row') := excel_list (S row) items' in
      ([ws_cell row 1 (Some (bullet_value (indent / 2) (strip_inline_md text)));
        cell_font row 1 BODY_FONT;
        cell_alignment row 1 (Alignment (Some false) false)] ++ ops, row')
  end.

(** The loop of a code block, [for code_line in block.content.split("\n")]. *)
Fixpoint excel_code (row : nat) (code_lines : list str) : list sheet_op * nat :=
  match code_lines with
  | [] => ([], row)
  | code_line :: code_lines' =>
      let '(ops, row') := excel_code (S row) code_lines' in
      ([ws_cell row 1 (Some (text_value code_line));
        cell_font row 1 CODE_FONT;
        cell_fill row 1 CODE_FILL;
        cell_alignment row 1 (Alignment (Some false) false)] ++ ops, row')
  end.

(** One turn of [for block in blocks]: the requests made and the row
    counter after them.  The content of a block is not typed in the
    source; the model covers a block whose content has the shape
    [parse_md] gives to its kind, and is [None] on any other. *)
Definition excel_block (row : nat) (block : MDBlock)
    : option (list sheet_op * nat) :=
  match b_kind block, b_content block with
  | heading, Text content =>
      Some (excel_heading row (b_level block) content, row + 1)
  | table, Rows table_rows =>
      match table_rows with
      | [] => Some ([], row)
      | _ :: _ =>
          let '(ops, row') := excel_table_rows row 0 table_rows in
          Some (ops, row' + 1)
      end
  | list_, Items items =>
      let '(ops, row') := excel_list row items in Some (ops, row' + 1)
  | code, Text content =>
      let '(ops, row') := excel_code row (split LF content) in
      Some (ops, row' + 1)
  | hr, _ =>
      Some (flat_map (fun col => [ws_cell row col None;
                                  cell_border row col MEDIUM_BOTTOM])
                     (seq 1 7), row + 1)
  | paragraph, Text content =>
      Some ([ws_cell row 1 (Some (text_value (strip_inline_md content)));
             cell_font row 1 BODY_FONT;
             cell_alignment row 1 (Alignment (Some false) false)], row + 1)
  | _, _ => None
  end.

(** [for block in blocks], from row counter [row] on. *)
Fixpoint excel_blocks (row : nat) (blocks : list MDBlock)
    : option (list sheet_op * nat) :=
  match blocks with
  | [] => Some ([], row)
  | block :: blocks' =>
      match excel_block row block with
      | Some (ops, row') =>
          match excel_blocks row' blocks' with
          | Some (ops', row'') => Some (ops ++ ops', row'')
          | None => None
          end
      | None => None
      end
  end.

(** The cells that are given a value, with the value, in the order of
    the requests. *)
Fixpoint written (ops : list sheet_op) : list (nat * nat * value) :=
  match ops with
  | [] => []
  | ws_cell row column (Some v) :: ops' => (row, column, v) :: written ops'
  | _ :: ops' => written ops'
  end.

(** Reading order of the cells of a sheet: top to bottom, and left to
    right within a row. *)
Definition before (a b : nat * nat * value) : Prop :=
  let '(r, c, _) := a in
  let '(r', c', _) := b in
  r < r' \/ (r = r' /\ c < c').

(** The text of a value without the prefix of a list item. *)
Definition text_of (v : value) : str :=
  match v with text_value t => t | bullet_value _ t => t end.

(** The row a request is about. *)
Definition op_row (op : sheet_op) : nat :=
  match op with
  | ws_cell row _ _ | cell_font row _ _ | cell_fill row _ _
  | cell_border row _ _ | cell_alignment row _ _ | row_height row _ => row
  end.

(** The number of rows a block takes on the sheet: its own rows and,
    after a table, a list or a code block, one row left empty. *)
Definition rows_of (block : MDBlock) : nat :=
  match b_kind block, b_content block with
  | table, Rows [] => 0
  | table, Rows table_rows => List.length table_rows + 1
  | list_, Items items => List.length items + 1
  | code, Text content => List.length (split LF content) + 1
  | _, _ => 1
  end.

Definition entry_row (e : nat * nat * value) : nat := fst (fst e).
Definition entry_column (e : nat * nat * value) : nat := snd (fst e).

(** Every entry comes before all the later ones. *)
Fixpoint in_reading_order (l : list (nat * nat * value)) : Prop :=
  match l with
  | [] => True
  | e :: l' => Forall (before e) l' /\ in_reading_order l'
  end.

(** Entries in reading order, all of them in the rows from [lo] to
    [hi - 1]. *)
Definition tidy (lo hi : nat) (l : list (nat * nat * value)) : Prop :=
  in_reading_order l /\ Forall (fun e => lo <= entry_row e < hi) l.

(** ** [export_to_word]

    As for the sheet, the model is the sequence of requests the loop
    over the blocks makes of the document library.  A request about a
    paragraph or a run is about the one added last; points and
    quarters of an inch are natural numbers. *)
Inductive doc_op :=
| add_heading (text : str) (level : nat)
    (* doc.add_heading(text, level=level) *)
| add_table (rows cols : nat)
    (* doc.add_table(rows=rows, cols=cols) *)
| table_style_grid
    (* table.style = "Table Grid" *)
| table_autofit
    (* table.autofit = True *)
| table_width_pct (w : nat)
    (* the elements w:tblW are removed and one of w:w = w, w:type = pct
       is added *)
| table_cell (ri ci : nat)
    (* cell = table.cell(ri, ci) *)
| set_cell_text (ri ci : nat) (t : str)
    (* cell.text = t *)
| cell_add_paragraph (ri ci : nat) (t : str)
    (* cell.add_paragraph(t) *)
| cell_runs_size (ri ci : nat) (pt : nat)
    (* run.font.size = Pt(pt), for every run of every paragraph of the
       cell *)
| cell_shading (ri ci : nat)
    (* an element w:shd of fill D6E4F0 is added to the cell *)
| cell_runs_bold (ri ci : nat)
    (* run.bold = True, for every run of every paragraph of the cell *)
| add_paragraph (text : str) (list_bullet : bool)
    (* doc.add_paragraph(text), with style="List Bullet" or without *)
| left_indent (quarter_inches : nat)
    (* p.paragraph_format.left_indent = Inches(0.25 * quarter_inches) *)
| add_run (text : str)
    (* p.add_run(text) *)
| run_font_consolas (pt : nat)
    (* run.font.name = "Consolas"; run.font.size = Pt(pt) *)
| paragraph_shading
    (* an element w:shd of fill F2F2F2 is added to the paragraph *)
| paragraph_bottom_border.
    (* an element w:pBdr with a single bottom line of colour 888888 is
       added to the paragraph *)

(** [max(len(r) for r in table_rows)] *)
Definition num_cols (table_rows : list (list str)) : nat :=
  list_max (map (@List.length str) table_rows).

(** The body of the inner loop of a table, for one cell.  [lines[0]]
    of an empty list raises; the model is [None] there. *)
Definition word_cell (ri ci : nat) (cell_text : str) : option (list doc_op) :=
  let text := strip_inline_md cell_text in
  match split LF text with
  | [] => None
  | first :: extra =>
      Some ([table_cell ri ci; set_cell_text ri ci first]
            ++ map (cell_add_paragraph ri ci) extra
            ++ [cell_runs_size ri ci 9]
            ++ (if ri =? 0 then [cell_shading ri ci; cell_runs_bold ri ci]
                else []))
  end.

(** [for ci, cell_text in enumerate(trow)], from column index [ci]
    on. *)
Fixpoint word_table_row (ri ci : nat) (trow : list str) : option (list doc_op) :=
  match trow with
  | [] => Some []
  | cell_text :: trow' =>
      match word_cell ri ci cell_text with
      | Some ops =>
          match word_table_row ri (S ci) trow' with
          | Some ops' => Some (ops ++ ops')
          | None => None
          end
      | None => None
      end
  end.

(** [for ri, trow in enumerate(table_rows)], from row index [ri] on. *)
Fixpoint word_table_rows (ri : nat) (table_rows : list (list str))
    : option (list doc_op) :=
  match table_rows with
  | [] => Some []
  | trow :: table_rows' =>
      match word_table_row ri 0 trow with
      | Some ops =>
          match word_table_rows (S ri) table_rows' with
          | Some ops' => Some (ops ++ ops')
          | None => None
          end
      | None => None
      end
  end.

(** One turn of [for block in blocks].  As for the sheet, the model
    covers a block whose content has the shape [parse_md] gives to its
    kind. *)
Definition word_block (block : MDBlock) : option (list doc_op) :=
  match b_kind block, b_content block with
  | heading, Text content =>
      let level := Nat.min (b_level block) 4 in
      Some [add_heading (strip_inline_md content) level]
  | table, Rows table_rows =>
      match table_rows with
      | [] => Some []
      | _ :: _ =>
          match word_table_rows 0 table_rows with
          | Some ops =>
              Some ([add_table (List.length table_rows) (num_cols table_rows);
                     table_style_grid; table_autofit; table_width_pct 5000]
                    ++ ops ++ [add_paragraph [] false])
          | None => None
          end
      end
  | list_, Items items =>
      Some (flat_map (fun item : nat * str =>
                        let '(indent, text) := item in
                        [add_paragraph (strip_inline_md text) true;
                         left_indent (indent / 2)])
                     items)
  | code, Text content =>
      Some [add_paragraph [] false; add_run content; run_font_consolas 9;
            paragraph_shading]
  | hr, _ =>
      Some [add_paragraph [] false; paragraph_bottom_border]
  | paragraph, Text content =>
      let text := strip_inline_md content in
      match split LF text with
      | [] => None
      | first :: extra =>
          Some (add_paragraph first false
                :: map (fun extra_line => add_run (LF :: extra_line)) extra)
      end
  | _, _ => None
  end.

(** [for block in blocks] *)
Fixpoint word_blocks (blocks : list MDBlock) : option (list doc_op) :=
  match blocks with
  | [] => Some []
  | block :: blocks' =>
      match word_block block with
      | Some ops =>
          match word_blocks blocks' with
          | Some ops' => Some (ops ++ ops')
          | None => None
          end
      | None => None
      end
  end.

(** The text a request puts into the body of the document, outside
    tables. *)
Definition body_text (op : doc_op) : str :=
  match op with
  | add_heading t _ | add_paragraph t _ | add_run t => t
  | _ => []
  end.

(** The paragraphs of the cell of row [ri] and column [ci] of a table,
    in the order of the requests. *)
Fixpoint cell_paragraphs (ri ci : nat) (ops : list doc_op) : list str :=
  match ops with
  | [] => []
  | set_cell_text r c t :: ops' | cell_add_paragraph r c t :: ops' =>
      if (r =? ri) && (c =? ci) then t :: cell_paragraphs ri ci ops'
      else cell_paragraphs ri ci ops'
  | _ :: ops' => cell_paragraphs ri ci ops'
  end.

(** A request about a cell of a table. *)
Definition cell_request (op : doc_op) : Prop :=
  match op with
  | table_cell _ _ | set_cell_text _ _ _ | cell_add_paragraph _ _ _
  | cell_runs_size _ _ _ | cell_shading _ _ | cell_runs_bold _ _ => True
  | _ => False
  end.

(** A heading is asked for with a level from 1 to 4. *)
Definition heading_level_ok (op : doc_op) : Prop :=
  match op with add_heading _ level => 1 <= level <= 4 | _ => True end.

(** ** The width of a column

    The last loop of [export_to_excel] reads the columns of the sheet
    back through the library; its body, for the cells of one column,
    is modelled on the values of these cells, [None] being a cell
    without value. *)

(** [len(str(cell.value))]; the prefix of a list item has two blanks
    for each unit of depth, the bullet and one blank. *)
Definition value_len (v : value) : nat :=
  match v with
  | text_value t => List.length t
  | bullet_value depth t => 2 * depth + 2 + List.length t
  end.

(** [if cell.value]: there is a value and it is not the empty text. *)
Definition has_value (v : option value) : bool :=
  match v with
  | Some (text_value t) => truthy t
  | Some (bullet_value _ _) => true
  | None => false
  end.

(** [for cell in col_cells], from [max_len] on. *)
Fixpoint max_len_from (max_len : nat) (col_cells : list (option value)) : nat :=
  match col_cells with
  | [] => max_len
  | v :: col_cells' =>
      max_len_from
        (if has_value v
         then match v with Some x => Nat.max max_len (value_len x) | None => max_len end
         else max_len)
        col_cells'
  end.

(** The width given to the column, [min(max_len + 4, 60)]. *)
Definition column_width (col_cells : list (option value)) : nat :=
  Nat.min (max_len_from 0 col_cells + 4) 60.

(** ** The content of a paragraph, as the specification words it *)

(** Texts joined with single spaces: the first one, and each of the
    others behind one space. *)
Definition spaced (l : list str) : str :=
  match l with
  | [] => []
  | x :: l' => x ++ List.concat (map (fun y => " "%char :: y) l')
  end.

(** The accumulated lines [i], ..., [j - 1] joined with single spaces,
    the lines taken as they are. *)
Definition paragraph_as_worded (lines : list str) (i j : nat) : str :=
  spaced (slice lines i j).

(** ** Texts without a tag *)

(** No position of [t] begins a line-break tag or an anchor element:
    neither the pattern of the first rule of [strip_inline_md] nor
    that of the last one matches at any position. *)
Fixpoint tag_free (t : str) : bool :=
  match t with
  | [] => true
  | _ :: t' =>
      negb (matches re_br t) && negb (matches re_anchor t) && tag_free t'
  end.

(** A pattern without the anchor of the beginning of the text. *)
Fixpoint bol_free (r : regex) : bool :=
  match r with
  | Bol => false
  | Eol | One _ | Rep _ _ _ _ => true
  | Cat r1 r2 | Alt r1 r2 => bol_free r1 && bol_free r2
  | Grp _ r1 => bol_free r1
  end.
(** * Properties *)

(** ** The outer loop *)

(** More fuel does not change a result that was reached. *)
Lemma parse_loop_fuel_mono (fuel fuel' : nat) (lines : list str) (i : nat)
    (blocks : list MDBlock) :
  fuel <= fuel' ->
  parse_loop fuel lines i blocks <> OutOfFuel ->
  parse_loop fuel' lines i blocks = parse_loop fuel lines i blocks.
Proof.
  revert fuel' i blocks.
  induction fuel as [|f IH]; intros fuel' i blocks Hle Hne.
  - simpl in Hne. congruence.
  - destruct fuel' as [|f']; [lia|].
    simpl in *.
    destruct (nth_error lines i) as [line|]; [|reflexivity].
    destruct (turn lines i line) as [[j bs]|e]; [|reflexivity].
    apply IH; [lia|assumption].
Qed.

(** A turn that leaves the cursor where it is and appends nothing is
    repeated for ever. *)
Lemma parse_loop_stall (lines : list str) (i : nat) (line : str)
    (blocks : list MDBlock) :
  nth_error lines i = Some line ->
  turn lines i line = Ok (i, []) ->
  forall fuel, parse_loop fuel lines i blocks = OutOfFuel.
Proof.
  intros Hn Ht fuel.
  induction fuel as [|f IH]; [reflexivity|].
  simpl. rewrite Hn, Ht, app_nil_r. exact IH.
Qed.

(** C1 (the code raises): on the one-line input ["- "], a bullet
    followed by one blank, [parse_md] raises [AttributeError] whatever
    the fuel: the loop test of the unordered list matches the line, the
    item pattern does not, and the group of the missing match is read.
    The ordered list does the same on ["1. "]. *)
Theorem parse_md_raises_on_empty_item :
  forall fuel,
    parse_md (S fuel) (py "- ") = Raises AttributeError
    /\ parse_md (S fuel) (py "1. ") = Raises AttributeError.
Proof.
  intro fuel. split; reflexivity.
Qed.

(** C2 (the code does not terminate): on the one-line input ["# "], a
    hash followed by one blank, no amount of fuel lets [parse_md]
    return: no rule of the loop matches the line, the paragraph loop
    stops at once because the line is special, and the cursor stays. *)
Theorem parse_md_hangs_on_empty_heading :
  forall fuel, parse_md fuel (py "# ") = OutOfFuel.
Proof.
  intro fuel. unfold parse_md.
  apply parse_loop_stall with (line := py "# "); reflexivity.
Qed.

(** ** The matcher *)

(** A successful repetition took some admissible number [n] of
    characters of the class, and the continuation succeeded there. *)
Lemma rep_sound (gr : bool) (p : ascii -> bool) (s : str) :
  forall lo hi i k m,
    rep gr p lo hi i s k = Some m ->
    exists n, lo <= n /\ within hi n /\ n <= List.length s
              /\ forallb p (firstn n s) = true
              /\ k (i + n) (skipn n s) = Some m.
Proof.
  induction s as [|c s' IH]; intros lo hi i k m H.
  - assert (Hk : match lo with 0 => k i [] | S _ => None end = Some m).
    { simpl in H. destruct gr; simpl in H.
      - exact H.
      - destruct (match lo with 0 => k i [] | S _ => None end); [exact H|discriminate]. }
    destruct lo; [|discriminate].
    exists 0. rewrite Nat.add_0_r. simpl.
    repeat split; try lia; try assumption.
    destruct hi; simpl; lia.
  - assert (Hcases :
        (room hi && p c = true /\ rep gr p (pred lo) (dec hi) (S i) s' k = Some m)
        \/ (lo = 0 /\ k i (c :: s') = Some m)).
    { simpl in H. destruct gr.
      - destruct (room hi && p c) eqn:E.
        + destruct (rep true p (pred lo) (dec hi) (S i) s' k) eqn:R.
          * left. split; [reflexivity|]. congruence.
          * right. destruct lo; [split; [reflexivity|assumption]|discriminate].
        + right. destruct lo; [split; [reflexivity|assumption]|discriminate].
      - destruct lo.
        + destruct (k i (c :: s')) eqn:K.
          * right. split; [reflexivity|]. congruence.
          * left. destruct (room hi && p c); [split; [reflexivity|assumption]|discriminate].
        + left. destruct (room hi && p c); [split; [reflexivity|assumption]|discriminate]. }
    destruct Hcases as [[Hc Hr]|[Hlo Hk]].
    + apply andb_true_iff in Hc. destruct Hc as [Hroom Hp].
      destruct (IH _ _ _ _ _ Hr) as (n & Hn1 & Hn2 & Hn3 & Hn4 & Hn5).
      exists (S n). simpl. rewrite Hp, Hn4.
      replace (i + S n) with (S i + n) by lia.
      repeat split; try lia; try assumption.
      destruct hi as [[|h]|]; simpl in *; try discriminate; lia.
    + subst lo. exists 0. rewrite Nat.add_0_r. simpl.
      repeat split; try lia; try assumption.
      destruct hi; simpl; lia.
Qed.

(** Backtracking is complete: if some admissible number of characters
    lets the continuation succeed, the repetition succeeds. *)
Lemma rep_complete (gr : bool) (p : ascii -> bool) (s : str) :
  forall lo hi i k n,
    lo <= n -> within hi n -> n <= List.length s ->
    forallb p (firstn n s) = true ->
    k (i + n) (skipn n s) <> None ->
    rep gr p lo hi i s k <> None.
Proof.
  induction s as [|c s' IH]; intros lo hi i k n Hlo Hhi Hlen Hp Hk.
  - simpl in Hlen. assert (n = 0) by lia. subst n.
    assert (lo = 0) by lia. subst lo.
    rewrite Nat.add_0_r in Hk. simpl in Hk.
    simpl. destruct gr; simpl; [exact Hk|].
    destruct (k i []) eqn:E; [discriminate|congruence].
  - destruct n as [|n].
    + assert (lo = 0) by lia. subst lo.
      rewrite Nat.add_0_r in Hk. simpl in Hk.
      simpl. destruct gr.
      * destruct (if room hi && p c then rep true p 0 (dec hi) (S i) s' k else None);
          [discriminate|assumption].
      * destruct (k i (c :: s')) eqn:E; [discriminate|congruence].
    + simpl in Hp. apply andb_true_iff in Hp. destruct Hp as [Hpc Hp].
      assert (Hroom : room hi = true).
      { destruct hi as [[|h]|]; simpl in *; try reflexivity; lia. }
      assert (Hrec : rep gr p (pred lo) (dec hi) (S i) s' k <> None).
      { apply IH with (n := n); try assumption.
        - lia.
        - destruct hi as [h|]; simpl in *; lia.
        - simpl in Hlen. lia.
        - replace (S i + n) with (i + S n) by lia. exact Hk. }
      simpl. rewrite Hroom, Hpc. simpl. destruct gr.
      * destruct (rep true p (pred lo) (dec hi) (S i) s' k) eqn:E;
          [discriminate|congruence].
      * destruct (match lo with 0 => k i (c :: s') | S _ => None end);
          [discriminate|assumption].
Qed.

(** The matcher only finds matches of the pattern. *)
Lemma run_sound (r : regex) :
  forall i s g k m,
    run r i s g k = Some m ->
    exists n g', spans r i s n /\ k (i + n) (skipn n s) g' = Some m.
Proof.
  induction r as [| |p|gr lo hi p|r1 IH1 r2 IH2|r1 IH1 r2 IH2|x r1 IH1];
    intros i s g k m H; simpl in H.
  - destruct (i =? 0) eqn:E; [|discriminate].
    apply Nat.eqb_eq in E. exists 0, g. rewrite Nat.add_0_r.
    simpl. auto.
  - exists 0, g. rewrite Nat.add_0_r. simpl.
    destruct s as [|c [|c' s']]; [auto| |discriminate].
    destruct (Ascii.eqb c LF) eqn:E; [|discriminate].
    apply Ascii.eqb_eq in E. subst c. auto.
  - destruct s as [|c s']; [discriminate|].
    destruct (p c) eqn:E; [|discriminate].
    exists 1, g. replace (i + 1) with (S i) by lia. simpl.
    split; [|assumption]. split; [reflexivity|]. exists c, s'. auto.
  - apply rep_sound in H. destruct H as (n & H1 & H2 & H3 & H4 & H5).
    exists n, g. simpl. auto.
  - apply IH1 in H. destruct H as (n1 & g1 & S1 & H).
    apply IH2 in H. destruct H as (n2 & g2 & S2 & H).
    exists (n1 + n2), g2. split.
    + simpl. exists n1, n2. auto.
    + rewrite skipn_skipn in H.
      replace (i + n1 + n2) with (i + (n1 + n2)) in H by lia.
      replace (n2 + n1) with (n1 + n2) in H by lia. exact H.
  - destruct (run r1 i s g k) eqn:E.
    + inversion H; subst. apply IH1 in E.
      destruct E as (n & g' & S1 & E). exists n, g'. simpl. auto.
    + apply IH2 in H. destruct H as (n & g' & S2 & H).
      exists n, g'. simpl. auto.
  - apply IH1 in H. destruct H as (n & g' & S1 & H).
    exists n. eexists. split; [exact S1|exact H].
Qed.

(** The matcher finds a match whenever the pattern has one that the
    continuation accepts. *)
Lemma run_complete (r : regex) :
  forall i s g k n,
    spans r i s n ->
    (forall g', k (i + n) (skipn n s) g' <> None) ->
    run r i s g k <> None.
Proof.
  induction r as [| |p|gr lo hi p|r1 IH1 r2 IH2|r1 IH1 r2 IH2|x r1 IH1];
    intros i s g k n S K; simpl in S; simpl.
  - destruct S as [-> ->]. simpl in *. apply K.
  - destruct S as [-> S]. rewrite Nat.add_0_r in K. simpl in K.
    destruct S as [-> | ->]; simpl; apply K.
  - destruct S as [-> (c & s' & -> & Hp)]. rewrite Hp.
    replace (i + 1) with (S i) in K by lia. apply K.
  - destruct S as (H1 & H2 & H3 & H4).
    apply rep_complete with (n := n); auto.
  - destruct S as (n1 & n2 & -> & S1 & S2).
    apply IH1 with (n := n1); [exact S1|].
    intro g'. apply IH2 with (n := n2); [exact S2|].
    intro g''. rewrite skipn_skipn.
    replace (i + n1 + n2) with (i + (n1 + n2)) by lia.
    replace (n2 + n1) with (n1 + n2) by lia. apply K.
  - destruct (run r1 i s g k) eqn:E; [discriminate|].
    destruct S as [S|S].
    + exfalso. apply (IH1 i s g k n S K). exact E.
    + apply IH2 with (n := n); assumption.
  - apply IH1 with (n := n); [exact S|]. intro g'. apply K.
Qed.

(** [re.match] decides whether the pattern spans a prefix of the
    subject. *)
Lemma matches_spec (r : regex) (s : str) :
  matches r s = true <-> exists n, spans r 0 s n.
Proof.
  unfold matches, re_match, match_at. split.
  - destruct (run r 0 s [] (fun j _ g => Some (j, g))) eqn:E; [|discriminate].
    intros _. apply run_sound in E. destruct E as (n & _ & S & _).
    exists n. exact S.
  - intros [n S].
    destruct (run r 0 s [] (fun j _ g => Some (j, g))) eqn:E; [reflexivity|].
    exfalso. revert E. apply run_complete with (n := n); [exact S|].
    intros g'. discriminate.
Qed.

Lemma re_match_spec (r : regex) (s : str) :
  re_match r s <> None <-> exists n, spans r 0 s n.
Proof.
  rewrite <- matches_spec. unfold matches.
  destruct (re_match r s); split; congruence.
Qed.

(** ** Blanks and the first character of a line *)

Lemma lstrip_spaces (w x : str) :
  forallb isspace w = true -> lstrip (w ++ x) = lstrip x.
Proof.
  induction w as [|c w IH]; simpl; intro H; [reflexivity|].
  apply andb_true_iff in H. destruct H as [Hc Hw].
  rewrite Hc. auto.
Qed.

Lemma lstrip_head_not_space (l : str) (c : ascii) (rest : str) :
  lstrip l = c :: rest -> isspace c = false.
Proof.
  induction l as [|a l IH]; simpl; [discriminate|].
  destruct (isspace a) eqn:E; [exact IH|].
  intro H. inversion H; subst. exact E.
Qed.

Lemma lstrip_keeps_last (y : str) (c : ascii) :
  isspace c = false -> exists z, lstrip (y ++ [c]) = z ++ [c].
Proof.
  intro Hc. induction y as [|a y [z IH]]; simpl.
  - rewrite Hc. exists []. reflexivity.
  - destruct (isspace a).
    + exists z. exact IH.
    + exists (a :: y). reflexivity.
Qed.

Lemma rstrip_head (c : ascii) (rest : str) :
  isspace c = false -> exists rest', rstrip (c :: rest) = c :: rest'.
Proof.
  intro Hc. unfold rstrip. simpl.
  destruct (lstrip_keeps_last (rev rest) c Hc) as [z Hz].
  rewrite Hz, rev_app_distr. simpl. eauto.
Qed.

(** [strip] keeps the first non-blank character of the line. *)
Lemma strip_head (l : str) : hd_error (strip l) = hd_error (lstrip l).
Proof.
  unfold strip. destruct (lstrip l) as [|c rest] eqn:E; [reflexivity|].
  destruct (rstrip_head c rest (lstrip_head_not_space _ _ _ E)) as [rest' ->].
  reflexivity.
Qed.

Lemma truthy_hd (s : str) : truthy s = true <-> hd_error s <> None.
Proof.
  destruct s; simpl; split; congruence.
Qed.

Lemma startswith_hd (s : str) (a : ascii) (p : str) :
  startswith s (a :: p) = true -> hd_error s = Some a.
Proof.
  destruct s as [|c s]; simpl; [discriminate|].
  intro H. apply andb_true_iff in H. destruct H as [H _].
  apply Ascii.eqb_eq in H. subst. reflexivity.
Qed.

(** A line that begins with a non-blank character is its own [lstrip]. *)
Lemma lstrip_hd_not_space (l : str) (c : ascii) :
  hd_error l = Some c -> isspace c = false -> hd_error (lstrip l) = Some c.
Proof.
  destruct l as [|a l]; simpl; [discriminate|].
  intros H Hc. inversion H; subst. rewrite Hc. reflexivity.
Qed.

Lemma lstrip_after_spaces (w : str) (c : ascii) (rest : str) :
  forallb isspace w = true -> isspace c = false ->
  hd_error (lstrip (w ++ c :: rest)) = Some c.
Proof.
  intros Hw Hc. rewrite lstrip_spaces by exact Hw. simpl. rewrite Hc. reflexivity.
Qed.

(** ** The first character the patterns demand *)

Ltac open_spans H :=
  simpl in H;
  repeat match goal with
         | X : exists _, _ |- _ => destruct X
         | X : _ /\ _ |- _ => destruct X
         end;
  subst; simpl in *.

Lemma chr_is_eq (a c : ascii) : chr_is a c = true -> c = a.
Proof. unfold chr_is. apply Ascii.eqb_eq. Qed.

Lemma bullet_not_space (c : ascii) : bullet c = true -> isspace c = false.
Proof.
  unfold bullet. intro H.
  repeat (apply orb_true_iff in H; destruct H as [H|H]);
    apply chr_is_eq in H; subst; reflexivity.
Qed.

Lemma bullet_not_digit (c : ascii) : bullet c = true -> isdigit c = false.
Proof.
  unfold bullet. intro H.
  repeat (apply orb_true_iff in H; destruct H as [H|H]);
    apply chr_is_eq in H; subst; reflexivity.
Qed.

Lemma digit_not_space (c : ascii) : isdigit c = true -> isspace c = false.
Proof.
  destruct c as [[] [] [] [] [] [] [] []]; vm_compute; congruence.
Qed.

Lemma firstn_cons_skipn (n : nat) (l : str) (c : ascii) (rest : str) :
  skipn n l = c :: rest -> l = firstn n l ++ c :: rest.
Proof.
  intro H. rewrite <- H. symmetry. apply firstn_skipn.
Qed.

(** A line matched by the loop test of the unordered list has a bullet
    as its first non-blank character. *)
Lemma re_ul_first (l : str) :
  matches re_ul l = true ->
  exists c, hd_error (lstrip l) = Some c /\ bullet c = true.
Proof.
  intro H. apply matches_spec in H. destruct H as [n S].
  unfold re_ul in S. open_spans S. subst.
  match goal with X : skipn _ _ = ?c :: _ |- _ =>
    exists c; split; [|assumption]; apply firstn_cons_skipn in X; rewrite X
  end.
  apply lstrip_after_spaces; [assumption|].
  apply bullet_not_space. assumption.
Qed.

(** A line matched by the loop test of the ordered list has a digit as
    its first non-blank character. *)
Lemma re_ol_first (l : str) :
  matches re_ol l = true ->
  exists c, hd_error (lstrip l) = Some c /\ isdigit c = true.
Proof.
  intro H. apply matches_spec in H. destruct H as [n S].
  unfold re_ol in S. open_spans S.
  match goal with
  | X : forallb isspace (firstn ?a l) = true,
    Y : forallb isdigit (firstn ?b (skipn ?a l)) = true, Z : 1 <= ?b |- _ =>
      destruct (skipn a l) as [|c rest] eqn:E;
      [destruct b; simpl in *; lia|];
      destruct b as [|b']; [lia|]; simpl in Y;
      apply andb_true_iff in Y; destruct Y as [Y _];
      exists c; split; [|exact Y];
      apply firstn_cons_skipn in E; rewrite E;
      apply lstrip_after_spaces; [exact X|apply digit_not_space; exact Y]
  end.
Qed.

Lemma between_hash_first (l : str) (n : nat) :
  1 <= n -> n <= List.length l ->
  forallb (chr_is HASH) (firstn n l) = true -> hd_error l = Some HASH.
Proof.
  intros Hn Hl H. destruct n; [lia|]. destruct l as [|c l]; simpl in *; [lia|].
  apply andb_true_iff in H. destruct H as [H _].
  apply chr_is_eq in H. subst. reflexivity.
Qed.

(** A heading line begins with a hash. *)
Lemma re_heading_first (l : str) :
  re_match re_heading l <> None -> hd_error l = Some HASH.
Proof.
  intro H. apply re_match_spec in H. destruct H as [n S].
  unfold re_heading in S. open_spans S.
  match goal with
  | X : forallb (chr_is _) (firstn ?a l) = true |- _ =>
      apply (between_hash_first l a); [lia|assumption|exact X]
  end.
Qed.

Lemma re_heading_start_first (l : str) :
  matches re_heading_start l = true -> hd_error l = Some HASH.
Proof.
  intro H. apply matches_spec in H. destruct H as [n S].
  unfold re_heading_start in S. open_spans S.
  match goal with
  | X : forallb (chr_is _) (firstn ?a l) = true |- _ =>
      apply (between_hash_first l a); [lia|assumption|exact X]
  end.
Qed.

(** A heading line is also matched by the heading test of
    [_is_special_line]. *)
Lemma re_heading_is_start (l : str) :
  re_match re_heading l <> None -> matches re_heading_start l = true.
Proof.
  intro H. apply re_match_spec in H. destruct H as [n S].
  apply matches_spec.
  unfold re_heading in S. open_spans S.
  unfold re_heading_start. simpl.
  match goal with
  | X : forallb (chr_is _) (firstn ?a l) = true,
    Y : forallb isspace (firstn ?b (skipn ?a l)) = true |- _ =>
      exists (0 + (a + b)), 0, (a + b); split; [reflexivity|];
      split; [auto|]; exists a, b; simpl; auto 10
  end.
Qed.

Lemma at_least_first (p : ascii -> bool) (l : str) (n : nat) :
  1 <= n -> n <= List.length l -> forallb p (firstn n l) = true ->
  exists c, hd_error l = Some c /\ p c = true.
Proof.
  intros Hn Hl H. destruct n; [lia|]. destruct l as [|c l]; simpl in *; [lia|].
  apply andb_true_iff in H. destruct H as [H _]. eauto.
Qed.

(** A horizontal rule begins with a star, a dash or an underscore. *)
Lemma re_hr_first (l : str) :
  matches re_hr l = true ->
  exists c, hd_error l = Some c /\ rule_char c = true.
Proof.
  intro H. apply matches_spec in H. destruct H as [n S].
  unfold re_hr in S. simpl in S.
  destruct S as (n0 & n1 & _ & [_ ->] & n2 & n3 & _ & S & _).
  simpl in S. unfold rule_char.
  destruct S as [S|[S|S]]; destruct S as (Hlo & _ & Hlen & Hp);
    destruct (at_least_first _ l n2 ltac:(lia) Hlen Hp) as (c & Hc & Hpc);
    exists c; (split; [exact Hc|]); rewrite Hpc;
    repeat rewrite orb_true_r; reflexivity.
Qed.

(** A fence line has a backtick as its first non-blank character. *)
Lemma fence_first (l : str) :
  startswith (strip l) FENCE = true -> hd_error (lstrip l) = Some BACKTICK.
Proof.
  intro H. rewrite <- strip_head. exact (startswith_hd _ _ _ H).
Qed.

(** ** The scanning loops *)

Section RunLength.

Variable f : nat -> str -> bool.

Lemma run_len_le (rest : list str) :
  forall i, run_len f rest i <= List.length rest.
Proof.
  induction rest as [|l rest IH]; intro i; simpl; [lia|].
  destruct (f i l); [specialize (IH (S i))|]; lia.
Qed.

Lemma run_len_inside (rest : list str) :
  forall i k l, k < run_len f rest i -> nth_error rest k = Some l ->
                f (i + k) l = true.
Proof.
  induction rest as [|a rest IH]; intros i k l Hk Hn; simpl in *; [lia|].
  destruct (f i a) eqn:E; [|lia].
  destruct k as [|k]; simpl in Hn.
  - inversion Hn; subst. rewrite Nat.add_0_r. exact E.
  - replace (i + S k) with (S i + k) by lia. apply IH; [lia|exact Hn].
Qed.

Lemma run_len_stop (rest : list str) :
  forall i l, nth_error rest (run_len f rest i) = Some l ->
              f (i + run_len f rest i) l = false.
Proof.
  induction rest as [|a rest IH]; intros i l Hn; simpl in *; [discriminate|].
  destruct (f i a) eqn:E.
  - simpl in Hn. replace (i + S (run_len f rest (S i)))
      with (S i + run_len f rest (S i)) by lia. apply IH. exact Hn.
  - simpl in Hn. inversion Hn; subst. rewrite Nat.add_0_r. exact E.
Qed.

End RunLength.

Lemma code_loop_run (rest : list str) :
  forall i, code_loop rest i
            = (firstn (run_len in_code rest i) rest, i + run_len in_code rest i).
Proof.
  induction rest as [|l rest IH]; intro i; simpl.
  - rewrite Nat.add_0_r. reflexivity.
  - unfold in_code at 1 3, is_fence.
    destruct (negb (startswith (strip l) FENCE)).
    + rewrite IH. simpl. f_equal. lia.
    + rewrite Nat.add_0_r. reflexivity.
Qed.

Lemma table_loop_run (rest : list str) :
  forall i, table_loop rest i
            = (map _parse_table_row (firstn (run_len in_table rest i) rest),
               i + run_len in_table rest i).
Proof.
  induction rest as [|l rest IH]; intro i; simpl.
  - rewrite Nat.add_0_r. reflexivity.
  - unfold in_table at 1 3.
    destruct (contains PIPE l && truthy (strip l)).
    + rewrite IH. simpl. f_equal. lia.
    + rewrite Nat.add_0_r. reflexivity.
Qed.

Lemma para_loop_run (lines rest : list str) :
  forall i, para_loop lines rest i
            = (map strip (firstn (run_len (in_para lines) rest i) rest),
               i + run_len (in_para lines) rest i).
Proof.
  induction rest as [|l rest IH]; intro i; simpl.
  - rewrite Nat.add_0_r. reflexivity.
  - unfold in_para at 1 3.
    destruct (truthy (strip l) && negb (_is_special_line l lines i)).
    + rewrite IH. simpl. f_equal. lia.
    + rewrite Nat.add_0_r. reflexivity.
Qed.

(** A list loop that does not raise took the whole run of lines passing
    its test, and each of them has an item. *)
Lemma list_loop_run (start item : regex) (txt : nat) (rest : list str) :
  forall i items j,
    list_loop start item txt rest i = Ok (items, j) ->
    let n := run_len (in_list start) rest i in
    j = i + n
    /\ items = map (item_of item txt) (firstn n rest)
    /\ Forall (fun l => re_match item l <> None) (firstn n rest).
Proof.
  induction rest as [|l rest IH]; intros i items j H; simpl in *.
  - inversion H; subst. rewrite Nat.add_0_r. auto.
  - unfold in_list at 1 3 5. destruct (matches start l).
    + destruct (re_match item l) as [m|] eqn:E; [|discriminate].
      destruct (list_loop start item txt rest (S i)) as [[items' j']|e] eqn:R;
        [|discriminate].
      inversion H; subst. destruct (IH _ _ _ R) as (Hj & Hi & Hf).
      simpl. repeat split.
      * lia.
      * unfold item_of at 1. rewrite E. f_equal. exact Hi.
      * constructor; [congruence|exact Hf].
    + inversion H; subst. rewrite Nat.add_0_r. simpl. auto.
Qed.

(** A list loop raises exactly when a line of the run has no item. *)
Lemma list_loop_raises (start item : regex) (txt : nat) (rest : list str) :
  forall i,
    (exists e, list_loop start item txt rest i = Error e)
    <-> Exists (fun l => re_match item l = None)
               (firstn (run_len (in_list start) rest i) rest).
Proof.
  induction rest as [|l rest IH]; intro i; simpl.
  - split; [intros [e H]; discriminate|intro H; inversion H].
  - unfold in_list at 1. destruct (matches start l); simpl.
    + destruct (re_match item l) as [m|] eqn:E.
      * rewrite Exists_cons. rewrite <- IH.
        destruct (list_loop start item txt rest (S i)) as [[items' j']|e].
        -- split; [intros [e H]; discriminate|].
           intros [H|[e H]]; congruence.
        -- split; eauto.
      * split; [intros _; apply Exists_cons_hd; exact E|eauto].
    + split; [intros [e H]; discriminate|intro H; inversion H].
Qed.

Lemma slice_nth (lines : list str) (i j k : nat) (l : str) :
  nth_error (slice lines i j) k = Some l ->
  i + k < j /\ nth_error lines (i + k) = Some l.
Proof.
  unfold slice. rewrite nth_error_firstn.
  destruct (k <? j - i) eqn:E; [|discriminate].
  apply Nat.ltb_lt in E. rewrite nth_error_skipn. split; [lia|assumption].
Qed.

(** ** One turn of the loop, rule by rule *)

(** A blank line is skipped; otherwise the turn is what the first
    matching rule of the order does. *)
Lemma turn_by_rule (lines : list str) (i : nat) (line : str) :
  turn lines i line
  = if truthy (strip line) then consume lines i line (first_match lines i line)
    else Ok (i + 1, []).
Proof.
  unfold turn, first_match, precedence. simpl find.
  unfold applies, matches, is_fence.
  destruct (truthy (strip line)); [simpl negb; cbv iota|reflexivity].
  destruct (re_match re_heading line) as [m|] eqn:Eh.
  { simpl. rewrite Eh. reflexivity. }
  destruct (re_match re_hr line) as [m|]; [reflexivity|].
  destruct (startswith (strip line) FENCE); [reflexivity|].
  destruct (table_head line lines i); [reflexivity|].
  destruct (re_match re_ul line) as [m|]; [reflexivity|].
  destruct (re_match re_ol line) as [m|]; reflexivity.
Qed.

(** C7: at every cursor position on a non-blank line the turn of the
    loop is the action of the first rule that matches, the rules being
    tried in the order heading, horizontal rule, fenced code, table,
    unordered list, ordered list, paragraph; and the line ["- 3. item"],
    wherever it stands, is taken by the unordered-list rule, as the item
    [(0, "3. item")], the ordered-list pattern not matching it. *)
Theorem first_matching_rule_wins :
  precedence = [rule_heading; rule_hr; rule_fence; rule_table; rule_ul;
                rule_ol; rule_paragraph]
  /\ (forall lines i line,
        truthy (strip line) = true ->
        turn lines i line = consume lines i line (first_match lines i line))
  /\ (forall lines i,
        first_match lines i (py "- 3. item") = rule_ul
        /\ matches re_ol (py "- 3. item") = false
        /\ (forall j bs,
              nth_error lines i = Some (py "- 3. item") ->
              turn lines i (py "- 3. item") = Ok (j, bs) ->
              exists items,
                bs = [mkBlock list_ (Items ((0, py "3. item") :: items)) 0])).
Proof.
  split; [reflexivity|]. split.
  - intros lines i line Ht. rewrite turn_by_rule, Ht. reflexivity.
  - intros lines i.
    assert (Hf : first_match lines i (py "- 3. item") = rule_ul) by reflexivity.
    split; [exact Hf|]. split; [reflexivity|].
    intros j bs Hn Ht. rewrite turn_by_rule, Hf in Ht.
    change (truthy (strip (py "- 3. item"))) with true in Ht. cbv iota in Ht.
    unfold consume in Ht.
    destruct (list_loop re_ul re_ul_item 3 (skipn i lines) i)
      as [[items j']|e] eqn:R; [|discriminate].
    apply list_loop_run in R. destruct R as (_ & Hi & _).
    inversion Ht; subst. clear Ht.
    assert (Hs : exists rest, skipn i lines = py "- 3. item" :: rest).
    { destruct (nth_error_split _ _ Hn) as (l1 & l2 & -> & <-).
      exists l2. rewrite skipn_app, skipn_all, Nat.sub_diag. reflexivity. }
    destruct Hs as [rest Hs]. rewrite Hs.
    change (run_len (in_list re_ul) (py "- 3. item" :: rest) i)
      with (S (run_len (in_list re_ul) rest (S i))).
    simpl firstn. simpl map. eexists. reflexivity.
Qed.

(** ** Tables *)

Lemma firstn_exact (A : Type) (a x : list A) : firstn (List.length a) (a ++ x) = a.
Proof.
  rewrite firstn_app, Nat.sub_diag, firstn_all. simpl. apply app_nil_r.
Qed.

Lemma skipn_exact (A : Type) (a x : list A) : skipn (List.length a) (a ++ x) = x.
Proof.
  rewrite skipn_app, Nat.sub_diag, skipn_all. reflexivity.
Qed.

(** The separator pattern matches exactly the lines that begin with an
    optional pipe, a non-empty run of the class and a pipe. *)
Lemma re_separator_spec (l : str) :
  matches re_separator l = true <-> separator_prefix l.
Proof.
  rewrite matches_spec. unfold separator_prefix, re_separator. split.
  - intros [n S]. simpl in S.
    destruct S as (n1 & n2 & _ & [_ ->] & a & n4 & _ & (_ & Ha1 & Ha2 & Ha3)
                   & b & n6 & _ & (Hb1 & _ & Hb2 & Hb3) & _ & c & rest & Hc & Hd).
    simpl in *. apply chr_is_eq in Hd. subst c.
    exists (firstn a l), (firstn b (skipn a l)), rest. repeat split.
    + unfold PIPE. rewrite <- Hc, firstn_skipn, firstn_skipn. reflexivity.
    + destruct a as [|[|a']]; [left; reflexivity| |lia].
      right. destruct l as [|c0 l']; [simpl in Ha2; lia|].
      simpl in Ha3. rewrite andb_true_r in Ha3. apply chr_is_eq in Ha3.
      subst. reflexivity.
    + destruct b; [lia|]. destruct (skipn a l); [simpl in Hb2; lia|].
      simpl. discriminate.
    + exact Hb3.
  - intros (a & b & rest & -> & Ha & Hb & Hc).
    exists (0 + (List.length a + (List.length b + 1))).
    simpl. exists 0, (List.length a + (List.length b + 1)).
    split; [reflexivity|]. split; [auto|].
    exists (List.length a), (List.length b + 1).
    split; [reflexivity|]. simpl. rewrite firstn_exact, skipn_exact.
    split.
    + repeat split.
      * lia.
      * destruct Ha as [-> | ->]; simpl; lia.
      * rewrite length_app. lia.
      * destruct Ha as [-> | ->]; reflexivity.
    + exists (List.length b), 1. split; [reflexivity|].
      rewrite firstn_exact, skipn_exact. split.
      * repeat split; try assumption.
        -- destruct b; [congruence|simpl; lia].
        -- rewrite length_app. lia.
      * split; [reflexivity|]. exists PIPE, rest. split; reflexivity.
Qed.

Lemma table_head_spec (lines : list str) (i : nat) (line : str) :
  table_head line lines i = true
  <-> contains PIPE line = true
      /\ exists next, nth_error lines (i + 1) = Some next /\ separator_prefix next.
Proof.
  unfold table_head. rewrite andb_true_iff. split.
  - intros [Hp Hn]. split; [exact Hp|].
    destruct (nth_error lines (i + 1)) as [next|]; [|discriminate].
    exists next. split; [reflexivity|]. apply re_separator_spec. exact Hn.
  - intros [Hp (next & Hn & Hs)]. split; [exact Hp|].
    rewrite Hn. apply re_separator_spec. exact Hs.
Qed.

Lemma first_match_table (lines : list str) (i : nat) (line : str) :
  first_match lines i line = rule_table
  <-> matches re_heading line = false /\ matches re_hr line = false
      /\ is_fence line = false /\ table_head line lines i = true.
Proof.
  unfold first_match, precedence. simpl find. unfold applies.
  destruct (matches re_heading line); [split; [discriminate|intros [? _]; discriminate]|].
  destruct (matches re_hr line);
    [split; [discriminate|intros (_ & ? & _); discriminate]|].
  destruct (is_fence line);
    [split; [discriminate|intros (_ & _ & ? & _); discriminate]|].
  destruct (table_head line lines i); [tauto|].
  split; [|intros (_ & _ & _ & ?); discriminate].
  destruct (matches re_ul line); [discriminate|].
  destruct (matches re_ol line); discriminate.
Qed.

(** The turns that emit a table are those of the table rule. *)
Lemma turn_emits_table (lines : list str) (i : nat) (line : str) :
  (exists j rows, turn lines i line = Ok (j, [mkBlock table (Rows rows) 0]))
  <-> truthy (strip line) = true /\ first_match lines i line = rule_table.
Proof.
  rewrite turn_by_rule. split.
  - intros (j & rows & H).
    destruct (truthy (strip line)); [|discriminate].
    split; [reflexivity|].
    destruct (first_match lines i line); simpl in H; try reflexivity; exfalso.
    + destruct (re_match re_heading line); discriminate.
    + discriminate.
    + destruct (code_loop (skipn (i + 1) lines) (i + 1)). discriminate.
    + destruct (list_loop re_ul re_ul_item 3 (skipn i lines) i) as [[? ?]|?];
        discriminate.
    + destruct (list_loop re_ol re_ol_item 2 (skipn i lines) i) as [[? ?]|?];
        discriminate.
    + destruct (para_loop lines (skipn i lines) i) as [[|? ?] ?]; discriminate.
  - intros [-> ->]. simpl.
    destruct (table_loop (skipn (i + 2) lines) (i + 2)) as [rows j].
    eauto.
Qed.

(** C3, as worded, fails.  The line after the head may go on with any
    text once the pattern has matched its beginning: ["a|b"] followed by
    ["|-|x"] is a table, although ["|-|x"] does not consist of blanks,
    dashes, colons and pipes only.  And an earlier rule may take the
    line: ["# a|b"] followed by ["|-|"] is a heading and a paragraph,
    although the line contains a pipe and the next one is a separator. *)
Lemma table_rule_as_worded_fails :
  (contains PIPE (py "a|b") = true
   /\ separator_as_worded (py "|-|x") = false
   /\ parse_md 5 (py "a|b\n|-|x")
      = Returns [mkBlock table (Rows [[py "a"; py "b"]]) 0])
  /\ (contains PIPE (py "# a|b") = true
      /\ separator_as_worded (py "|-|") = true
      /\ parse_md 5 (py "# a|b\n|-|")
         = Returns [mkBlock heading (Text (py "a|b")) 1;
                    mkBlock paragraph (Text (py "|-|")) 0]).
Proof.
  repeat split; reflexivity.
Qed.

Lemma startswith_nil (s : str) : startswith s [] = true.
Proof. destruct s; reflexivity. Qed.

Lemma removelast_rev (A : Type) (l : list A) : removelast l = rev (tl (rev l)).
Proof.
  destruct (rev l) as [|a r] eqn:E.
  - apply (f_equal (@rev A)) in E. rewrite rev_involutive in E. subst. reflexivity.
  - apply (f_equal (@rev A)) in E. rewrite rev_involutive in E. subst.
    simpl. apply removelast_last.
Qed.

(** [_parse_table_row] trims the line and then does what the
    specification says. *)
Lemma parse_table_row_spec (line : str) :
  _parse_table_row line = row_as_worded (strip line).
Proof.
  unfold _parse_table_row, row_as_worded. do 2 f_equal.
  assert (H1 : forall s, (if startswith s [PIPE] then tl s else s)
                         = drop_leading_pipe s).
  { intros [|c s]; simpl; [reflexivity|].
    rewrite startswith_nil, andb_true_r. reflexivity. }
  rewrite H1. unfold drop_trailing_pipe, endswith.
  generalize (drop_leading_pipe (strip line)). intro s.
  rewrite removelast_rev. simpl rev.
  destruct (rev s) as [|c r] eqn:E; simpl.
  - apply (f_equal (@rev ascii)) in E. rewrite rev_involutive in E. exact E.
  - rewrite startswith_nil, andb_true_r.
    destruct (Ascii.eqb c PIPE); [reflexivity|].
    rewrite <- E. symmetry. apply rev_involutive.
Qed.

(** C4, as amended: every row of a table block is the cell list of one
    source line (the head line [i], then the lines [i + 2], ...,
    [j - 1]), and the cell list of a line is: the line trimmed, one
    optional leading and one optional trailing pipe removed, the rest
    split on the pipe, every cell trimmed.  The three-line example of
    the specification gives the rows [["A","B"],["1","2"]]. *)
Theorem table_rows_from_trimmed_lines :
  (forall lines i line j b,
      nth_error lines i = Some line ->
      turn lines i line = Ok (j, [b]) ->
      b_kind b = table ->
      i + 2 <= j
      /\ b_content b
         = Rows (map (fun l => row_as_worded (strip l))
                     (line :: slice lines (i + 2) j)))
  /\ parse_md 5 (py "| A | B |\n| - | - |\n| 1 | 2 |")
     = Returns [mkBlock table (Rows [[py "A"; py "B"]; [py "1"; py "2"]]) 0].
Proof.
  split; [|reflexivity].
  intros lines i line j b Hn Ht Hk.
  rewrite turn_by_rule in Ht.
  destruct (truthy (strip line)); [|discriminate].
  destruct (first_match lines i line); simpl in Ht.
  - destruct (re_match re_heading line); inversion Ht; subst; discriminate.
  - inversion Ht; subst; discriminate.
  - destruct (code_loop (skipn (i + 1) lines) (i + 1)).
    inversion Ht; subst; discriminate.
  - rewrite table_loop_run in Ht. inversion Ht; subst. clear Ht. simpl.
    split; [lia|]. unfold slice.
    replace (i + 2 + run_len in_table (skipn (i + 2) lines) (i + 2) - (i + 2))
      with (run_len in_table (skipn (i + 2) lines) (i + 2)) by lia.
    rewrite parse_table_row_spec. do 2 f_equal.
    apply map_ext. intro l. apply parse_table_row_spec.
  - destruct (list_loop re_ul re_ul_item 3 (skipn i lines) i) as [[? ?]|?];
      inversion Ht; subst; discriminate.
  - destruct (list_loop re_ol re_ol_item 2 (skipn i lines) i) as [[? ?]|?];
      inversion Ht; subst; discriminate.
  - destruct (para_loop lines (skipn i lines) i) as [[|? ?] ?];
      inversion Ht; subst; discriminate.
Qed.

(** C4, as worded, fails on a row with blanks around it: the program
    trims the line first, so ["  | 1 | 2 |"] gives the cells ["1"] and
    ["2"], where removing the pipes from the line as it stands leaves
    an empty first cell. *)
Lemma table_row_as_worded_fails :
  _parse_table_row (py "  | 1 | 2 |") = [py "1"; py "2"]
  /\ row_as_worded (py "  | 1 | 2 |") = [py ""; py "1"; py "2"]
  /\ parse_md 5 (py "| A | B |\n| - | - |\n  | 1 | 2 |")
     = Returns [mkBlock table (Rows [[py "A"; py "B"]; [py "1"; py "2"]]) 0].
Proof.
  repeat split; reflexivity.
Qed.

(** ** Which lines the rules can take *)

Lemma matches_some (r : regex) (s : str) :
  matches r s = true <-> re_match r s <> None.
Proof.
  unfold matches. destruct (re_match r s); split; congruence.
Qed.

Lemma hash_first_lstrip (l : str) :
  hd_error l = Some HASH -> hd_error (lstrip l) = Some HASH.
Proof.
  intro H. apply lstrip_hd_not_space; [exact H|reflexivity].
Qed.

Lemma rule_char_not_space (c : ascii) : rule_char c = true -> isspace c = false.
Proof.
  unfold rule_char. intro H.
  repeat (apply orb_true_iff in H; destruct H as [H|H]);
    apply chr_is_eq in H; subst; reflexivity.
Qed.

Lemma rule_char_not_digit (c : ascii) : rule_char c = true -> isdigit c = false.
Proof.
  unfold rule_char. intro H.
  repeat (apply orb_true_iff in H; destruct H as [H|H]);
    apply chr_is_eq in H; subst; reflexivity.
Qed.

(** The first non-blank character of a line matched by each test. *)
Lemma heading_first_nonblank (l : str) :
  matches re_heading l = true -> hd_error (lstrip l) = Some HASH.
Proof.
  intro H. apply hash_first_lstrip, re_heading_first, matches_some, H.
Qed.

Lemma hr_first_nonblank (l : str) :
  matches re_hr l = true ->
  exists c, hd_error (lstrip l) = Some c /\ rule_char c = true.
Proof.
  intro H. destruct (re_hr_first l H) as (c & Hc & Hr).
  exists c. split; [|exact Hr].
  apply lstrip_hd_not_space; [exact Hc|]. apply rule_char_not_space, Hr.
Qed.

(** A fence line is not blank, and the fence rule is the first that
    matches it. *)
Lemma fence_rule (lines : list str) (i : nat) (line : str) :
  is_fence line = true ->
  truthy (strip line) = true /\ first_match lines i line = rule_fence.
Proof.
  intro Hf. pose proof (fence_first line Hf) as Hb. split.
  - apply truthy_hd. rewrite strip_head, Hb. discriminate.
  - unfold first_match, precedence. simpl find. unfold applies.
    destruct (matches re_heading line) eqn:Eh.
    { apply heading_first_nonblank in Eh. rewrite Hb in Eh. discriminate. }
    destruct (matches re_hr line) eqn:Er.
    { apply hr_first_nonblank in Er. destruct Er as (c & Hc & Hr).
      rewrite Hb in Hc. inversion Hc; subst. discriminate. }
    rewrite Hf. reflexivity.
Qed.

(** ** Fenced code *)

(** C5, as amended: when the cursor is on a line whose trimmed form
    starts with three backticks, the turn emits a code block whose
    content is the following lines, as they stand, joined with a
    newline, up to the next line [j] whose trimmed form starts with
    three backticks, or up to the end of the input ([j] is then the
    number of lines); the cursor moves past line [j]. *)
Theorem fence_opens_code_block (lines : list str) (i : nat) (line : str) :
  nth_error lines i = Some line ->
  is_fence line = true ->
  exists j,
    i < j /\ j <= List.length lines
    /\ (forall k l, i < k -> k < j -> nth_error lines k = Some l ->
                    is_fence l = false)
    /\ (forall l, nth_error lines j = Some l -> is_fence l = true)
    /\ turn lines i line
       = Ok (j + 1, [mkBlock code (Text (join [LF] (slice lines (i + 1) j))) 0]).
Proof.
  intros Hn Hf.
  destruct (fence_rule lines i line Hf) as [Ht Hr].
  rewrite turn_by_rule, Ht, Hr. unfold consume.
  rewrite code_loop_run.
  set (rest := skipn (i + 1) lines).
  set (n := run_len in_code rest (i + 1)).
  exists (i + 1 + n).
  assert (Hlen : n <= List.length rest) by apply run_len_le.
  assert (Hi : i < List.length lines).
  { apply nth_error_Some. congruence. }
  unfold rest in Hlen. rewrite length_skipn in Hlen.
  repeat split.
  - lia.
  - lia.
  - intros k l Hk1 Hk2 Hl.
    assert (E : in_code (i + 1 + (k - (i + 1))) l = true).
    { apply run_len_inside with (rest := rest); [fold n; lia|].
      unfold rest. rewrite nth_error_skipn.
      replace (i + 1 + (k - (i + 1))) with k by lia. exact Hl. }
    unfold in_code in E. apply negb_true_iff in E. exact E.
  - intros l Hl.
    assert (E : in_code (i + 1 + n) l = false).
    { apply run_len_stop. fold n. unfold rest. rewrite nth_error_skipn. exact Hl. }
    unfold in_code in E. apply negb_false_iff in E. exact E.
  - unfold slice. replace (i + 1 + n - (i + 1)) with n by lia. reflexivity.
Qed.

(** C5, as worded, fails: a line whose trimmed form starts with three
    backticks may be taken by the table rule as a body row, and no code
    block is emitted. *)
Lemma fence_line_taken_as_table_row :
  is_fence (py "```|") = true
  /\ parse_md 5 (py "a|b\n|-|\n```|")
     = Returns [mkBlock table (Rows [[py "a"; py "b"]; [py "```"]]) 0].
Proof.
  split; reflexivity.
Qed.

(** ** Lists *)

Lemma first_match_applies (lines : list str) (i : nat) (line : str) :
  applies lines i line (first_match lines i line) = true.
Proof.
  unfold first_match.
  destruct (find (applies lines i line) precedence) as [r|] eqn:E.
  - apply find_some in E. apply E.
  - reflexivity.
Qed.

Lemma skipn_nth (lines : list str) (i : nat) (line : str) :
  nth_error lines i = Some line -> skipn i lines = line :: skipn (S i) lines.
Proof.
  revert i. induction lines as [|a lines IH]; intros [|i] H; simpl in *;
    try discriminate.
  - inversion H. reflexivity.
  - apply IH. exact H.
Qed.

(** No line passes the loop tests of both list styles. *)
Lemma list_styles_disjoint (l : str) :
  matches re_ul l = true -> matches re_ol l = false.
Proof.
  intro Hu. destruct (matches re_ol l) eqn:Ho; [|reflexivity].
  destruct (re_ul_first l Hu) as (c & Hc & Hb).
  destruct (re_ol_first l Ho) as (c' & Hc' & Hd).
  rewrite Hc in Hc'. inversion Hc'; subst.
  apply bullet_not_digit in Hb. congruence.
Qed.

(** The run of a list loop, in terms of the line array. *)
Lemma list_turn (s : style) (lines : list str) (i : nat) (line : str)
    (items : list (nat * str)) (j : nat) :
  nth_error lines i = Some line ->
  matches (start_of s) line = true ->
  list_loop (start_of s) (item_pattern s) (text_group s) (skipn i lines) i
  = Ok (items, j) ->
  i < j /\ j <= List.length lines
  /\ items = map (list_item s) (slice lines i j)
  /\ (forall k l, i <= k -> k < j -> nth_error lines k = Some l ->
                  matches (start_of s) l = true)
  /\ (forall l, nth_error lines j = Some l -> matches (start_of s) l = false).
Proof.
  intros Hn Hm H. apply list_loop_run in H. simpl in H.
  destruct H as (Hj & Hi & _).
  set (rest := skipn i lines) in *.
  set (n := run_len (in_list (start_of s)) rest i) in *.
  assert (Hlen : n <= List.length rest) by apply run_len_le.
  unfold rest in Hlen. rewrite length_skipn in Hlen.
  assert (Hlt : i < List.length lines).
  { apply nth_error_Some. congruence. }
  assert (Hpos : 1 <= n).
  { unfold n, rest. rewrite (skipn_nth _ _ _ Hn). simpl.
    unfold in_list at 1. rewrite Hm. lia. }
  repeat split.
  - lia.
  - lia.
  - unfold slice, list_item. subst j. replace (i + n - i) with n by lia. exact Hi.
  - intros k l Hk1 Hk2 Hl.
    change (in_list (start_of s) (i + (k - i)) l = true).
    apply run_len_inside with (rest := rest); [fold n; lia|].
    unfold rest. rewrite nth_error_skipn.
    replace (i + (k - i)) with k by lia. exact Hl.
  - intros l Hl.
    change (in_list (start_of s) (i + n) l = false).
    apply run_len_stop. fold n. unfold rest. rewrite nth_error_skipn.
    rewrite <- Hj. exact Hl.
Qed.

(** An ordered-list line that is not the head of a table is taken by
    the ordered-list rule. *)
Lemma ordered_rule (lines : list str) (i : nat) (line : str) :
  matches re_ol line = true ->
  table_head line lines i = false ->
  truthy (strip line) = true /\ first_match lines i line = rule_ol.
Proof.
  intros Ho Ht. destruct (re_ol_first line Ho) as (c & Hc & Hd). split.
  - apply truthy_hd. rewrite strip_head, Hc. discriminate.
  - unfold first_match, precedence. simpl find. unfold applies.
    destruct (matches re_heading line) eqn:Eh.
    { apply heading_first_nonblank in Eh. rewrite Hc in Eh.
      inversion Eh; subst. discriminate. }
    destruct (matches re_hr line) eqn:Er.
    { apply hr_first_nonblank in Er. destruct Er as (c' & Hc' & Hr).
      rewrite Hc in Hc'. inversion Hc'; subst.
      apply rule_char_not_digit in Hr. congruence. }
    destruct (is_fence line) eqn:Ef.
    { apply fence_first in Ef. rewrite Hc in Ef. inversion Ef; subst. discriminate. }
    rewrite Ht.
    destruct (matches re_ul line) eqn:Eu.
    { apply list_styles_disjoint in Eu. congruence. }
    rewrite Ho. reflexivity.
Qed.

(** C6, as amended: the lines [i], ..., [j - 1] of a list block all pass
    the loop test of one style, the line after them does not, and no
    line passes the tests of both styles, so a block never mixes the
    styles; an ordered-list line that the cursor reaches (as it does
    after an unordered run) starts a list block of its own unless it is
    the head of a table, the table rule being tried first; and
    ["- a\n- b\n1. c"] gives the two list blocks of the
    specification. *)
Theorem list_block_has_one_style :
  (forall lines i line j b,
      nth_error lines i = Some line ->
      turn lines i line = Ok (j, [b]) ->
      b_kind b = list_ ->
      i < j /\ j <= List.length lines
      /\ exists s,
          b_content b = Items (map (list_item s) (slice lines i j))
          /\ (forall k l, i <= k -> k < j -> nth_error lines k = Some l ->
                          matches (start_of s) l = true)
          /\ (forall l, nth_error lines j = Some l ->
                        matches (start_of s) l = false))
  /\ (forall l, matches re_ul l = true -> matches re_ol l = false)
  /\ (forall lines j l j' bs,
        nth_error lines j = Some l ->
        matches re_ol l = true ->
        table_head l lines j = false ->
        turn lines j l = Ok (j', bs) ->
        exists items,
          bs = [mkBlock list_ (Items (list_item ordered l :: items)) 0])
  /\ parse_md 5 (py "- a\n- b\n1. c")
     = Returns [mkBlock list_ (Items [(0, py "a"); (0, py "b")]) 0;
                mkBlock list_ (Items [(0, py "c")]) 0].
Proof.
  split; [|split; [exact list_styles_disjoint|split; [|reflexivity]]].
  - intros lines i line j b Hn Ht Hk.
    rewrite turn_by_rule in Ht.
    destruct (truthy (strip line)); [|discriminate].
    pose proof (first_match_applies lines i line) as Ha.
    destruct (first_match lines i line); simpl in Ht, Ha.
    + destruct (re_match re_heading line); inversion Ht; subst; discriminate.
    + inversion Ht; subst; discriminate.
    + destruct (code_loop (skipn (i + 1) lines) (i + 1)).
      inversion Ht; subst; discriminate.
    + destruct (table_loop (skipn (i + 2) lines) (i + 2)).
      inversion Ht; subst; discriminate.
    + destruct (list_loop re_ul re_ul_item 3 (skipn i lines) i)
        as [[items j0]|e] eqn:R; [|discriminate].
      inversion Ht; subst. clear Ht. simpl.
      destruct (list_turn unordered lines i line items j Hn Ha R)
        as (H1 & H2 & H3 & H4 & H5).
      split; [exact H1|]. split; [exact H2|].
      exists unordered. rewrite H3. auto.
    + destruct (list_loop re_ol re_ol_item 2 (skipn i lines) i)
        as [[items j0]|e] eqn:R; [|discriminate].
      inversion Ht; subst. clear Ht. simpl.
      destruct (list_turn ordered lines i line items j Hn Ha R)
        as (H1 & H2 & H3 & H4 & H5).
      split; [exact H1|]. split; [exact H2|].
      exists ordered. rewrite H3. auto.
    + destruct (para_loop lines (skipn i lines) i) as [[|? ?] ?];
        inversion Ht; subst; discriminate.
  - intros lines j l j' bs Hn Ho Htab Ht.
    destruct (ordered_rule lines j l Ho Htab) as [Htr Hr].
    rewrite turn_by_rule, Htr, Hr in Ht. unfold consume in Ht.
    destruct (list_loop re_ol re_ol_item 2 (skipn j lines) j)
      as [[items j0]|e] eqn:R; [|discriminate].
    inversion Ht; subst. clear Ht.
    destruct (list_turn ordered lines j l items j' Hn Ho R)
      as (H1 & H2 & H3 & _).
    rewrite H3. unfold slice. rewrite (skipn_nth _ _ _ Hn).
    destruct (j' - j) as [|d] eqn:E; [lia|]. simpl. eauto.
Qed.

(** C6, as worded, fails: an ordered-list line that follows an
    unordered run does not start a list block when it contains a pipe
    and a separator line comes next; the table rule takes it. *)
Lemma ordered_line_taken_as_table_head :
  matches re_ul (py "- a") = true
  /\ matches re_ol (py "1. c | d") = true
  /\ parse_md 5 (py "- a\n1. c | d\n|-|")
     = Returns [mkBlock list_ (Items [(0, py "a")]) 0;
                mkBlock table (Rows [[py "1. c"; py "d"]]) 0].
Proof.
  repeat split; reflexivity.
Qed.

(** ** Paragraphs *)

(** A non-blank line that one of the rules before the paragraph takes
    is a special line: the paragraph loop stops before it. *)
Lemma construct_start_is_special (lines : list str) (i : nat) (line : str) :
  first_match lines i line <> rule_paragraph ->
  _is_special_line line lines i = true.
Proof.
  unfold first_match, precedence, _is_special_line. simpl find. unfold applies.
  destruct (matches re_heading line) eqn:Eh.
  { intros _. apply matches_some, re_heading_is_start in Eh. rewrite Eh. reflexivity. }
  destruct (matches re_heading_start line); [reflexivity|].
  destruct (matches re_hr line); [reflexivity|].
  unfold is_fence. destruct (startswith (strip line) FENCE); [reflexivity|].
  destruct (table_head line lines i); [reflexivity|].
  destruct (matches re_ul line); [reflexivity|].
  destruct (matches re_ol line); [reflexivity|].
  congruence.
Qed.

Lemma join_spaced (l : list str) : join [" "%char] l = spaced l.
Proof.
  destruct l as [|x l]; [reflexivity|]. revert x.
  induction l as [|y l IH]; intro x.
  - cbn. rewrite app_nil_r. reflexivity.
  - change (join [" "%char] (x :: y :: l))
      with (x ++ [" "%char] ++ join [" "%char] (y :: l)).
    rewrite IH. reflexivity.
Qed.

(** C8, as amended: when no rule before it matches, the paragraph rule
    takes the lines [i], ..., [j - 1]: each of them is non-blank and not
    special, and line [j], if there is one, is blank or special; every
    non-blank line that a heading, a horizontal rule, a fence, a table
    head or a list item of either style would start is special.  The
    lines are trimmed, each of them, and the trimmed lines are joined
    with single spaces into the content of one paragraph block.
    ["line one\n# Heading"] gives the paragraph ["line one"] and then
    the heading, and ["  a \n b\n# H"] the paragraph ["a b"] and then
    the heading. *)
Theorem paragraph_stops_before_constructs :
  (forall lines i line,
      nth_error lines i = Some line ->
      truthy (strip line) = true ->
      first_match lines i line = rule_paragraph ->
      exists j,
        i <= j /\ j <= List.length lines
        /\ (forall k l, i <= k -> k < j -> nth_error lines k = Some l ->
                        truthy (strip l) = true
                        /\ _is_special_line l lines k = false)
        /\ (forall l, nth_error lines j = Some l ->
                      truthy (strip l) = false
                      \/ _is_special_line l lines j = true)
        /\ turn lines i line
           = Ok (j, if i <? j
                    then [mkBlock paragraph
                            (Text (spaced (map strip (slice lines i j)))) 0]
                    else []))
  /\ (forall lines k l,
        first_match lines k l <> rule_paragraph ->
        _is_special_line l lines k = true)
  /\ parse_md 5 (py "line one\n# Heading")
     = Returns [mkBlock paragraph (Text (py "line one")) 0;
                mkBlock heading (Text (py "Heading")) 1]
  /\ parse_md 5 (py "  a \n b\n# H")
     = Returns [mkBlock paragraph (Text (py "a b")) 0;
                mkBlock heading (Text (py "H")) 1].
Proof.
  split; [|split; [exact construct_start_is_special|split; reflexivity]].
  intros lines i line Hn Ht Hr.
  rewrite turn_by_rule, Ht, Hr. unfold consume.
  rewrite para_loop_run.
  set (rest := skipn i lines).
  set (n := run_len (in_para lines) rest i).
  exists (i + n).
  assert (Hlen : n <= List.length rest) by apply run_len_le.
  unfold rest in Hlen. rewrite length_skipn in Hlen.
  assert (Hi : i < List.length lines).
  { apply nth_error_Some. congruence. }
  repeat split.
  - lia.
  - lia.
  - assert (E : in_para lines (i + (k - i)) l = true).
    { apply run_len_inside with (rest := rest); [fold n; lia|].
      unfold rest. rewrite nth_error_skipn.
      replace (i + (k - i)) with k by lia. assumption. }
    unfold in_para in E. apply andb_true_iff in E. apply E.
  - assert (E : in_para lines (i + (k - i)) l = true).
    { apply run_len_inside with (rest := rest); [fold n; lia|].
      unfold rest. rewrite nth_error_skipn.
      replace (i + (k - i)) with k by lia. assumption. }
    unfold in_para in E. apply andb_true_iff in E. destruct E as [_ E].
    apply negb_true_iff in E. replace (i + (k - i)) with k in E by lia. exact E.
  - intros l Hl.
    assert (E : in_para lines (i + n) l = false).
    { apply run_len_stop. fold n. unfold rest. rewrite nth_error_skipn. exact Hl. }
    unfold in_para in E. apply andb_false_iff in E.
    destruct E as [E|E]; [left; exact E|right].
    apply negb_false_iff in E. exact E.
  - unfold slice. replace (i + n - i) with n by lia.
    destruct n as [|n'] eqn:En.
    + simpl. replace (i + 0) with i by lia. rewrite Nat.ltb_irrefl. reflexivity.
    + assert (Hlt : (i <? i + S n') = true) by (apply Nat.ltb_lt; lia).
      rewrite Hlt.
      destruct (map strip (firstn (S n') rest)) as [|p ps] eqn:Em;
        [|unfold rest in Em; rewrite Em, <- (join_spaced (p :: ps));
          reflexivity].
      apply (f_equal (@List.length str)) in Em. rewrite length_map in Em.
      rewrite length_firstn in Em. unfold rest in Em. rewrite length_skipn in Em.
      cbn [List.length] in Em. lia.
Qed.

(** C8, as worded, fails: the two lines ["  a "] and [" b"] make one
    paragraph; joined with single spaces as they are they give
    ["  a   b"], and the content of the block is ["a b"]. *)
Lemma paragraph_as_worded_fails :
  let lines := [py "  a "; py " b"] in
  first_match lines 0 (py "  a ") = rule_paragraph
  /\ turn lines 0 (py "  a ") = Ok (2, [mkBlock paragraph (Text (py "a b")) 0])
  /\ parse_md 5 (py "  a \n b") = Returns [mkBlock paragraph (Text (py "a b")) 0]
  /\ paragraph_as_worded lines 0 2 = py "  a   b"
  /\ paragraph_as_worded lines 0 2 <> py "a b".
Proof.
  intro lines. repeat split; try reflexivity. vm_compute. discriminate.
Qed.

(** ** The inline stripper *)

Section Substitution.

Variables (r : regex) (repl : matched -> str).
Hypothesis inert : forall i t, may_start t = false -> match_at r i t = None.

(** Where no match begins the substitution copies the text. *)
Lemma sub_from_quiet :
  forall s i, quiet s = true -> sub_from r repl i 0 s = s.
Proof.
  intro s. induction s as [|c s IH]; intros i Hq; [reflexivity|].
  cbn [quiet] in Hq. apply andb_true_iff in Hq. destruct Hq as [Hm Hq].
  apply negb_true_iff in Hm.
  cbn [sub_from]. rewrite (inert i _ Hm). f_equal. apply IH. exact Hq.
Qed.

End Substitution.

Ltac dead_start H :=
  match goal with
  | |- context [chr_is ?a ?c] =>
      destruct (chr_is a c) eqn:?E; [|reflexivity];
      apply chr_is_eq in E; subst c; try discriminate H
  end.

Lemma inert_bold : forall i t, may_start t = false -> match_at re_bold i t = None.
Proof.
  intros i [|c t] H; [reflexivity|]. unfold match_at, re_bold, lit. cbn [run].
  dead_start H.
Qed.

Lemma inert_bold_alt :
  forall i t, may_start t = false -> match_at re_bold_alt i t = None.
Proof.
  intros i [|c t] H; [reflexivity|]. unfold match_at, re_bold_alt, lit. cbn [run].
  dead_start H.
Qed.

Lemma inert_italic :
  forall i t, may_start t = false -> match_at re_italic i t = None.
Proof.
  intros i [|c t] H; [reflexivity|]. unfold match_at, re_italic, lit. cbn [run].
  dead_start H.
Qed.

Lemma inert_italic_alt :
  forall i t, may_start t = false -> match_at re_italic_alt i t = None.
Proof.
  intros i [|c t] H; [reflexivity|]. unfold match_at, re_italic_alt, lit. cbn [run].
  dead_start H.
Qed.

Lemma inert_code : forall i t, may_start t = false -> match_at re_code i t = None.
Proof.
  intros i [|c t] H; [reflexivity|]. unfold match_at, re_code, lit. cbn [run].
  dead_start H.
Qed.

Lemma inert_link : forall i t, may_start t = false -> match_at re_link i t = None.
Proof.
  intros i [|c t] H; [reflexivity|]. unfold match_at, re_link, lit. cbn [run].
  dead_start H.
Qed.

Lemma inert_br : forall i t, may_start t = false -> match_at re_br i t = None.
Proof.
  intros i [|c t] H; [reflexivity|]. unfold match_at, re_br, lit. cbn [run].
  destruct (chr_is "<"%char c) eqn:E; [|reflexivity].
  simpl in H. rewrite E in H.
  destruct t as [|d t]; [reflexivity|].
  apply orb_false_iff in H. destruct H as [H _]. rewrite H. reflexivity.
Qed.

Lemma inert_anchor :
  forall i t, may_start t = false -> match_at re_anchor i t = None.
Proof.
  intros i [|c t] H; [reflexivity|]. unfold match_at, re_anchor, lit. cbn [run].
  destruct (chr_is "<"%char c) eqn:E; [|reflexivity].
  simpl in H. rewrite E in H.
  destruct t as [|d t]; [reflexivity|].
  apply orb_false_iff in H. destruct H as [_ H].
  destruct (nocase "a"%char "A"%char d); [|reflexivity].
  simpl in H. destruct t as [|e t]; [reflexivity|]. rewrite H. reflexivity.
Qed.

(** [strip_inline_md] returns a text unchanged when no position of it
    can begin a match. *)
Lemma strip_inline_md_quiet (s : str) :
  quiet s = true -> strip_inline_md s = s.
Proof.
  intro Hq. unfold strip_inline_md, re_sub.
  rewrite (sub_from_quiet re_br _ inert_br s 0 Hq).
  rewrite (sub_from_quiet re_bold _ inert_bold s 0 Hq).
  rewrite (sub_from_quiet re_bold_alt _ inert_bold_alt s 0 Hq).
  rewrite (sub_from_quiet re_italic _ inert_italic s 0 Hq).
  rewrite (sub_from_quiet re_italic_alt _ inert_italic_alt s 0 Hq).
  rewrite (sub_from_quiet re_code _ inert_code s 0 Hq).
  rewrite (sub_from_quiet re_link _ inert_link s 0 Hq).
  apply (sub_from_quiet re_anchor _ inert_anchor s 0 Hq).
Qed.

Lemma not_opener_quiet_head (c : ascii) (s : str) :
  opener c = false -> may_start (c :: s) = false.
Proof.
  intro H. simpl. destruct (chr_is "<"%char c) eqn:E; [|exact H].
  unfold opener in H. rewrite E in H. rewrite !orb_true_r in H. discriminate.
Qed.

Lemma plain_quiet_app (t rest : str) :
  plain t = true -> quiet rest = true -> quiet (t ++ rest) = true.
Proof.
  intros Hp Hq. induction t as [|c t IH]; [exact Hq|].
  simpl in Hp. apply andb_true_iff in Hp. destruct Hp as [Hc Hp].
  apply negb_true_iff in Hc.
  change (negb (may_start (c :: t ++ rest)) && quiet (t ++ rest) = true).
  rewrite not_opener_quiet_head by exact Hc. simpl. apply IH. exact Hp.
Qed.

Lemma plain_quiet (s : str) : plain s = true -> quiet s = true.
Proof.
  intro H. rewrite <- (app_nil_r s). apply plain_quiet_app; [exact H|reflexivity].
Qed.

(** C9, as worded, fails: ["<br<br>>"] has no markdown delimiter (no
    star, underscore, backtick, bracket or parenthesis); the first pass
    replaces the inner tag by a newline and leaves ["<br\n>"], which the
    second pass, reading the newline as the blank the tag allows, turns
    into a newline. *)
Lemma strip_inline_md_not_idempotent :
  no_md_delimiter (py "<br<br>>") = true
  /\ strip_inline_md (py "<br<br>>") = py "<br\n>"
  /\ strip_inline_md (strip_inline_md (py "<br<br>>")) = py "\n"
  /\ strip_inline_md (strip_inline_md (py "<br<br>>"))
     <> strip_inline_md (py "<br<br>>").
Proof.
  repeat split; try reflexivity. vm_compute. discriminate.
Qed.

(** C10: a match of the anchor pattern begins with an angle, an [a] in
    either case, and a blank; so the text ["<a>" ++ t ++ "</a>"], where
    [t] has none of the characters star, underscore, backtick, opening
    bracket and opening angle, is returned unchanged. *)
Theorem bare_anchor_is_kept :
  (forall i s m,
      match_at re_anchor i s = Some m ->
      exists c rest,
        s = "<"%char :: c :: rest
        /\ nocase "a"%char "A"%char c = true
        /\ exists e rest', rest = e :: rest' /\ isspace e = true)
  /\ (forall t,
        plain t = true ->
        strip_inline_md (py "<a>" ++ t ++ py "</a>") = py "<a>" ++ t ++ py "</a>").
Proof.
  split.
  - intros i s m H. unfold match_at, re_anchor, lit in H. cbn [run] in H.
    destruct s as [|c0 s]; [discriminate|].
    destruct (chr_is "<"%char c0) eqn:E0; [|discriminate].
    apply chr_is_eq in E0. subst c0.
    destruct s as [|c s]; [discriminate|].
    destruct (nocase "a"%char "A"%char c) eqn:E1; [|discriminate].
    destruct s as [|e s]; [discriminate|].
    destruct (isspace e) eqn:E2; [|discriminate].
    exists c, (e :: s). repeat split; try assumption.
    exists e, s. split; [reflexivity|assumption].
  - intros t Hp. apply strip_inline_md_quiet.
    change (quiet ("<"%char :: "a"%char :: ">"%char :: t ++ py "</a>") = true).
    assert (Hq : quiet (t ++ py "</a>") = true).
    { apply plain_quiet_app; [exact Hp|reflexivity]. }
    cbn [quiet]. rewrite Hq.
    assert (H3 : may_start (">"%char :: t ++ py "</a>") = false) by reflexivity.
    assert (H2 : may_start ("a"%char :: ">"%char :: t ++ py "</a>") = false)
      by reflexivity.
    assert (H1 : may_start ("<"%char :: "a"%char :: ">"%char :: t ++ py "</a>")
                 = false) by reflexivity.
    rewrite H1, H2, H3. reflexivity.
Qed.

(** ** Progress of the cursor, and termination *)

Lemma well_marked_inv (l : str) :
  well_marked l = true ->
  (matches re_heading_start l = true -> matches re_heading l = true)
  /\ (matches re_ul l = true -> re_match re_ul_item l <> None)
  /\ (matches re_ol l = true -> re_match re_ol_item l <> None).
Proof.
  unfold well_marked. intro H.
  apply andb_true_iff in H. destruct H as [H H3].
  apply andb_true_iff in H. destruct H as [H1 H2].
  repeat split; intro E; rewrite E in *; simpl in *;
    try assumption; apply matches_some; assumption.
Qed.

(** A list loop does not raise when every line that passes its test has
    an item. *)
Lemma list_loop_ok (start item : regex) (txt : nat) (rest : list str) :
  (forall l, In l rest -> matches start l = true -> re_match item l <> None) ->
  forall i, exists items j, list_loop start item txt rest i = Ok (items, j).
Proof.
  induction rest as [|l rest IH]; intros H i; simpl.
  - eauto.
  - destruct (matches start l) eqn:E; [|eauto].
    destruct (re_match item l) as [m|] eqn:Em.
    + destruct (IH (fun l' Hl => H l' (or_intror Hl)) (S i)) as (items & j & R).
      rewrite R. eauto.
    + exfalso. apply (H l (or_introl eq_refl) E). exact Em.
Qed.

Lemma In_skipn (A : Type) (n : nat) (l : list A) (x : A) :
  In x (skipn n l) -> In x l.
Proof.
  intro H. rewrite <- (firstn_skipn n l). apply in_or_app. right. exact H.
Qed.

(** When the paragraph rule is the first to match, only the heading
    test can make the line special. *)
Lemma special_at_paragraph (lines : list str) (i : nat) (line : str) :
  first_match lines i line = rule_paragraph ->
  _is_special_line line lines i = matches re_heading_start line.
Proof.
  unfold first_match, precedence, _is_special_line. simpl find. unfold applies.
  destruct (matches re_heading line); [discriminate|].
  destruct (matches re_heading_start line); [reflexivity|].
  destruct (matches re_hr line); [discriminate|].
  unfold is_fence. destruct (startswith (strip line) FENCE); [discriminate|].
  destruct (table_head line lines i); [discriminate|].
  destruct (matches re_ul line); [discriminate|].
  destruct (matches re_ol line); [discriminate|reflexivity].
Qed.

Lemma first_match_paragraph_no_heading (lines : list str) (i : nat) (line : str) :
  first_match lines i line = rule_paragraph -> matches re_heading line = false.
Proof.
  unfold first_match, precedence. simpl find. unfold applies.
  destruct (matches re_heading line); [discriminate|reflexivity].
Qed.

(** On well-marked lines a turn returns and moves the cursor forward. *)
Lemma turn_advances (lines : list str) (i : nat) (line : str) :
  forallb well_marked lines = true ->
  nth_error lines i = Some line ->
  exists j bs, turn lines i line = Ok (j, bs) /\ i < j.
Proof.
  intros Hw Hn. rewrite forallb_forall in Hw.
  rewrite turn_by_rule.
  destruct (truthy (strip line)) eqn:Ht; [|exists (i + 1), []; split; [reflexivity|lia]].
  pose proof (first_match_applies lines i line) as Ha.
  destruct (first_match lines i line) eqn:Hr; simpl in Ha; unfold consume.
  - eexists _, _. split; [reflexivity|lia].
  - eexists _, _. split; [reflexivity|lia].
  - rewrite code_loop_run. eexists _, _. split; [reflexivity|lia].
  - rewrite table_loop_run. eexists _, _. split; [reflexivity|lia].
  - destruct (list_loop_ok re_ul re_ul_item 3 (skipn i lines)) with (i := i)
      as (items & j & R).
    { intros l Hl Hm. apply (well_marked_inv l (Hw l (In_skipn _ _ _ _ Hl))), Hm. }
    rewrite R. exists j. eexists. split; [reflexivity|].
    apply (list_turn unordered lines i line items j Hn Ha R).
  - destruct (list_loop_ok re_ol re_ol_item 2 (skipn i lines)) with (i := i)
      as (items & j & R).
    { intros l Hl Hm. apply (well_marked_inv l (Hw l (In_skipn _ _ _ _ Hl))), Hm. }
    rewrite R. exists j. eexists. split; [reflexivity|].
    apply (list_turn ordered lines i line items j Hn Ha R).
  - rewrite para_loop_run. eexists _, _. split; [reflexivity|].
    rewrite (skipn_nth _ _ _ Hn). simpl. unfold in_para at 1.
    rewrite Ht, (special_at_paragraph _ _ _ Hr).
    destruct (matches re_heading_start line) eqn:Es.
    + apply (well_marked_inv line (Hw line (nth_error_In _ _ Hn))) in Es.
      rewrite (first_match_paragraph_no_heading _ _ _ Hr) in Es. discriminate.
    + simpl. lia.
Qed.

Lemma parse_loop_returns (lines : list str) :
  forallb well_marked lines = true ->
  forall fuel i blocks,
    List.length lines - i < fuel ->
    exists r, parse_loop fuel lines i blocks = Returns r.
Proof.
  intros Hw fuel. induction fuel as [|f IH]; intros i blocks Hf; [lia|].
  simpl. destruct (nth_error lines i) as [line|] eqn:Hn; [|eauto].
  destruct (turn_advances lines i line Hw Hn) as (j & bs & Ht & Hj).
  rewrite Ht. apply IH.
  assert (i < List.length lines) by (apply nth_error_Some; congruence). lia.
Qed.

(** With fuel beyond the number of lines the loop returns, and the
    result is the same for every such fuel. *)
Lemma parse_loop_returns_stable (lines : list str) :
  forallb well_marked lines = true ->
  exists blocks,
    forall fuel, List.length lines < fuel ->
                 parse_loop fuel lines 0 [] = Returns blocks.
Proof.
  intro Hw.
  destruct (parse_loop_returns lines Hw (S (List.length lines)) 0 [])
    as [r Hr]; [lia|].
  exists r. intros fuel Hf. rewrite <- Hr.
  apply parse_loop_fuel_mono; [lia|]. rewrite Hr. discriminate.
Qed.

(** X1: [parse_md] returns on every text whose lines are well marked (on
    each line the heading test of [_is_special_line] agrees with the
    heading rule, and the loop test of each list style with its item
    pattern): one turn per line at most, so fuel beyond the number of
    lines is enough, and the result does not depend on it. *)
Theorem parse_md_returns_on_well_marked (text : str) :
  forallb well_marked (split LF text) = true ->
  exists blocks,
    forall fuel, List.length (split LF text) < fuel ->
                 parse_md fuel text = Returns blocks.
Proof.
  intro Hw. unfold parse_md.
  destruct (parse_loop_returns_stable (split LF text) Hw) as [blocks Hb].
  exists blocks. intros fuel Hf. apply Hb. exact Hf.
Qed.

(** X4: the cursor never moves backwards and never passes the end of the
    line array by more than one (the closing fence that is not there). *)
Theorem turn_monotone (lines : list str) (i : nat) (line : str) (j : nat)
    (bs : list MDBlock) :
  nth_error lines i = Some line ->
  turn lines i line = Ok (j, bs) ->
  i <= j /\ j <= List.length lines + 1.
Proof.
  intros Hn Ht.
  assert (Hi : i < List.length lines) by (apply nth_error_Some; congruence).
  rewrite turn_by_rule in Ht.
  destruct (truthy (strip line)); [|inversion Ht; lia].
  pose proof (first_match_applies lines i line) as Ha.
  destruct (first_match lines i line); simpl in Ha; unfold consume in Ht.
  - inversion Ht; lia.
  - inversion Ht; lia.
  - rewrite code_loop_run in Ht. inversion Ht.
    pose proof (run_len_le in_code (skipn (i + 1) lines) (i + 1)) as Hl.
    rewrite length_skipn in Hl. lia.
  - rewrite table_loop_run in Ht. inversion Ht.
    pose proof (run_len_le in_table (skipn (i + 2) lines) (i + 2)) as Hl.
    rewrite length_skipn in Hl.
    apply table_head_spec in Ha. destruct Ha as (_ & next & Hx & _).
    assert (i + 1 < List.length lines) by (apply nth_error_Some; congruence).
    lia.
  - destruct (list_loop re_ul re_ul_item 3 (skipn i lines) i)
      as [[items j0]|e] eqn:R; [|discriminate].
    inversion Ht; subst.
    destruct (list_turn unordered lines i line items j Hn Ha R) as (? & ? & _). lia.
  - destruct (list_loop re_ol re_ol_item 2 (skipn i lines) i)
      as [[items j0]|e] eqn:R; [|discriminate].
    inversion Ht; subst.
    destruct (list_turn ordered lines i line items j Hn Ha R) as (? & ? & _). lia.
  - rewrite para_loop_run in Ht. inversion Ht.
    pose proof (run_len_le (in_para lines) (skipn i lines) i) as Hl.
    rewrite length_skipn in Hl. lia.
Qed.

(** X3: the turns that leave the cursor where it is: the line is not blank,
    no rule before the paragraph matches it, and the heading test of
    [_is_special_line] does.  From there on the loop never ends. *)
Theorem turn_stalls_iff (lines : list str) (i : nat) (line : str) :
  nth_error lines i = Some line ->
  ((exists bs, turn lines i line = Ok (i, bs))
   <-> truthy (strip line) = true
       /\ first_match lines i line = rule_paragraph
       /\ matches re_heading_start line = true)
  /\ ((exists bs, turn lines i line = Ok (i, bs)) ->
      forall fuel blocks, parse_loop fuel lines i blocks = OutOfFuel).
Proof.
  intro Hn.
  assert (Hiff : (exists bs, turn lines i line = Ok (i, bs))
                 <-> truthy (strip line) = true
                     /\ first_match lines i line = rule_paragraph
                     /\ matches re_heading_start line = true).
  { split.
    - intros [bs Ht]. rewrite turn_by_rule in Ht.
      destruct (truthy (strip line)) eqn:Etr; [|inversion Ht; lia].
      split; [reflexivity|].
      pose proof (first_match_applies lines i line) as Ha.
      destruct (first_match lines i line) eqn:Hr; simpl in Ha; unfold consume in Ht.
      + inversion Ht; lia.
      + inversion Ht; lia.
      + rewrite code_loop_run in Ht. inversion Ht; lia.
      + rewrite table_loop_run in Ht. inversion Ht; lia.
      + destruct (list_loop re_ul re_ul_item 3 (skipn i lines) i)
          as [[items j0]|e] eqn:R; [|discriminate].
        inversion Ht; subst.
        destruct (list_turn unordered lines i line items i Hn Ha R) as (? & _). lia.
      + destruct (list_loop re_ol re_ol_item 2 (skipn i lines) i)
          as [[items j0]|e] eqn:R; [|discriminate].
        inversion Ht; subst.
        destruct (list_turn ordered lines i line items i Hn Ha R) as (? & _). lia.
      + split; [reflexivity|].
        rewrite para_loop_run, (skipn_nth _ _ _ Hn) in Ht. simpl in Ht.
        unfold in_para at 1 3 in Ht.
        rewrite Etr, (special_at_paragraph _ _ _ Hr) in Ht.
        destruct (matches re_heading_start line); [reflexivity|].
        simpl in Ht. inversion Ht; lia.
    - intros (Etr & Hr & Hs). rewrite turn_by_rule, Etr, Hr. unfold consume.
      rewrite para_loop_run, (skipn_nth _ _ _ Hn). simpl.
      unfold in_para at 1 3. rewrite Etr, (special_at_paragraph _ _ _ Hr), Hs.
      simpl. rewrite Nat.add_0_r. eauto. }
  split; [exact Hiff|].
  intros Hst fuel blocks. apply parse_loop_stall with (line := line); [exact Hn|].
  apply Hiff in Hst. destruct Hst as (Etr & Hr & Hs).
  rewrite turn_by_rule, Etr, Hr. unfold consume.
  rewrite para_loop_run, (skipn_nth _ _ _ Hn). simpl.
  unfold in_para at 1 3. rewrite Etr, (special_at_paragraph _ _ _ Hr), Hs.
  simpl. rewrite Nat.add_0_r. reflexivity.
Qed.

(** ** The lines that are not well marked *)

Lemma split_no_sep (a : ascii) (s : str) :
  forall l, In l (split a s) -> ~ In a l.
Proof.
  induction s as [|c s IH]; intros l Hl; simpl in Hl.
  - destruct Hl as [<-|[]]. intros [].
  - destruct (Ascii.eqb c a) eqn:E.
    + destruct Hl as [<-|Hl]; [intros []|apply IH; exact Hl].
    + destruct (split a s) as [|w ws] eqn:Es.
      * destruct Hl as [<-|[]]. intros [H|[]].
        subst. rewrite Ascii.eqb_refl in E. discriminate.
      * destruct Hl as [<-|Hl].
        -- intros [H|H].
           ++ subst. rewrite Ascii.eqb_refl in E. discriminate.
           ++ apply (IH w); [left; reflexivity|exact H].
        -- apply IH. right. exact Hl.
Qed.

Lemma forallb_dot (t : str) : ~ In LF t -> forallb dot t = true.
Proof.
  intro H. apply forallb_forall. intros c Hc. unfold dot.
  apply negb_true_iff. apply Ascii.eqb_neq. intro E. subst. exact (H Hc).
Qed.

(** After a marker, a blank and at least one more character (none a
    newline) are a blank run and a text that reaches the end of the
    line. *)
Lemma body_spans (k i : nat) (t : str) (b : nat) :
  ~ In LF t -> 1 <= b -> b <= List.length t ->
  forallb isspace (firstn b t) = true ->
  2 <= List.length t ->
  spans (Cat (plus isspace) (Cat (Grp k (plus dot)) Eol)) i t (List.length t).
Proof.
  intros Hlf Hb Hbl Hsp Hlen.
  destruct t as [|w t]; [simpl in Hlen; lia|].
  destruct b as [|b]; [lia|]. simpl in Hsp.
  apply andb_true_iff in Hsp. destruct Hsp as [Hw _].
  simpl. exists 1, (List.length t). split; [reflexivity|]. split.
  - simpl. rewrite Hw. repeat split; simpl; lia.
  - exists (List.length t), 0. split; [lia|]. simpl. split.
    + repeat split.
      * simpl in Hlen. lia.
      * lia.
      * rewrite firstn_all. apply forallb_dot. intro H. apply Hlf. right. exact H.
    + split; [reflexivity|]. left. apply skipn_all.
Qed.

Lemma forallb_is_repeat (a : ascii) (n : nat) (l : str) :
  n <= List.length l -> forallb (chr_is a) (firstn n l) = true ->
  firstn n l = repeat a n.
Proof.
  revert l. induction n as [|n IH]; intros l Hl H; [reflexivity|].
  destruct l as [|c l]; [simpl in Hl; lia|]. simpl in *.
  apply andb_true_iff in H. destruct H as [Hc H].
  apply chr_is_eq in Hc. subst c. f_equal. apply IH; [lia|exact H].
Qed.

Lemma one_left (t : str) (b : nat) :
  1 <= b -> b <= List.length t -> forallb isspace (firstn b t) = true ->
  ~ 2 <= List.length t ->
  exists w, t = [w] /\ isspace w = true.
Proof.
  intros Hb Hl Hs Hn. destruct t as [|w [|w' t]]; simpl in *; try lia.
  destruct b as [|b]; [lia|]. simpl in Hs.
  apply andb_true_iff in Hs. destruct Hs as [Hs _].
  exists w. split; [reflexivity|exact Hs].
Qed.

Lemma not_in_skipn (n : nat) (l : str) : ~ In LF l -> ~ In LF (skipn n l).
Proof. intros H Hs. apply H. exact (In_skipn _ _ _ _ Hs). Qed.

(** A line the heading test of [_is_special_line] takes and the heading
    rule does not is one to six hashes and one blank. *)
Lemma heading_lone_blank (l : str) :
  ~ In LF l ->
  matches re_heading_start l = true -> matches re_heading l = false ->
  lone_blank l.
Proof.
  intros Hlf Hs Hh. apply matches_spec in Hs. destruct Hs as [n S].
  unfold re_heading_start in S. simpl in S.
  destruct S as (n0 & n1 & _ & [_ ->] & a & b & _ & (Ha1 & Ha2 & Ha3 & Ha4)
                 & (Hb1 & _ & Hb2 & Hb3)).
  simpl in *.
  destruct (le_lt_dec 2 (List.length (skipn a l))) as [Hlen|Hlen].
  - exfalso. assert (E : matches re_heading l = true); [|congruence].
    apply matches_spec. exists (0 + (a + List.length (skipn a l))).
    unfold re_heading. cbn [spans].
    exists 0, (a + List.length (skipn a l)). split; [reflexivity|].
    split; [auto|]. exists a, (List.length (skipn a l)).
    split; [reflexivity|]. split; [simpl; auto|].
    apply (body_spans 2 (0 + 0 + a) (skipn a l) b); try assumption.
    apply not_in_skipn. exact Hlf.
  - destruct (one_left (skipn a l) b Hb1 Hb2 Hb3 ltac:(lia)) as (w & Hw & Hsp).
    exists (repeat HASH a), w. split; [|split; [exact Hsp|]].
    + left. exists a. auto.
    + rewrite <- (forallb_is_repeat HASH a l Ha3 Ha4), <- Hw.
      symmetry. apply firstn_skipn.
Qed.

(** A line the loop test of the unordered list takes and its item
    pattern does not is blanks, a bullet and one blank. *)
Lemma ul_lone_blank (l : str) :
  ~ In LF l ->
  matches re_ul l = true -> matches re_ul_item l = false ->
  lone_blank l.
Proof.
  intros Hlf Hs Hh. apply matches_spec in Hs. destruct Hs as [n S].
  unfold re_ul in S. cbn [spans] in S.
  destruct S as (n0 & n1 & _ & [_ ->] & a & n2 & _ & (_ & _ & Ha3 & Ha4)
                 & n3 & b & _ & (-> & c & rest & Hc & Hbul)
                 & (Hb1 & _ & Hb2 & Hb3)).
  cbn [skipn Nat.add] in *. rewrite Hc in Hb2, Hb3. cbn [skipn] in Hb2, Hb3.
  assert (Hl : l = firstn a l ++ c :: rest).
  { rewrite <- Hc. symmetry. apply firstn_skipn. }
  assert (Hlr : ~ In LF rest).
  { intro H. apply Hlf. rewrite Hl. apply in_or_app. right. right. exact H. }
  destruct (le_lt_dec 2 (List.length rest)) as [Hlen|Hlen].
  - exfalso. assert (E : matches re_ul_item l = true); [|congruence].
    apply matches_spec. exists (0 + (a + (1 + List.length rest))).
    unfold re_ul_item. cbn [spans].
    exists 0, (a + (1 + List.length rest)). split; [reflexivity|].
    split; [auto|]. exists a, (1 + List.length rest).
    split; [reflexivity|]. cbn [skipn Nat.add].
    split; [repeat split; try assumption; lia|].
    exists 1, (List.length rest). split; [reflexivity|].
    split; [split; [reflexivity|]; exists c, rest; auto|].
    rewrite Hc. cbn [skipn].
    apply (body_spans 3 (a + 1) rest b); assumption.
  - destruct (one_left rest b Hb1 Hb2 Hb3 ltac:(lia)) as (w & Hw & Hsp).
    exists (firstn a l ++ [c]), w. split; [|split; [exact Hsp|]].
    + right. left. exists (firstn a l), c. auto.
    + rewrite <- app_assoc. simpl. rewrite <- Hw. exact Hl.
Qed.

(** A line the loop test of the ordered list takes and its item pattern
    does not is blanks, digits, a dot and one blank. *)
Lemma ol_lone_blank (l : str) :
  ~ In LF l ->
  matches re_ol l = true -> matches re_ol_item l = false ->
  lone_blank l.
Proof.
  intros Hlf Hs Hh. apply matches_spec in Hs. destruct Hs as [n S].
  unfold re_ol in S. cbn [spans] in S.
  destruct S as (n0 & n1 & _ & [_ ->] & a & n2 & _ & (_ & _ & Ha3 & Ha4)
                 & d & n3 & _ & (Hd1 & _ & Hd2 & Hd3)
                 & n4 & b & _ & (-> & c & rest & Hc & Hdot)
                 & (Hb1 & _ & Hb2 & Hb3)).
  cbn [skipn Nat.add] in *. rewrite Hc in Hb2, Hb3. cbn [skipn] in Hb2, Hb3.
  apply chr_is_eq in Hdot. subst c.
  assert (Hl : l = firstn a l ++ firstn d (skipn a l) ++ "."%char :: rest).
  { rewrite <- Hc, firstn_skipn, firstn_skipn. reflexivity. }
  assert (Hlr : ~ In LF rest).
  { intro H. apply Hlf. rewrite Hl. apply in_or_app. right.
    apply in_or_app. right. right. exact H. }
  destruct (le_lt_dec 2 (List.length rest)) as [Hlen|Hlen].
  - exfalso. assert (E : matches re_ol_item l = true); [|congruence].
    apply matches_spec. exists (0 + (a + (d + (1 + List.length rest)))).
    unfold re_ol_item. cbn [spans].
    exists 0, (a + (d + (1 + List.length rest))). split; [reflexivity|].
    split; [auto|]. exists a, (d + (1 + List.length rest)).
    split; [reflexivity|]. cbn [skipn Nat.add].
    split; [repeat split; try assumption; lia|].
    exists d, (1 + List.length rest). split; [reflexivity|].
    split; [repeat split; try assumption; lia|].
    exists 1, (List.length rest). split; [reflexivity|].
    split; [split; [reflexivity|]; exists "."%char, rest; auto|].
    rewrite Hc. cbn [skipn].
    apply (body_spans 2 (a + d + 1) rest b); assumption.
  - destruct (one_left rest b Hb1 Hb2 Hb3 ltac:(lia)) as (w & Hw & Hsp).
    exists (firstn a l ++ firstn d (skipn a l) ++ ["."%char]), w.
    split; [|split; [exact Hsp|]].
    + right. right. exists (firstn a l), (firstn d (skipn a l)).
      repeat split; try assumption.
      destruct d; [lia|]. destruct (skipn a l); [simpl in Hd2; lia|].
      simpl. discriminate.
    + rewrite <- !app_assoc. simpl. rewrite <- Hw. exact Hl.
Qed.

(** A line without a newline that is not well marked is a marker
    followed by one blank and nothing else. *)
Lemma not_well_marked_shape (l : str) :
  ~ In LF l -> well_marked l = false -> lone_blank l.
Proof.
  intros Hlf H. unfold well_marked in H.
  apply andb_false_iff in H. destruct H as [H|H].
  - apply andb_false_iff in H. destruct H as [H|H].
    + destruct (matches re_heading_start l) eqn:E1; [|discriminate].
      destruct (matches re_heading l) eqn:E2; [discriminate|].
      apply heading_lone_blank; assumption.
    + destruct (matches re_ul l) eqn:E1; [|discriminate].
      destruct (matches re_ul_item l) eqn:E2; [discriminate|].
      apply ul_lone_blank; assumption.
  - destruct (matches re_ol l) eqn:E1; [|discriminate].
    destruct (matches re_ol_item l) eqn:E2; [discriminate|].
    apply ol_lone_blank; assumption.
Qed.

(** X2: [parse_md] returns on every text none of whose lines is a marker
    (hashes, or blanks and a bullet, or blanks, digits and a dot)
    followed by exactly one blank. *)
Theorem parse_md_returns_without_lone_blanks (text : str) :
  (forall l, In l (split LF text) -> ~ lone_blank l) ->
  exists blocks,
    forall fuel, List.length (split LF text) < fuel ->
                 parse_md fuel text = Returns blocks.
Proof.
  intro H. unfold parse_md. apply parse_loop_returns_stable.
  apply forallb_forall. intros l Hl.
  destruct (well_marked l) eqn:E; [reflexivity|].
  exfalso. apply (H l Hl).
  apply not_well_marked_shape; [|exact E].
  apply (split_no_sep LF text). exact Hl.
Qed.

(** ** Headings *)

(** The groups of a heading match: the hashes, and the text after the
    blanks that follow them. *)
Lemma re_heading_groups (l : str) (m : matched) :
  re_match re_heading l = Some m ->
  exists a b c,
    1 <= a /\ a <= 6 /\ 1 <= b /\ 1 <= c
    /\ group 1 m = repeat HASH a
    /\ forallb isspace (firstn b (skipn a l)) = true
    /\ group 2 m = firstn c (skipn b (skipn a l))
    /\ l = repeat HASH a ++ firstn b (skipn a l) ++ group 2 m
           ++ skipn c (skipn b (skipn a l))
    /\ (skipn c (skipn b (skipn a l)) = []
        \/ skipn c (skipn b (skipn a l)) = [LF]).
Proof.
  unfold re_match, match_at, re_heading, between, plus. cbn [run]. simpl Nat.eqb.
  cbv iota. intro H.
  apply rep_sound in H. destruct H as (a & Ha1 & Ha2 & Ha3 & Ha4 & H).
  apply rep_sound in H. destruct H as (b & Hb1 & _ & Hb2 & Hb3 & H).
  apply rep_sound in H. destruct H as (c & Hc1 & _ & Hc2 & Hc3 & H).
  simpl in Ha2.
  assert (Hg1 : firstn (0 + a - 0) l = repeat HASH a).
  { replace (0 + a - 0) with a by lia. apply forallb_is_repeat; assumption. }
  assert (Hg2 : firstn (0 + a + b + c - (0 + a + b)) (skipn b (skipn a l))
                = firstn c (skipn b (skipn a l))).
  { f_equal. lia. }
  assert (Hm : m = (0 + a + b + c,
                    [(2, firstn c (skipn b (skipn a l))); (1, repeat HASH a)])
               /\ (skipn c (skipn b (skipn a l)) = []
                   \/ skipn c (skipn b (skipn a l)) = [LF])).
  { rewrite Hg1, Hg2 in H.
    destruct (skipn c (skipn b (skipn a l))) as [|x [|y t]] eqn:E.
    - inversion H. auto.
    - destruct (Ascii.eqb x LF) eqn:Ex; [|discriminate].
      apply Ascii.eqb_eq in Ex. subst x. inversion H. auto.
    - discriminate. }
  destruct Hm as [-> Hend].
  exists a, b, c. unfold group. simpl.
  repeat split; try assumption.
  rewrite <- (forallb_is_repeat HASH a l Ha3 Ha4).
  rewrite !firstn_skipn. reflexivity.
Qed.


(** ** Raising turns *)

(** X6: a turn raises exactly when a list rule is applied and a line of
    its run passes the loop test without having an item. *)
Theorem turn_raises_iff (lines : list str) (i : nat) (line : str) :
  (exists e, turn lines i line = Error e)
  <-> truthy (strip line) = true
      /\ exists s,
          first_match lines i line
          = match s with unordered => rule_ul | ordered => rule_ol end
          /\ Exists (fun l => re_match (item_pattern s) l = None)
                    (firstn (run_len (in_list (start_of s)) (skipn i lines) i)
                            (skipn i lines)).
Proof.
  rewrite turn_by_rule. split.
  - intros [e H]. destruct (truthy (strip line)); [|discriminate].
    split; [reflexivity|].
    destruct (first_match lines i line); simpl in H; try discriminate.
    + destruct (code_loop (skipn (i + 1) lines) (i + 1)). discriminate.
    + destruct (table_loop (skipn (i + 2) lines) (i + 2)). discriminate.
    + exists unordered. split; [reflexivity|].
      apply (list_loop_raises re_ul re_ul_item 3).
      destruct (list_loop re_ul re_ul_item 3 (skipn i lines) i) as [[? ?]|e'];
        [discriminate|eauto].
    + exists ordered. split; [reflexivity|].
      apply (list_loop_raises re_ol re_ol_item 2).
      destruct (list_loop re_ol re_ol_item 2 (skipn i lines) i) as [[? ?]|e'];
        [discriminate|eauto].
    + destruct (para_loop lines (skipn i lines) i). discriminate.
  - intros (-> & s & -> & Hex).
    destruct s; simpl in *.
    + apply (list_loop_raises re_ul re_ul_item 3) in Hex. destruct Hex as [e He].
      rewrite He. eauto.
    + apply (list_loop_raises re_ol re_ol_item 2) in Hex. destruct Hex as [e He].
      rewrite He. eauto.
Qed.

(** ** The examples of the specification *)

(** The inline example, the empty text, an unterminated fence, a table
    with rows of uneven width, a list of mixed indentation, and line
    breaks in either case. *)
Theorem specification_examples :
  strip_inline_md (py "**bold** and `code` and [text](url)")
  = py "bold and code and text"
  /\ parse_md 2 (py "") = Returns []
  /\ parse_md 5 (py "```\nx = 1\n\n# not a heading")
     = Returns [mkBlock code (Text (py "x = 1\n\n# not a heading")) 0]
  /\ parse_md 5 (py "a|b\n-|-\n1|2|3\n4")
     = Returns [mkBlock table
                  (Rows [[py "a"; py "b"]; [py "1"; py "2"; py "3"]]) 0;
                mkBlock paragraph (Text (py "4")) 0]
  /\ parse_md 5 (py "- a\n  - b\n- c")
     = Returns [mkBlock list_
                  (Items [(0, py "a"); (2, py "b"); (0, py "c")]) 0]
  /\ strip_inline_md (py "a<br>b<BR />c<Br/>d") = py "a\nb\nc\nd"
  /\ strip_inline_md (py "<A href=x>home</a>") = py "home".
Proof.
  repeat split; reflexivity.
Qed.

(** ** Coverage *)

(** What a returning turn does: it skips a blank line, or stays where
    it is and emits nothing, or emits one block and moves forward. *)
Lemma turn_cases (lines : list str) (i : nat) (line : str) (j : nat)
    (bs : list MDBlock) :
  nth_error lines i = Some line ->
  turn lines i line = Ok (j, bs) ->
  (truthy (strip line) = false /\ j = i + 1 /\ bs = [])
  \/ (truthy (strip line) = true /\ j = i /\ bs = [])
  \/ (truthy (strip line) = true /\ i < j /\ exists b, bs = [b]).
Proof.
  intros Hn Ht. rewrite turn_by_rule in Ht.
  destruct (truthy (strip line)) eqn:Etr; [|left; inversion Ht; auto].
  right.
  pose proof (first_match_applies lines i line) as Ha.
  destruct (first_match lines i line) eqn:Hr; simpl in Ha; unfold consume in Ht.
  - right. split; [reflexivity|]. unfold matches in Ha.
    destruct (re_match re_heading line); [|discriminate].
    inversion Ht. split; [lia|eauto].
  - right. inversion Ht. split; [reflexivity|]. split; [lia|eauto].
  - right. rewrite code_loop_run in Ht. inversion Ht.
    split; [reflexivity|]. split; [lia|eauto].
  - right. rewrite table_loop_run in Ht. inversion Ht.
    split; [reflexivity|]. split; [lia|eauto].
  - right. destruct (list_loop re_ul re_ul_item 3 (skipn i lines) i)
      as [[items j0]|e] eqn:R; [|discriminate].
    inversion Ht; subst.
    destruct (list_turn unordered lines i line items j Hn Ha R) as (? & _).
    split; [reflexivity|]. split; [assumption|eauto].
  - right. destruct (list_loop re_ol re_ol_item 2 (skipn i lines) i)
      as [[items j0]|e] eqn:R; [|discriminate].
    inversion Ht; subst.
    destruct (list_turn ordered lines i line items j Hn Ha R) as (? & _).
    split; [reflexivity|]. split; [assumption|eauto].
  - rewrite para_loop_run in Ht.
    destruct (run_len (in_para lines) (skipn i lines) i) as [|n] eqn:En.
    + left. simpl in Ht. inversion Ht. split; [reflexivity|]. split; [lia|reflexivity].
    + right. split; [reflexivity|].
      destruct (map strip (firstn (S n) (skipn i lines))) as [|p ps] eqn:Em.
      * exfalso. rewrite (skipn_nth _ _ _ Hn) in Em. discriminate.
      * inversion Ht. split; [lia|eauto].
Qed.

(** X8: when the loop returns, the blocks it appended cover the lines
    from the cursor on: the lines fall into consecutive, disjoint runs,
    each a skipped blank line or the lines of exactly one block. *)
Theorem returned_blocks_cover_lines (lines : list str) :
  forall fuel i acc blocks,
    parse_loop fuel lines i acc = Returns blocks ->
    exists bs, blocks = acc ++ bs /\ covers lines i bs.
Proof.
  intro fuel. induction fuel as [|f IH]; intros i acc blocks H; [discriminate|].
  simpl in H. destruct (nth_error lines i) as [line|] eqn:Hn.
  - destruct (turn lines i line) as [[j bs']|e] eqn:Ht; [|discriminate].
    destruct (turn_cases lines i line j bs' Hn Ht)
      as [(Hb & -> & ->)|[(Htr & -> & ->)|(Htr & Hj & b & ->)]].
    + apply IH in H. destruct H as (bs & -> & Hc).
      exists bs. rewrite app_nil_r. split; [reflexivity|].
      apply covers_blank with (line := line); assumption.
    + rewrite (parse_loop_stall lines i line (acc ++ []) Hn Ht f) in H.
      discriminate.
    + apply IH in H. destruct H as (bs & -> & Hc).
      exists (b :: bs). rewrite <- app_assoc. split; [reflexivity|].
      apply covers_block with (j := j) (line := line); assumption.
  - inversion H; subst. exists []. rewrite app_nil_r. split; [reflexivity|].
    apply covers_end. apply nth_error_None. exact Hn.
Qed.

(** ** The last line of the input *)

Lemma existsb_none (p q : ascii -> bool) (l : str) :
  (forall c, p c = true -> q c = false) ->
  forallb p l = true -> existsb q l = false.
Proof.
  intros Hpq. induction l as [|c l IH]; simpl; [reflexivity|].
  intro H. apply andb_true_iff in H. destruct H as [Hc Hl].
  rewrite (Hpq c Hc), (IH Hl). reflexivity.
Qed.

Lemma space_not_pipe (c : ascii) : isspace c = true -> chr_is PIPE c = false.
Proof.
  intro H. destruct (chr_is PIPE c) eqn:E; [|reflexivity].
  apply chr_is_eq in E. subst. discriminate.
Qed.

Lemma digit_not_pipe (c : ascii) : isdigit c = true -> chr_is PIPE c = false.
Proof.
  intro H. destruct (chr_is PIPE c) eqn:E; [|reflexivity].
  apply chr_is_eq in E. subst. discriminate.
Qed.

Lemma bullet_not_pipe (c : ascii) : bullet c = true -> chr_is PIPE c = false.
Proof.
  intro H. destruct (chr_is PIPE c) eqn:E; [|reflexivity].
  apply chr_is_eq in E. subst. discriminate.
Qed.

Lemma hashes_no_pipe (n : nat) : existsb (chr_is PIPE) (repeat HASH n) = false.
Proof. induction n; simpl; [reflexivity|exact IHn]. Qed.

(** A marker followed by one blank holds no pipe. *)
Lemma lone_blank_no_pipe (l : str) : lone_blank l -> contains PIPE l = false.
Proof.
  intros (m & w & Hm & Hw & ->). unfold contains.
  rewrite existsb_app. simpl. rewrite (space_not_pipe w Hw). simpl.
  rewrite orb_false_r.
  destruct Hm as [(n & _ & _ & ->)|[(ws & b & Hws & Hb & ->)
                                   |(ws & ds & Hws & _ & Hds & ->)]].
  - apply hashes_no_pipe.
  - rewrite existsb_app. simpl.
    rewrite (existsb_none isspace _ ws space_not_pipe Hws).
    rewrite (bullet_not_pipe b Hb). reflexivity.
  - rewrite !existsb_app. simpl.
    rewrite (existsb_none isspace _ ws space_not_pipe Hws).
    rewrite (existsb_none isdigit _ ds digit_not_pipe Hds). reflexivity.
Qed.

(** On a line with a pipe and without a newline the heading test of
    [_is_special_line] and the heading rule agree. *)
Lemma pipe_line_heading (l : str) :
  ~ In LF l -> contains PIPE l = true ->
  matches re_heading_start l = true -> matches re_heading l = true.
Proof.
  intros Hlf Hp Hs. destruct (matches re_heading l) eqn:E; [reflexivity|].
  pose proof (lone_blank_no_pipe l (heading_lone_blank l Hlf Hs E)). congruence.
Qed.

Lemma lstrip_keeps_nonblank (l : str) (c : ascii) :
  In c l -> isspace c = false -> lstrip l <> [].
Proof.
  induction l as [|a l IH]; simpl; intros Hin Hc; [contradiction|].
  destruct (isspace a) eqn:E; [|discriminate].
  destruct Hin as [->|Hin]; [congruence|]. apply IH; assumption.
Qed.

(** A line with a pipe is not blank. *)
Lemma pipe_line_not_blank (l : str) :
  contains PIPE l = true -> truthy (strip l) = true.
Proof.
  intro H. unfold contains in H. apply existsb_exists in H.
  destruct H as (c & Hin & Hc). apply chr_is_eq in Hc. subst c.
  apply truthy_hd. rewrite strip_head.
  pose proof (lstrip_keeps_nonblank l PIPE Hin eq_refl) as Hn.
  destruct (lstrip l); [congruence|discriminate].
Qed.

(** C3, as amended: a turn of the loop emits a table exactly when the
    line is not blank, is neither a heading, a horizontal rule nor a
    fence (the rules tried before), contains a pipe, and a next line
    exists that begins with an optional pipe, one or more characters
    among blanks, dashes, colons and pipes, and a pipe (the rest of that
    line is free).  So a last line with a pipe never starts a table;
    when no other rule takes it either, a paragraph that reaches it
    takes it in, and at the cursor it is a paragraph of its own. *)
Theorem table_recognised_iff (lines : list str) (i : nat) (line : str) :
  ((exists j rows, turn lines i line = Ok (j, [mkBlock table (Rows rows) 0]))
   <-> (truthy (strip line) = true /\ matches re_heading line = false
        /\ matches re_hr line = false /\ is_fence line = false)
       /\ contains PIPE line = true
       /\ exists next, nth_error lines (i + 1) = Some next
                       /\ separator_prefix next)
  /\ (List.length lines = i + 1 ->
      nth_error lines i = Some line ->
      contains PIPE line = true ->
      ~ In LF line ->
      (forall j rows, turn lines i line <> Ok (j, [mkBlock table (Rows rows) 0]))
      /\ (first_match lines i line = rule_paragraph ->
          in_para lines i line = true
          /\ turn lines i line
             = Ok (i + 1, [mkBlock paragraph (Text (strip line)) 0]))).
Proof.
  split.
  - rewrite turn_emits_table, first_match_table, table_head_spec. tauto.
  - intros Hlen Hn Hp Hlf.
    assert (Hnone : nth_error lines (i + 1) = None).
    { apply nth_error_None. lia. }
    split.
    + intros j rows H.
      assert (E : exists j rows,
                 turn lines i line = Ok (j, [mkBlock table (Rows rows) 0])) by eauto.
      apply turn_emits_table in E. destruct E as [_ E].
      apply first_match_table in E. destruct E as (_ & _ & _ & E).
      apply table_head_spec in E. destruct E as (_ & next & E & _). congruence.
    + intro Hf.
      pose proof (pipe_line_not_blank line Hp) as Ht.
      assert (Hsp : _is_special_line line lines i = false).
      { rewrite (special_at_paragraph _ _ _ Hf).
        destruct (matches re_heading_start line) eqn:Es; [|reflexivity].
        apply (pipe_line_heading line Hlf Hp) in Es.
        rewrite (first_match_paragraph_no_heading _ _ _ Hf) in Es. discriminate. }
      assert (Hin : in_para lines i line = true).
      { unfold in_para. rewrite Ht, Hsp. reflexivity. }
      split; [exact Hin|].
      rewrite turn_by_rule, Ht, Hf. unfold consume.
      rewrite para_loop_run, (skipn_nth _ _ _ Hn).
      assert (Hrest : skipn (S i) lines = []).
      { apply skipn_all2. lia. }
      rewrite Hrest. simpl. rewrite Hin. simpl.
      replace (i + 1) with (S i) by lia. reflexivity.
Qed.

(** ** Splitting and joining *)

Lemma split_not_nil (a : ascii) (s : str) : split a s <> [].
Proof.
  destruct s as [|c s]; simpl; [discriminate|].
  destruct (Ascii.eqb c a); [discriminate|].
  destruct (split a s); discriminate.
Qed.

Lemma join_cons (sep x : str) (l : list str) :
  l <> [] -> join sep (x :: l) = x ++ sep ++ join sep l.
Proof. destruct l; [congruence|reflexivity]. Qed.

(** Joining the pieces of a split gives the text back. *)
Lemma join_split (a : ascii) (s : str) : join [a] (split a s) = s.
Proof.
  induction s as [|c s IH]; [reflexivity|]. simpl.
  destruct (Ascii.eqb c a) eqn:E.
  - apply Ascii.eqb_eq in E. subst c.
    rewrite join_cons by apply split_not_nil. simpl. rewrite IH. reflexivity.
  - destruct (split a s) as [|w ws] eqn:Es; [exfalso; exact (split_not_nil a s Es)|].
    destruct ws as [|w' ws].
    + simpl in *. rewrite IH. reflexivity.
    + rewrite join_cons by discriminate. rewrite join_cons in IH by discriminate.
      simpl. rewrite <- IH. reflexivity.
Qed.

Lemma split_no_sep_id (a : ascii) (s : str) : ~ In a s -> split a s = [s].
Proof.
  induction s as [|c s IH]; intro H; [reflexivity|]. simpl.
  destruct (Ascii.eqb c a) eqn:E.
  - apply Ascii.eqb_eq in E. subst. exfalso. apply H. left. reflexivity.
  - rewrite IH; [reflexivity|]. intro Hi. apply H. right. exact Hi.
Qed.

(** Splitting distributes over a separator. *)
Lemma split_app (a : ascii) (u v : str) :
  split a (u ++ a :: v) = split a u ++ split a v.
Proof.
  induction u as [|c u IH]; simpl.
  - rewrite Ascii.eqb_refl. reflexivity.
  - destruct (Ascii.eqb c a); [rewrite IH; reflexivity|].
    rewrite IH. destruct (split a u) as [|w ws] eqn:E;
      [exfalso; exact (split_not_nil a u E)|reflexivity].
Qed.

(** Splitting the join of lines without the separator gives the lines
    back. *)
Lemma split_join (a : ascii) (ls : list str) :
  ls <> [] -> (forall l, In l ls -> ~ In a l) -> split a (join [a] ls) = ls.
Proof.
  induction ls as [|x ls IH]; intros Hne H; [congruence|].
  destruct ls as [|y ls].
  - simpl. apply split_no_sep_id. apply H. left. reflexivity.
  - rewrite join_cons by discriminate. simpl app.
    rewrite split_app, split_no_sep_id by (apply H; left; reflexivity).
    simpl. f_equal. apply IH; [discriminate|].
    intros l Hl. apply H. right. exact Hl.
Qed.

(** ** A fenced block, there and back *)

Lemma code_loop_closed (u : list str) (c : str) (rest : list str) :
  (forall l, In l u -> is_fence l = false) ->
  is_fence c = true ->
  forall i, code_loop (u ++ c :: rest) i = (u, i + List.length u).
Proof.
  intros Hu Hc. induction u as [|l u IH]; intro i; simpl.
  - unfold is_fence in Hc. rewrite Hc. simpl. rewrite Nat.add_0_r. reflexivity.
  - assert (Hl : is_fence l = false) by (apply Hu; left; reflexivity).
    unfold is_fence in Hl. rewrite Hl. simpl.
    rewrite IH by (intros l' Hl'; apply Hu; right; exact Hl').
    f_equal. lia.
Qed.

(** X7: a text made of an opening fence line, a body and a closing fence
    line parses to one code block whose content is the body, character
    for character, whatever the body holds (blank lines, headings,
    tables, lists), provided no line of the body itself starts, once
    trimmed, with three backticks. *)
Theorem fenced_body_is_kept (opening closing body : str) (fuel : nat) :
  is_fence opening = true -> ~ In LF opening ->
  is_fence closing = true -> ~ In LF closing ->
  (forall l, In l (split LF body) -> is_fence l = false) ->
  2 <= fuel ->
  parse_md fuel (opening ++ LF :: body ++ LF :: closing)
  = Returns [mkBlock code (Text body) 0].
Proof.
  intros Ho Hol Hc Hcl Hb Hf. unfold parse_md.
  rewrite split_app, split_app.
  rewrite (split_no_sep_id LF opening Hol), (split_no_sep_id LF closing Hcl).
  destruct fuel as [|[|f]]; try lia.
  cbn [parse_loop]. simpl nth_error.
  destruct (fence_rule ([opening] ++ split LF body ++ [closing]) 0 opening Ho)
    as [Ht Hr].
  rewrite turn_by_rule, Ht, Hr. unfold consume.
  change (skipn (0 + 1) ([opening] ++ split LF body ++ [closing]))
    with (split LF body ++ [closing]).
  rewrite (code_loop_closed (split LF body) closing [] Hb Hc).
  cbv beta iota. rewrite join_split.
  assert (Hn : nth_error ([opening] ++ split LF body ++ [closing])
                         (0 + 1 + List.length (split LF body) + 1) = None).
  { apply nth_error_None. simpl. rewrite length_app. simpl. lia. }
  change ([opening] ++ split LF body ++ [closing])
    with (opening :: split LF body ++ [closing]) in Hn.
  rewrite Hn. reflexivity.
Qed.

(** ** The shape of the blocks *)

Lemma join_not_nil (sep p : str) (ps : list str) :
  p <> [] -> join sep (p :: ps) <> [].
Proof.
  intro Hp. destruct ps as [|q ps]; [exact Hp|].
  rewrite join_cons by discriminate. destruct p; [congruence|discriminate].
Qed.

(** Every block a turn appends is well formed. *)
Lemma turn_well_formed (lines : list str) (i : nat) (line : str) (j : nat)
    (bs : list MDBlock) :
  nth_error lines i = Some line ->
  turn lines i line = Ok (j, bs) ->
  Forall well_formed bs.
Proof.
  intros Hn Ht. rewrite turn_by_rule in Ht.
  destruct (truthy (strip line)) eqn:Etr; [|inversion Ht; constructor].
  pose proof (first_match_applies lines i line) as Ha.
  destruct (first_match lines i line) eqn:Hr; simpl in Ha; unfold consume in Ht.
  - destruct (re_match re_heading line) as [m|] eqn:E;
      [|inversion Ht; constructor].
    inversion Ht; subst. constructor; [|constructor].
    destruct (re_heading_groups line m E)
      as (a & b' & c & Ha1 & Ha2 & _ & _ & Hg1 & _).
    unfold well_formed. simpl. rewrite Hg1, repeat_length. lia.
  - inversion Ht; subst. constructor; [|constructor].
    unfold well_formed. simpl. auto.
  - destruct (code_loop (skipn (i + 1) lines) (i + 1)).
    inversion Ht; subst. constructor; [|constructor]. reflexivity.
  - destruct (table_loop (skipn (i + 2) lines) (i + 2)).
    inversion Ht; subst. constructor; [|constructor].
    unfold well_formed. simpl. split; [discriminate|reflexivity].
  - destruct (list_loop re_ul re_ul_item 3 (skipn i lines) i)
      as [[items j0]|e] eqn:R; [|discriminate].
    inversion Ht; subst. constructor; [|constructor].
    destruct (list_turn unordered lines i line items j Hn Ha R)
      as (H1 & H2 & H3 & _).
    unfold well_formed. simpl. split; [|reflexivity].
    rewrite H3. unfold slice. rewrite (skipn_nth _ _ _ Hn).
    destruct (j - i) eqn:E; [lia|]. simpl. discriminate.
  - destruct (list_loop re_ol re_ol_item 2 (skipn i lines) i)
      as [[items j0]|e] eqn:R; [|discriminate].
    inversion Ht; subst. constructor; [|constructor].
    destruct (list_turn ordered lines i line items j Hn Ha R)
      as (H1 & H2 & H3 & _).
    unfold well_formed. simpl. split; [|reflexivity].
    rewrite H3. unfold slice. rewrite (skipn_nth _ _ _ Hn).
    destruct (j - i) eqn:E; [lia|]. simpl. discriminate.
  - rewrite para_loop_run in Ht.
    destruct (run_len (in_para lines) (skipn i lines) i) as [|n] eqn:En.
    + simpl in Ht. inversion Ht. constructor.
    + destruct (map strip (firstn (S n) (skipn i lines))) as [|p ps] eqn:Em;
        [inversion Ht; constructor|].
      assert (Hp : p <> []).
      { rewrite (skipn_nth _ _ _ Hn) in Em. cbn [firstn map] in Em.
        inversion Em. destruct (strip line); discriminate. }
      inversion Ht; subst. constructor; [|constructor].
      unfold well_formed. cbn [b_kind b_content b_level].
      split; [|reflexivity]. exact (join_not_nil [" "%char] p ps Hp).
Qed.

Lemma parse_loop_well_formed (lines : list str) :
  forall fuel i acc blocks,
    Forall well_formed acc ->
    parse_loop fuel lines i acc = Returns blocks ->
    Forall well_formed blocks.
Proof.
  intro fuel. induction fuel as [|f IH]; intros i acc blocks Hacc H;
    [discriminate|].
  simpl in H. destruct (nth_error lines i) as [line|] eqn:Hn.
  - destruct (turn lines i line) as [[j bs]|e] eqn:Ht; [|discriminate].
    apply IH in H; [exact H|]. apply Forall_app. split; [exact Hacc|].
    exact (turn_well_formed lines i line j bs Hn Ht).
  - inversion H; subst. exact Hacc.
Qed.

(** X9: every block [parse_md] returns is well formed: its content has
    the shape its kind requires (text for a heading, a paragraph, a
    code block and a rule; rows for a table; items for a list), a
    heading has a level from 1 to 6 and every other block level 0, a
    table has at least its head row, a list at least one item, a
    paragraph a non-empty text, and a rule the empty text. *)
Theorem parse_md_blocks_well_formed (fuel : nat) (text : str)
    (blocks : list MDBlock) :
  parse_md fuel text = Returns blocks -> Forall well_formed blocks.
Proof.
  unfold parse_md. apply parse_loop_well_formed. constructor.
Qed.

(** ** Table rows *)

Lemma lstrip_suffix (s : str) : exists w, s = w ++ lstrip s.
Proof.
  induction s as [|c s [w IH]]; [exists []; reflexivity|]. simpl.
  destruct (isspace c).
  - exists (c :: w). simpl. f_equal. exact IH.
  - exists []. reflexivity.
Qed.

Lemma In_lstrip (c : ascii) (s : str) : In c (lstrip s) -> In c s.
Proof.
  intro H. destruct (lstrip_suffix s) as [w Hw]. rewrite Hw.
  apply in_or_app. right. exact H.
Qed.

Lemma In_strip (c : ascii) (s : str) : In c (strip s) -> In c s.
Proof.
  unfold strip, rstrip. intro H. apply In_lstrip.
  apply in_rev in H. apply In_lstrip in H. apply in_rev in H. exact H.
Qed.

Lemma lstrip_idem (s : str) : lstrip (lstrip s) = lstrip s.
Proof.
  destruct (lstrip s) as [|c r] eqn:E; [reflexivity|].
  simpl. rewrite (lstrip_head_not_space _ _ _ E). reflexivity.
Qed.

Lemma lstrip_fixed (c : ascii) (s : str) :
  isspace c = false -> lstrip (c :: s) = c :: s.
Proof. intro H. simpl. rewrite H. reflexivity. Qed.

(** Trimming a trimmed string changes nothing. *)
Lemma strip_idem (s : str) : strip (strip s) = strip s.
Proof.
  unfold strip at 2 3. destruct (lstrip s) as [|c r] eqn:E; [reflexivity|].
  pose proof (lstrip_head_not_space _ _ _ E) as Hc.
  destruct (rstrip_head c r Hc) as [r' Hr]. rewrite Hr.
  unfold strip. rewrite (lstrip_fixed c r' Hc). rewrite <- Hr.
  unfold rstrip. rewrite rev_involutive, lstrip_idem. reflexivity.
Qed.

(** A string that begins and ends with a non-blank character is its
    own trimmed form. *)
Lemma strip_fixed (c d : ascii) (s : str) :
  isspace c = false -> isspace d = false ->
  strip (c :: s ++ [d]) = c :: s ++ [d].
Proof.
  intros Hc Hd. unfold strip. rewrite (lstrip_fixed c _ Hc).
  unfold rstrip. change (c :: s ++ [d]) with ((c :: s) ++ [d]).
  rewrite rev_app_distr.
  change (rev [d] ++ rev (c :: s)) with (d :: rev (c :: s)).
  rewrite (lstrip_fixed d _ Hd).
  change (d :: rev (c :: s)) with ([d] ++ rev (c :: s)).
  rewrite rev_app_distr, rev_involutive. reflexivity.
Qed.

(** X10: [_parse_table_row] never returns the empty list, each of its
    cells is trimmed and holds no pipe, and a row written as its cells
    joined by pipes between an opening and a closing pipe parses back
    to those cells, trimmed -- empty cells and an empty first or last
    cell included. *)
Theorem table_row_cells :
  (forall line,
      _parse_table_row line <> []
      /\ forall c, In c (_parse_table_row line) ->
                   ~ In PIPE c /\ strip c = c)
  /\ (forall cells,
        cells <> [] ->
        (forall c, In c cells -> ~ In PIPE c) ->
        _parse_table_row (PIPE :: join [PIPE] cells ++ [PIPE])
        = map strip cells).
Proof.
  split.
  - intro line. unfold _parse_table_row. split.
    + intro H. apply map_eq_nil in H. exact (split_not_nil _ _ H).
    + intros c Hc. apply in_map_iff in Hc. destruct Hc as (x & <- & Hx).
      split; [|apply strip_idem].
      intro Hp. apply In_strip in Hp. exact (split_no_sep _ _ x Hx Hp).
  - intros cells Hne Hp. unfold _parse_table_row.
    rewrite (strip_fixed PIPE PIPE) by reflexivity.
    cbn [startswith]. rewrite Ascii.eqb_refl. cbn [andb tl].
    rewrite startswith_nil. cbn [tl].
    unfold endswith. rewrite rev_app_distr. cbn [rev app startswith].
    rewrite Ascii.eqb_refl, startswith_nil. cbn [andb].
    rewrite removelast_last, split_join by assumption. reflexivity.
Qed.

(** ** One inline span in plain text *)

(** A lazy repetition stops at the first place where the continuation
    succeeds. *)
Lemma rep_lazy_exact (p : ascii -> bool) (u v : str)
    (k : nat -> str -> option matched) (m : matched) :
  forall lo i,
    forallb p u = true -> lo <= List.length u ->
    (forall n, lo <= n -> n < List.length u ->
               k (i + n) (skipn n (u ++ v)) = None) ->
    k (i + List.length u) v = Some m ->
    rep false p lo None i (u ++ v) k = Some m.
Proof.
  induction u as [|c u IH]; intros lo i Hp Hlo Hnone Hk.
  - simpl in Hlo. assert (lo = 0) by lia. subst lo.
    simpl in Hk. rewrite Nat.add_0_r in Hk.
    destruct v; simpl; rewrite Hk; reflexivity.
  - simpl in Hp. apply andb_true_iff in Hp. destruct Hp as [Hc Hp].
    cbn [List.length] in Hlo, Hnone, Hk.
    assert (Hrec : rep false p (pred lo) None (S i) (u ++ v) k = Some m).
    { apply IH.
      - exact Hp.
      - lia.
      - intros n Hn1 Hn2.
        replace (S i + n) with (i + S n) by lia.
        apply (Hnone (S n)); lia.
      - replace (S i + List.length u) with (i + S (List.length u)) by lia.
        exact Hk. }
    cbn [rep app]. simpl room. rewrite Hc. cbn [andb].
    destruct lo as [|lo].
    + assert (H0 : k i (c :: u ++ v) = None).
      { specialize (Hnone 0). rewrite Nat.add_0_r in Hnone.
        apply Hnone; lia. }
      rewrite H0. exact Hrec.
    + exact Hrec.
Qed.

(** A greedy repetition takes the whole run of the class when the
    continuation succeeds after it. *)
Lemma rep_greedy_exact (p : ascii -> bool) (u v : str)
    (k : nat -> str -> option matched) (m : matched) :
  forall lo i,
    forallb p u = true -> lo <= List.length u ->
    hd_error v = None \/ (exists d, hd_error v = Some d /\ p d = false) ->
    k (i + List.length u) v = Some m ->
    rep true p lo None i (u ++ v) k = Some m.
Proof.
  induction u as [|c u IH]; intros lo i Hp Hlo Hv Hk.
  - simpl in Hlo. assert (lo = 0) by lia. subst lo.
    simpl in Hk. rewrite Nat.add_0_r in Hk. cbn [app].
    destruct v as [|d v]; cbn [rep].
    + exact Hk.
    + simpl room. cbn [andb].
      destruct Hv as [Hv|(d' & Hv & Hd)]; [discriminate|].
      simpl in Hv. inversion Hv; subst. rewrite Hd. exact Hk.
  - simpl in Hp. apply andb_true_iff in Hp. destruct Hp as [Hc Hp].
    cbn [List.length] in Hlo, Hk.
    assert (Hrec : rep true p (pred lo) None (S i) (u ++ v) k = Some m).
    { apply IH; [exact Hp|lia|exact Hv|].
      replace (S i + List.length u) with (i + S (List.length u)) by lia.
      exact Hk. }
    cbn [rep app]. simpl room. rewrite Hc. cbn [andb].
    change (dec None) with (@None nat). rewrite Hrec. reflexivity.
Qed.

Section SubstitutionSteps.

Variables (r : regex) (repl : matched -> str).

Lemma sub_from_skipped (w rest : str) :
  forall i, sub_from r repl i (List.length w) (w ++ rest)
            = sub_from r repl (i + List.length w) 0 rest.
Proof.
  induction w as [|c w IH]; intro i.
  - simpl. rewrite Nat.add_0_r. reflexivity.
  - cbn [List.length app sub_from]. rewrite IH. f_equal. lia.
Qed.

(** No match at the cursor: the character is copied. *)
Lemma sub_from_copy (c : ascii) (rest : str) (i : nat) :
  match_at r i (c :: rest) = None ->
  sub_from r repl i 0 (c :: rest) = c :: sub_from r repl (S i) 0 rest.
Proof. intro H. cbn [sub_from]. rewrite H. reflexivity. Qed.

(** A match at the cursor: it is replaced, and the scan goes on after
    it. *)
Lemma sub_from_replace (c : ascii) (w rest : str) (i : nat) (m : matched) :
  match_at r i (c :: w ++ rest) = Some m ->
  fst m = i + S (List.length w) ->
  sub_from r repl i 0 (c :: w ++ rest)
  = repl m ++ sub_from r repl (i + S (List.length w)) 0 rest.
Proof.
  intros H Hm. cbn [sub_from]. rewrite H, Hm.
  replace (i + S (List.length w) - i) with (S (List.length w)) by lia.
  rewrite sub_from_skipped.
  replace (S i + List.length w) with (i + S (List.length w)) by lia.
  reflexivity.
Qed.

Variable first : ascii -> bool.
Hypothesis needs_first :
  forall i c t, first c = false -> match_at r i (c :: t) = None.

(** Text without the first character of the pattern is copied. *)
Lemma sub_from_pass (u rest : str) :
  forall i, forallb (fun c => negb (first c)) u = true ->
            sub_from r repl i 0 (u ++ rest)
            = u ++ sub_from r repl (i + List.length u) 0 rest.
Proof.
  induction u as [|c u IH]; intros i H.
  - simpl. rewrite Nat.add_0_r. reflexivity.
  - simpl in H. apply andb_true_iff in H. destruct H as [Hc Hu].
    apply negb_true_iff in Hc. cbn [app].
    rewrite sub_from_copy by (apply needs_first; exact Hc).
    rewrite IH by exact Hu. cbn [List.length app].
    replace (S i + List.length u) with (i + S (List.length u)) by lia.
    reflexivity.
Qed.

End SubstitutionSteps.

Lemma match_at_first (p : ascii -> bool) (r' : regex) (i : nat) (c : ascii)
    (t : str) :
  p c = false -> match_at (Cat (One p) r') i (c :: t) = None.
Proof. intro H. unfold match_at. cbn [run]. rewrite H. reflexivity. Qed.

(** A text without the first character of a pattern is left as it is. *)
Lemma re_sub_lacking (a : ascii) (r' : regex) (repl : matched -> str)
    (s : str) :
  forallb (fun c => negb (chr_is a c)) s = true ->
  re_sub (Cat (lit a) r') repl s = s.
Proof.
  intro H. unfold re_sub. rewrite <- (app_nil_r s) at 1.
  rewrite (sub_from_pass _ repl (chr_is a)).
  - simpl. apply app_nil_r.
  - intros i c t Hc. apply match_at_first. exact Hc.
  - exact H.
Qed.

Lemma plain_lacks (a : ascii) (u : str) :
  opener a = true -> plain u = true ->
  forallb (fun c => negb (chr_is a c)) u = true.
Proof.
  intros Ha Hu. apply forallb_forall. intros c Hc.
  unfold plain in Hu. rewrite forallb_forall in Hu. specialize (Hu c Hc).
  apply negb_true_iff in Hu. apply negb_true_iff.
  destruct (chr_is a c) eqn:E; [|reflexivity].
  apply chr_is_eq in E. subst. congruence.
Qed.

Lemma plain_app (u v : str) :
  plain u = true -> plain v = true -> plain (u ++ v) = true.
Proof.
  intros Hu Hv. unfold plain. rewrite forallb_app.
  apply andb_true_intro. split; assumption.
Qed.

Ltac lacks :=
  repeat rewrite forallb_app;
  repeat (apply andb_true_intro; split);
  try reflexivity;
  try (apply plain_lacks; [reflexivity|assumption]).

(** The rules from the second on leave a plain text as it is. *)
Lemma rules_after_br_plain (s : str) :
  plain s = true ->
  re_sub re_anchor (group 1)
    (re_sub re_link (group 1)
       (re_sub re_code (group 1)
          (re_sub re_italic_alt (group 1)
             (re_sub re_italic (group 1)
                (re_sub re_bold_alt (group 1)
                   (re_sub re_bold (group 1) s)))))) = s.
Proof.
  intro H.
  unfold re_bold, re_bold_alt, re_italic, re_italic_alt, re_code, re_link,
    re_anchor.
  rewrite (re_sub_lacking "*"%char _ _ s) by lacks.
  rewrite (re_sub_lacking "_"%char _ _ s) by lacks.
  rewrite (re_sub_lacking "*"%char _ _ s) by lacks.
  rewrite (re_sub_lacking "_"%char _ _ s) by lacks.
  rewrite (re_sub_lacking "`"%char _ _ s) by lacks.
  rewrite (re_sub_lacking "["%char _ _ s) by lacks.
  apply (re_sub_lacking "<"%char). lacks.
Qed.

Lemma nocase_not_angle (lo up c : ascii) :
  nocase lo up c = true -> chr_is "<"%char lo = false ->
  chr_is "<"%char up = false -> chr_is "<"%char c = false.
Proof.
  unfold nocase. intros H Hl Hu. apply orb_true_iff in H.
  destruct H as [H|H]; apply Ascii.eqb_eq in H; subst; assumption.
Qed.

(** The line-break pattern on a tag at the cursor. *)
Lemma br_match (i : nat) (b r : ascii) (ws slash post : str) :
  nocase "b"%char "B"%char b = true ->
  nocase "r"%char "R"%char r = true ->
  forallb isspace ws = true ->
  slash = [] \/ slash = ["/"%char] ->
  match_at re_br i ("<"%char :: b :: r :: ws ++ slash ++ ">"%char :: post)
  = Some (i + (3 + List.length ws + List.length slash + 1), []).
Proof.
  intros Hb Hr Hws Hs. unfold match_at, re_br, lit, star, opt. cbn [run].
  change (chr_is "<"%char "<"%char) with true. cbv iota.
  rewrite Hb, Hr.
  apply rep_greedy_exact; [exact Hws|lia| |].
  - right. destruct Hs as [-> | ->]; simpl; eexists; split; reflexivity.
  - destruct Hs as [-> | ->]; cbn; do 2 f_equal; lia.
Qed.

(** One match in a text that otherwise lacks the first character of the
    pattern: the match is replaced and the rest is copied. *)
Lemma re_sub_one_span (a : ascii) (r' : regex) (repl : matched -> str)
    (pre : str) (c : ascii) (w post : str) (m : matched) :
  forallb (fun x => negb (chr_is a x)) pre = true ->
  forallb (fun x => negb (chr_is a x)) post = true ->
  match_at (Cat (lit a) r') (List.length pre) (c :: w ++ post) = Some m ->
  fst m = List.length pre + S (List.length w) ->
  re_sub (Cat (lit a) r') repl (pre ++ c :: w ++ post) = pre ++ repl m ++ post.
Proof.
  intros Hpre Hpost Hm Hend. unfold re_sub.
  assert (Hfirst : forall i x t, chr_is a x = false ->
                                 match_at (Cat (lit a) r') i (x :: t) = None).
  { intros i x t Hx. apply match_at_first. exact Hx. }
  rewrite (sub_from_pass _ repl (chr_is a) Hfirst pre) by exact Hpre.
  cbn [Nat.add].
  rewrite (sub_from_replace _ repl c w post _ m Hm Hend).
  assert (Hrest : forall j, sub_from (Cat (lit a) r') repl j 0 post = post).
  { intro j. rewrite <- (app_nil_r post) at 1.
    rewrite (sub_from_pass _ repl (chr_is a) Hfirst post) by exact Hpost.
    simpl. apply app_nil_r. }
  rewrite Hrest. reflexivity.
Qed.

(** X11: a line-break tag in plain text -- an angle, [br] in either
    case, optional blanks, an optional slash and the closing angle --
    is replaced by one newline, and the text around it is kept. *)
Theorem line_break_becomes_newline (pre post ws slash : str) (b r : ascii) :
  plain pre = true -> plain post = true ->
  nocase "b"%char "B"%char b = true ->
  nocase "r"%char "R"%char r = true ->
  forallb isspace ws = true ->
  slash = [] \/ slash = ["/"%char] ->
  strip_inline_md (pre ++ "<"%char :: b :: r :: ws ++ slash ++ ">"%char :: post)
  = pre ++ LF :: post.
Proof.
  intros Hpre Hpost Hb Hr Hws Hs. unfold strip_inline_md. cbv zeta.
  assert (E : re_sub re_br (fun _ => [LF])
                (pre ++ "<"%char :: b :: r :: ws ++ slash ++ ">"%char :: post)
              = pre ++ [LF] ++ post).
  { replace ("<"%char :: b :: r :: ws ++ slash ++ ">"%char :: post)
      with ("<"%char :: (b :: r :: ws ++ slash ++ [">"%char]) ++ post)
      by (simpl; rewrite <- !app_assoc; reflexivity).
    unfold re_br.
    apply (re_sub_one_span "<"%char) with (m := (List.length pre + (3 + List.length ws + List.length slash + 1), [])).
    - lacks.
    - lacks.
    - fold re_br.
      replace ("<"%char :: (b :: r :: ws ++ slash ++ [">"%char]) ++ post)
        with ("<"%char :: b :: r :: ws ++ slash ++ ">"%char :: post)
        by (simpl; rewrite <- !app_assoc; reflexivity).
      apply br_match; assumption.
    - simpl. rewrite !length_app. simpl. lia. }
  rewrite E. apply rules_after_br_plain.
  apply plain_app; [exact Hpre|].
  apply (plain_app [LF] post); [reflexivity|exact Hpost].
Qed.

Lemma skipn_app_head (n : nat) (t v : str) :
  n < List.length t ->
  exists x rest, skipn n (t ++ v) = x :: rest /\ In x t.
Proof.
  revert n. induction t as [|c t IH]; intros n H; [simpl in H; lia|].
  destruct n as [|n].
  - exists c, (t ++ v). split; [reflexivity|left; reflexivity].
  - destruct (IH n) as (x & rest & E & Hin); [simpl in H; lia|].
    exists x, rest. split; [exact E|right; exact Hin].
Qed.

(** A lazy group followed by a continuation that fails before the end
    of [t] and succeeds there: the group is [t]. *)
Lemma run_group_lazy (p : ascii -> bool) (gn lo i : nat) (t v : str)
    (g : groups) (K : nat -> str -> groups -> option matched) (m : matched) :
  forallb p t = true -> lo <= List.length t ->
  (forall n g', lo <= n -> n < List.length t ->
                K (i + n) (skipn n (t ++ v)) g' = None) ->
  K (i + List.length t) v ((gn, t) :: g) = Some m ->
  run (Grp gn (Rep false lo None p)) i (t ++ v) g K = Some m.
Proof.
  intros Hp Hlo Hnone Hk. cbn [run].
  apply rep_lazy_exact; [exact Hp|exact Hlo| |].
  - intros n H1 H2. apply Hnone; assumption.
  - replace (i + List.length t - i) with (List.length t) by lia.
    rewrite firstn_app, Nat.sub_diag, firstn_all. cbn [firstn].
    rewrite app_nil_r. exact Hk.
Qed.

Lemma run_lit_miss (a x : ascii) (r : regex) (i : nat) (s : str) (g : groups)
    (k : nat -> str -> groups -> option matched) :
  chr_is a x = false -> run (Cat (lit a) r) i (x :: s) g k = None.
Proof. intro H. cbn [run lit]. rewrite H. reflexivity. Qed.

Lemma run_lit_only_miss (a x : ascii) (i : nat) (s : str) (g : groups)
    (k : nat -> str -> groups -> option matched) :
  chr_is a x = false -> run (lit a) i (x :: s) g k = None.
Proof. intro H. cbn [run lit]. rewrite H. reflexivity. Qed.

Lemma lacks_In (a x : ascii) (t : str) :
  forallb (fun c => negb (chr_is a c)) t = true -> In x t ->
  chr_is a x = false.
Proof.
  intros H Hin. rewrite forallb_forall in H. apply negb_true_iff.
  apply H. exact Hin.
Qed.

Lemma chr_is_refl (a : ascii) : chr_is a a = true.
Proof. unfold chr_is. apply Ascii.eqb_refl. Qed.

Lemma run_cat (r1 r2 : regex) (i : nat) (s : str) (g : groups)
    (k : nat -> str -> groups -> option matched) :
  run (Cat r1 r2) i s g k = run r1 i s g (fun j t g' => run r2 j t g' k).
Proof. reflexivity. Qed.

Lemma run_lit_hit (a : ascii) (i : nat) (s : str) (g : groups)
    (k : nat -> str -> groups -> option matched) :
  run (lit a) i (a :: s) g k = k (S i) s g.
Proof. cbn [run lit]. rewrite chr_is_refl. reflexivity. Qed.

Lemma run_one_hit (p : ascii -> bool) (c : ascii) (i : nat) (s : str)
    (g : groups) (k : nat -> str -> groups -> option matched) :
  p c = true -> run (One p) i (c :: s) g k = k (S i) s g.
Proof. intro H. cbn [run]. rewrite H. reflexivity. Qed.

(** A span with a one-character delimiter at the cursor. *)
Lemma single_delimiter_match (d : ascii) (i : nat) (t post : str) :
  1 <= List.length t -> forallb dot t = true ->
  forallb (fun c => negb (chr_is d c)) t = true ->
  match_at (Cat (lit d) (Cat (Grp 1 (lazy_plus dot)) (lit d))) i
           (d :: t ++ d :: post)
  = Some (i + S (List.length t + 1), [(1, t)]).
Proof.
  intros Hlen Hdot Hd. unfold match_at, lazy_plus.
  rewrite run_cat, run_lit_hit, run_cat.
  apply run_group_lazy; [exact Hdot|exact Hlen| |].
  - intros n g' H1 H2.
    destruct (skipn_app_head n t (d :: post) H2) as (x & rest & -> & Hin).
    apply run_lit_only_miss. apply (lacks_In d x t Hd Hin).
  - rewrite run_lit_hit. do 2 f_equal. lia.
Qed.

(** A span with a doubled delimiter at the cursor. *)
Lemma double_delimiter_match (d : ascii) (i : nat) (t post : str) :
  1 <= List.length t -> forallb dot t = true ->
  forallb (fun c => negb (chr_is d c)) t = true ->
  match_at (Cat (lit d) (Cat (lit d) (Cat (Grp 1 (lazy_plus dot))
                                         (Cat (lit d) (lit d))))) i
           (d :: d :: t ++ d :: d :: post)
  = Some (i + S (S (List.length t + 2)), [(1, t)]).
Proof.
  intros Hlen Hdot Hd. unfold match_at, lazy_plus.
  rewrite run_cat, run_lit_hit, run_cat, run_lit_hit, run_cat.
  apply run_group_lazy; [exact Hdot|exact Hlen| |].
  - intros n g' H1 H2.
    destruct (skipn_app_head n t (d :: d :: post) H2) as (x & rest & -> & Hin).
    apply run_lit_miss. apply (lacks_In d x t Hd Hin).
  - rewrite run_cat, !run_lit_hit. do 2 f_equal. lia.
Qed.

Lemma match_at_second (a : ascii) (q : ascii -> bool) (r' : regex) (i : nat)
    (c : ascii) (t : str) :
  hd_error t = None \/ (exists x, hd_error t = Some x /\ q x = false) ->
  match_at (Cat (lit a) (Cat (One q) r')) i (c :: t) = None.
Proof.
  intro H. unfold match_at. cbn [run lit].
  destruct (chr_is a c); [|reflexivity].
  destruct t as [|x t]; [reflexivity|].
  destruct H as [H|(y & H & Hq)]; [discriminate|].
  simpl in H. injection H as ->. rewrite Hq. reflexivity.
Qed.

(** Two occurrences of the first character of a pattern, neither of
    which starts a match: the text is left as it is. *)
Lemma re_sub_two_marks (a : ascii) (r' : regex) (repl : matched -> str)
    (pre mid post : str) :
  forallb (fun x => negb (chr_is a x)) pre = true ->
  forallb (fun x => negb (chr_is a x)) mid = true ->
  forallb (fun x => negb (chr_is a x)) post = true ->
  (forall i, match_at (Cat (lit a) r') i (a :: mid ++ a :: post) = None) ->
  (forall i, match_at (Cat (lit a) r') i (a :: post) = None) ->
  re_sub (Cat (lit a) r') repl (pre ++ a :: mid ++ a :: post)
  = pre ++ a :: mid ++ a :: post.
Proof.
  intros Hpre Hmid Hpost H1 H2. unfold re_sub.
  assert (Hfirst : forall i x t, chr_is a x = false ->
                                 match_at (Cat (lit a) r') i (x :: t) = None).
  { intros i x t Hx. apply match_at_first. exact Hx. }
  assert (Hrest : forall j, sub_from (Cat (lit a) r') repl j 0 post = post).
  { intro j. rewrite <- (app_nil_r post) at 1.
    rewrite (sub_from_pass _ repl (chr_is a) Hfirst post) by exact Hpost.
    simpl. apply app_nil_r. }
  rewrite (sub_from_pass _ repl (chr_is a) Hfirst pre) by exact Hpre.
  rewrite sub_from_copy by apply H1.
  rewrite (sub_from_pass _ repl (chr_is a) Hfirst mid) by exact Hmid.
  rewrite sub_from_copy by apply H2.
  rewrite Hrest. reflexivity.
Qed.

Lemma dot_all (t : str) : ~ In LF t -> forallb dot t = true.
Proof.
  intro H. apply forallb_forall. intros c Hc. unfold dot.
  apply negb_true_iff. apply Ascii.eqb_neq. intros ->. exact (H Hc).
Qed.

Lemma plain_head (a : ascii) (t post : str) :
  opener a = true -> plain t = true -> plain post = true ->
  hd_error (t ++ post) = None
  \/ (exists x, hd_error (t ++ post) = Some x /\ chr_is a x = false).
Proof.
  intros Ha Ht Hp.
  assert (H : plain (t ++ post) = true) by (apply plain_app; assumption).
  destruct (t ++ post) as [|x l]; [left; reflexivity|right].
  exists x. split; [reflexivity|].
  apply (lacks_In a x (x :: l)); [|left; reflexivity].
  apply plain_lacks; assumption.
Qed.

Lemma lacking_head (a : ascii) (t v : str) :
  t <> [] -> forallb (fun c => negb (chr_is a c)) t = true ->
  hd_error (t ++ v) = None
  \/ (exists x, hd_error (t ++ v) = Some x /\ chr_is a x = false).
Proof.
  intros Hne H. destruct t as [|x t]; [congruence|]. right.
  exists x. split; [reflexivity|].
  apply (lacks_In a x (x :: t) H). left. reflexivity.
Qed.

Ltac lacks_all :=
  repeat (rewrite forallb_app || cbn [forallb]);
  repeat (apply andb_true_intro; split);
  try reflexivity;
  try (apply plain_lacks; [reflexivity|assumption]).

(** A rule whose first character the text lacks is dropped from the
    goal, the innermost one first. *)
Ltac skip_rule a :=
  match goal with
  | |- context [re_sub (Cat (lit a) ?r) ?f ?s] =>
      rewrite (re_sub_lacking a r f s) by lacks_all
  end.

(** X12: an emphasis or code span in plain text loses its delimiters and
    nothing else: for each of the five delimiters, a non-empty plain
    text without newline between two copies of the delimiter is kept,
    and so is the plain text around the span. *)
Theorem span_delimiters_removed (d pre t post : str) :
  In d span_delimiters ->
  plain pre = true -> plain t = true -> plain post = true ->
  t <> [] -> ~ In LF t ->
  strip_inline_md (pre ++ d ++ t ++ d ++ post) = pre ++ t ++ post.
Proof.
  intros Hd Hpre Ht Hpost Hne Hlf.
  assert (Hlen : 1 <= List.length t) by (destruct t; [congruence|simpl; lia]).
  assert (Hdot : forallb dot t = true) by (apply dot_all; exact Hlf).
  unfold strip_inline_md. cbv zeta.
  unfold re_br, re_bold, re_bold_alt, re_italic, re_italic_alt, re_code,
    re_link, re_anchor.
  unfold span_delimiters in Hd. cbn [In] in Hd.
  destruct Hd as [<- | [<- | [<- | [<- | [<- | []]]]]]; cbn [app].
  - (* two stars *)
    skip_rule "<"%char.
    replace (pre ++ "*" :: "*" :: t ++ "*" :: "*" :: post)%char
      with (pre ++ "*" :: ("*" :: t ++ ["*"; "*"]) ++ post)%char
      by (cbn [app]; rewrite <- app_assoc; reflexivity).
    rewrite (re_sub_one_span "*"%char _ (group 1) pre "*"%char _ post
               (List.length pre + S (S (List.length t + 2)), [(1, t)])).
    + change (group 1 (List.length pre + S (S (List.length t + 2)), [(1, t)]))
        with t.
      skip_rule "_"%char. skip_rule "*"%char. skip_rule "_"%char.
      skip_rule "`"%char. skip_rule "["%char. skip_rule "<"%char.
      reflexivity.
    + lacks_all.
    + lacks_all.
    + cbn [app]. rewrite <- app_assoc. cbn [app].
      apply double_delimiter_match; [exact Hlen|exact Hdot|lacks_all].
    + cbn [fst List.length]. rewrite length_app. simpl. lia.
  - (* two underscores *)
    skip_rule "<"%char. skip_rule "*"%char.
    replace (pre ++ "_" :: "_" :: t ++ "_" :: "_" :: post)%char
      with (pre ++ "_" :: ("_" :: t ++ ["_"; "_"]) ++ post)%char
      by (cbn [app]; rewrite <- app_assoc; reflexivity).
    rewrite (re_sub_one_span "_"%char _ (group 1) pre "_"%char _ post
               (List.length pre + S (S (List.length t + 2)), [(1, t)])).
    + change (group 1 (List.length pre + S (S (List.length t + 2)), [(1, t)]))
        with t.
      skip_rule "*"%char. skip_rule "_"%char.
      skip_rule "`"%char. skip_rule "["%char. skip_rule "<"%char.
      reflexivity.
    + lacks_all.
    + lacks_all.
    + cbn [app]. rewrite <- app_assoc. cbn [app].
      apply double_delimiter_match; [exact Hlen|exact Hdot|lacks_all].
    + cbn [fst List.length]. rewrite length_app. simpl. lia.
  - (* one star: the bold rule meets two single stars *)
    skip_rule "<"%char.
    rewrite (re_sub_two_marks "*"%char _ (group 1) pre t post).
    2-4: lacks_all.
    2: { intro i. apply match_at_second.
         apply lacking_head; [exact Hne|lacks_all]. }
    2: { intro i. apply match_at_second.
         apply (plain_head "*"%char [] post); [reflexivity|reflexivity|exact Hpost]. }
    skip_rule "_"%char.
    replace (pre ++ "*" :: t ++ "*" :: post)%char
      with (pre ++ "*" :: (t ++ ["*"]) ++ post)%char
      by (rewrite <- app_assoc; reflexivity).
    rewrite (re_sub_one_span "*"%char _ (group 1) pre "*"%char _ post
               (List.length pre + S (List.length t + 1), [(1, t)])).
    + change (group 1 (List.length pre + S (List.length t + 1), [(1, t)]))
        with t.
      skip_rule "_"%char.
      skip_rule "`"%char. skip_rule "["%char. skip_rule "<"%char.
      reflexivity.
    + lacks_all.
    + lacks_all.
    + rewrite <- app_assoc. cbn [app].
      apply single_delimiter_match; [exact Hlen|exact Hdot|lacks_all].
    + cbn [fst List.length]. rewrite length_app. simpl. lia.
  - (* one underscore: the second bold rule meets two single
       underscores *)
    skip_rule "<"%char. skip_rule "*"%char.
    rewrite (re_sub_two_marks "_"%char _ (group 1) pre t post).
    2-4: lacks_all.
    2: { intro i. apply match_at_second.
         apply lacking_head; [exact Hne|lacks_all]. }
    2: { intro i. apply match_at_second.
         apply (plain_head "_"%char [] post); [reflexivity|reflexivity|exact Hpost]. }
    skip_rule "*"%char.
    replace (pre ++ "_" :: t ++ "_" :: post)%char
      with (pre ++ "_" :: (t ++ ["_"]) ++ post)%char
      by (rewrite <- app_assoc; reflexivity).
    rewrite (re_sub_one_span "_"%char _ (group 1) pre "_"%char _ post
               (List.length pre + S (List.length t + 1), [(1, t)])).
    + change (group 1 (List.length pre + S (List.length t + 1), [(1, t)]))
        with t.
      skip_rule "`"%char. skip_rule "["%char. skip_rule "<"%char.
      reflexivity.
    + lacks_all.
    + lacks_all.
    + rewrite <- app_assoc. cbn [app].
      apply single_delimiter_match; [exact Hlen|exact Hdot|lacks_all].
    + cbn [fst List.length]. rewrite length_app. simpl. lia.
  - (* one backtick *)
    skip_rule "<"%char. skip_rule "*"%char. skip_rule "_"%char.
    skip_rule "*"%char. skip_rule "_"%char.
    replace (pre ++ "`" :: t ++ "`" :: post)%char
      with (pre ++ "`" :: (t ++ ["`"]) ++ post)%char
      by (rewrite <- app_assoc; reflexivity).
    rewrite (re_sub_one_span "`"%char _ (group 1) pre "`"%char _ post
               (List.length pre + S (List.length t + 1), [(1, t)])).
    + change (group 1 (List.length pre + S (List.length t + 1), [(1, t)]))
        with t.
      skip_rule "["%char. skip_rule "<"%char.
      reflexivity.
    + lacks_all.
    + lacks_all.
    + rewrite <- app_assoc. cbn [app].
      apply single_delimiter_match; [exact Hlen|exact Hdot|lacks_all].
    + cbn [fst List.length]. rewrite length_app. simpl. lia.
Qed.

Lemma not_In_lacks (a : ascii) (t : str) :
  ~ In a t -> forallb (fun c => negb (chr_is a c)) t = true.
Proof.
  intro H. apply forallb_forall. intros c Hc. apply negb_true_iff.
  unfold chr_is. apply Ascii.eqb_neq. intros ->. exact (H Hc).
Qed.

Lemma run_rep (gr : bool) (lo : nat) (hi : option nat) (p : ascii -> bool)
    (i : nat) (s : str) (g : groups)
    (k : nat -> str -> groups -> option matched) :
  run (Rep gr lo hi p) i s g k = rep gr p lo hi i s (fun j t => k j t g).
Proof. reflexivity. Qed.

(** A link at the cursor. *)
Lemma link_match (i : nat) (label target post : str) :
  1 <= List.length label -> forallb dot label = true ->
  forallb (fun c => negb (chr_is "]"%char c)) label = true ->
  1 <= List.length target -> forallb dot target = true ->
  forallb (fun c => negb (chr_is ")"%char c)) target = true ->
  match_at re_link i
    ("["%char :: label ++ "]"%char :: "("%char :: target ++ ")"%char :: post)
  = Some (i + S (List.length label + (2 + (List.length target + 1))),
          [(1, label)]).
Proof.
  intros Hl1 Hl2 Hl3 Ht1 Ht2 Ht3. unfold match_at, re_link, lazy_plus.
  rewrite run_cat, run_lit_hit, run_cat.
  apply run_group_lazy; [exact Hl2|exact Hl1| |].
  - intros n g' H1 H2.
    destruct (skipn_app_head n label
                ("]"%char :: "("%char :: target ++ ")"%char :: post) H2)
      as (x & rest & -> & Hin).
    apply run_lit_miss. apply (lacks_In _ x label Hl3 Hin).
  - rewrite run_cat, run_lit_hit, run_cat, run_lit_hit, run_cat, run_rep.
    apply rep_lazy_exact; [exact Ht2|exact Ht1| |].
    + intros n H1 H2.
      destruct (skipn_app_head n target (")"%char :: post) H2)
        as (x & rest & -> & Hin).
      apply run_lit_only_miss. apply (lacks_In _ x target Ht3 Hin).
    + rewrite run_lit_hit. do 2 f_equal. lia.
Qed.

(** X13: a link in plain text is replaced by its label: the brackets
    and the parenthesised target go, the label and the text around the
    link are kept. *)
Theorem link_becomes_label (pre label target post : str) :
  plain pre = true -> plain label = true -> plain target = true ->
  plain post = true ->
  label <> [] -> ~ In LF label -> ~ In "]"%char label ->
  target <> [] -> ~ In LF target -> ~ In ")"%char target ->
  strip_inline_md
    (pre ++ "["%char :: label ++ "]"%char :: "("%char :: target
         ++ ")"%char :: post)
  = pre ++ label ++ post.
Proof.
  intros Hpre Hlabel Htarget Hpost Hl1 Hl2 Hl3 Ht1 Ht2 Ht3.
  assert (Hll : 1 <= List.length label)
    by (destruct label; [congruence|simpl; lia]).
  assert (Htl : 1 <= List.length target)
    by (destruct target; [congruence|simpl; lia]).
  unfold strip_inline_md. cbv zeta.
  unfold re_br, re_bold, re_bold_alt, re_italic, re_italic_alt, re_code.
  skip_rule "<"%char. skip_rule "*"%char. skip_rule "_"%char.
  skip_rule "*"%char. skip_rule "_"%char. skip_rule "`"%char.
  replace (pre ++ "[" :: label ++ "]" :: "(" :: target ++ ")" :: post)%char
    with (pre ++ "[" :: (label ++ "]" :: "(" :: target ++ [")"]) ++ post)%char
    by (rewrite <- app_assoc; cbn [app]; rewrite <- app_assoc; reflexivity).
  unfold re_link at 1.
  rewrite (re_sub_one_span "["%char _ (group 1) pre "["%char _ post
             (List.length pre
              + S (List.length label + (2 + (List.length target + 1))),
              [(1, label)])).
  - change (group 1 (List.length pre
              + S (List.length label + (2 + (List.length target + 1))),
              [(1, label)])) with label.
    unfold re_anchor. skip_rule "<"%char. reflexivity.
  - lacks_all.
  - lacks_all.
  - rewrite <- app_assoc; cbn [app]; rewrite <- app_assoc. cbn [app].
    apply link_match; try assumption;
      try (apply dot_all; assumption); apply not_In_lacks; assumption.
  - cbn [fst]. rewrite !length_app. cbn [List.length]. rewrite length_app.
    simpl. lia.
Qed.

Lemma not_opener_lacks (a c : ascii) :
  opener a = true -> opener c = false -> negb (chr_is a c) = true.
Proof.
  intros Ha Hc. apply negb_true_iff. unfold chr_is.
  apply Ascii.eqb_neq. intros ->. congruence.
Qed.

Lemma nocase_not_opener (lo up c : ascii) :
  nocase lo up c = true -> opener lo = false -> opener up = false ->
  opener c = false.
Proof.
  unfold nocase. intros H Hl Hu. apply orb_true_iff in H.
  destruct H as [H|H]; apply Ascii.eqb_eq in H; subst; assumption.
Qed.

Lemma isspace_not_opener (c : ascii) : isspace c = true -> opener c = false.
Proof.
  destruct c as [[] [] [] [] [] [] [] []]; intro H;
    try reflexivity; discriminate H.
Qed.

Lemma nocase_a_not_b (c : ascii) :
  nocase "a"%char "A"%char c = true -> nocase "b"%char "B"%char c = false.
Proof.
  unfold nocase. intro H. apply orb_true_iff in H.
  destruct H as [H|H]; apply Ascii.eqb_eq in H; subst; reflexivity.
Qed.

(** An anchor element at the cursor. *)
Lemma anchor_match (i : nat) (a1 a2 sp : ascii) (attrs inner post : str) :
  nocase "a"%char "A"%char a1 = true ->
  nocase "a"%char "A"%char a2 = true ->
  isspace sp = true ->
  forallb (fun c => negb (chr_is ">"%char c)) attrs = true ->
  forallb dot inner = true ->
  forallb (fun c => negb (chr_is "<"%char c)) inner = true ->
  match_at re_anchor i
    ("<"%char :: a1 :: sp :: attrs ++ ">"%char :: inner
       ++ "<"%char :: "/"%char :: a2 :: ">"%char :: post)
  = Some (i + (3 + (List.length attrs + S (List.length inner + 4))),
          [(1, inner)]).
Proof.
  intros Ha1 Ha2 Hsp Hattrs Hdot Hinner.
  unfold match_at, re_anchor, lazy_star.
  rewrite run_cat, run_lit_hit, run_cat, (run_one_hit _ a1) by exact Ha1.
  rewrite run_cat, (run_one_hit _ sp) by exact Hsp.
  rewrite run_cat, run_rep.
  apply rep_lazy_exact; [exact Hattrs|lia| |].
  - intros n H1 H2.
    destruct (skipn_app_head n attrs
                (">"%char :: inner
                   ++ "<"%char :: "/"%char :: a2 :: ">"%char :: post) H2)
      as (x & rest & -> & Hin).
    apply run_lit_miss. apply (lacks_In _ x attrs Hattrs Hin).
  - rewrite run_cat, run_lit_hit, run_cat.
    apply run_group_lazy; [exact Hdot|lia| |].
    + intros n g' H1 H2.
      destruct (skipn_app_head n inner
                  ("<"%char :: "/"%char :: a2 :: ">"%char :: post) H2)
        as (x & rest & -> & Hin).
      apply run_lit_miss. apply (lacks_In _ x inner Hinner Hin).
    + rewrite run_cat, run_lit_hit, run_cat, run_lit_hit, run_cat.
      rewrite (run_one_hit _ a2) by exact Ha2.
      rewrite run_lit_hit. do 2 f_equal. lia.
Qed.

Ltac lacks_tag :=
  repeat (rewrite forallb_app || cbn [forallb]);
  repeat (apply andb_true_intro; split);
  try reflexivity;
  try (apply plain_lacks; [reflexivity|assumption]);
  try (apply not_opener_lacks; [reflexivity|assumption]).

Ltac skip_tag_rule a :=
  match goal with
  | |- context [re_sub (Cat (lit a) ?r) ?f ?s] =>
      rewrite (re_sub_lacking a r f s) by lacks_tag
  end.

(** X14: an anchor element in plain text is replaced by what it
    encloses: the opening tag -- the letter a in either case, a blank,
    attributes without a closing angle -- and the closing tag go; the
    enclosed text, which may be empty, and the text around the element
    are kept. *)
Theorem anchor_becomes_inner (pre attrs inner post : str) (a1 a2 sp : ascii) :
  plain pre = true -> plain attrs = true -> plain inner = true ->
  plain post = true ->
  nocase "a"%char "A"%char a1 = true ->
  nocase "a"%char "A"%char a2 = true ->
  isspace sp = true ->
  ~ In ">"%char attrs -> ~ In LF inner ->
  strip_inline_md
    (pre ++ "<"%char :: a1 :: sp :: attrs ++ ">"%char :: inner
         ++ "<"%char :: "/"%char :: a2 :: ">"%char :: post)
  = pre ++ inner ++ post.
Proof.
  intros Hpre Hattrs Hinner Hpost Ha1 Ha2 Hsp Hgt Hlf.
  assert (O1 : opener a1 = false)
    by (apply (nocase_not_opener _ _ _ Ha1); reflexivity).
  assert (O2 : opener a2 = false)
    by (apply (nocase_not_opener _ _ _ Ha2); reflexivity).
  assert (O3 : opener sp = false) by (apply isspace_not_opener; exact Hsp).
  unfold strip_inline_md. cbv zeta.
  unfold re_br, re_bold, re_bold_alt, re_italic, re_italic_alt, re_code,
    re_link.
  (* the line-break rule meets the two angles of the element *)
  replace (pre ++ "<" :: a1 :: sp :: attrs ++ ">" :: inner
               ++ "<" :: "/" :: a2 :: ">" :: post)%char
    with (pre ++ "<" :: (a1 :: sp :: attrs ++ ">" :: inner)
              ++ "<" :: ("/" :: a2 :: ">" :: post))%char
    by (cbn [app]; rewrite <- app_assoc; reflexivity).
  rewrite (re_sub_two_marks "<"%char _ (fun _ => [LF]) pre
             (a1 :: sp :: attrs ++ ">"%char :: inner)
             ("/"%char :: a2 :: ">"%char :: post)).
  2-4: lacks_tag.
  2: { intro i. apply match_at_second. right. exists a1.
       split; [reflexivity|apply nocase_a_not_b; exact Ha1]. }
  2: { intro i. apply match_at_second. right. exists "/"%char.
       split; reflexivity. }
  skip_tag_rule "*"%char. skip_tag_rule "_"%char. skip_tag_rule "*"%char.
  skip_tag_rule "_"%char. skip_tag_rule "`"%char. skip_tag_rule "["%char.
  replace (pre ++ "<" :: (a1 :: sp :: attrs ++ ">" :: inner)
               ++ "<" :: ("/" :: a2 :: ">" :: post))%char
    with (pre ++ "<" :: (a1 :: sp :: attrs ++ ">" :: inner
                            ++ ["<"; "/"; a2; ">"]) ++ post)%char
    by (cbn [app]; rewrite <- !app_assoc; cbn [app];
        rewrite <- !app_assoc; reflexivity).
  unfold re_anchor at 1.
  rewrite (re_sub_one_span "<"%char _ (group 1) pre "<"%char _ post
             (List.length pre
              + (3 + (List.length attrs + S (List.length inner + 4))),
              [(1, inner)])).
  - reflexivity.
  - lacks_tag.
  - lacks_tag.
  - cbn [app]. rewrite <- !app_assoc. cbn [app]. rewrite <- !app_assoc.
    cbn [app].
    apply anchor_match; try assumption.
    + apply not_In_lacks; exact Hgt.
    + apply dot_all; exact Hlf.
    + apply plain_lacks; [reflexivity|exact Hinner].
  - cbn [fst List.length]. rewrite !length_app. cbn [List.length].
    rewrite length_app. simpl. lia.
Qed.

(** ** The sheet of [export_to_excel] *)

Lemma written_app (a b : list sheet_op) :
  written (a ++ b) = written a ++ written b.
Proof.
  induction a as [|op a IH]; [reflexivity|].
  destruct op as [r c [v|]| | | | |]; cbn [app written]; rewrite IH;
    reflexivity.
Qed.

Lemma tidy_nil (lo hi : nat) : tidy lo hi [].
Proof. split; [exact I|constructor]. Qed.

Lemma tidy_app (lo mid hi : nat) (l1 l2 : list (nat * nat * value)) :
  tidy lo mid l1 -> tidy mid hi l2 -> lo <= mid -> mid <= hi ->
  tidy lo hi (l1 ++ l2).
Proof.
  intros [S1 B1] [S2 B2] H1 H2. split.
  - induction l1 as [|e l1 IH]; [exact S2|].
    cbn [app in_reading_order] in *. destruct S1 as [F1 S1].
    inversion B1 as [|? ? Be B1']; subst.
    split; [|apply IH; assumption].
    apply Forall_app. split; [exact F1|].
    rewrite Forall_forall in B2 |- *. intros e' He'.
    specialize (B2 e' He'). destruct e as [[r c] v], e' as [[r' c'] v'].
    unfold entry_row in *. cbn [fst] in *. left. lia.
  - apply Forall_app. split.
    + eapply Forall_impl; [|exact B1]. cbn beta. intros e He. lia.
    + eapply Forall_impl; [|exact B2]. cbn beta. intros e He. lia.
Qed.

Lemma tidy_one (row column : nat) (v : value) :
  tidy row (S row) [(row, column, v)].
Proof.
  split.
  - split; [constructor|exact I].
  - constructor; [|constructor]. unfold entry_row. cbn [fst]. lia.
Qed.

Lemma written_no_value (f : nat -> list sheet_op) (cols : list nat) :
  (forall col, written (f col) = []) -> written (flat_map f cols) = [].
Proof.
  intro H. induction cols as [|c cols IH]; [reflexivity|].
  cbn [flat_map]. rewrite written_app, H, IH. reflexivity.
Qed.

Lemma written_excel_heading (row level : nat) (content : str) :
  written (excel_heading row level content)
  = [(row, 1, text_value (strip_inline_md content))].
Proof.
  unfold excel_heading. cbn [app written]. rewrite written_app.
  destruct (has_heading_fill level).
  - rewrite written_no_value by reflexivity. reflexivity.
  - reflexivity.
Qed.

(** The values of one row of a table: the normalised cells, the cell
    of index [k] in column [k + 1]. *)
Lemma written_excel_table_row (row ri : nat) (trow : list str) :
  forall ci,
    written (excel_table_row row ri ci trow)
    = map (fun p => (row, fst p + 1, text_value (strip_inline_md (snd p))))
          (combine (seq ci (List.length trow)) trow).
Proof.
  induction trow as [|cell_text trow IH]; intro ci; [reflexivity|].
  cbn [excel_table_row app written List.length seq combine map fst snd].
  rewrite written_app.
  replace (written (if ri =? 0
                    then [cell_fill row (ci + 1) TABLE_HEADER_FILL;
                          cell_font row (ci + 1) TABLE_HEADER_FONT]
                    else [cell_font row (ci + 1) TABLE_BODY_FONT]))
    with (@nil (nat * nat * value)) by (destruct (ri =? 0); reflexivity).
  cbn [app]. rewrite IH. reflexivity.
Qed.

Lemma tidy_weaken (lo hi hi' : nat) (l : list (nat * nat * value)) :
  tidy lo hi l -> hi <= hi' -> tidy lo hi' l.
Proof.
  intros [S B] H. split; [exact S|].
  eapply Forall_impl; [|exact B]. cbn beta. intros e He. lia.
Qed.

Lemma table_row_tidy (row : nat) (trow : list str) :
  forall ci,
    tidy row (S row)
      (map (fun p => (row, fst p + 1, text_value (strip_inline_md (snd p))))
           (combine (seq ci (List.length trow)) trow))
    /\ Forall (fun e => ci < entry_column e)
         (map (fun p => (row, fst p + 1, text_value (strip_inline_md (snd p))))
              (combine (seq ci (List.length trow)) trow)).
Proof.
  induction trow as [|t trow IH]; intro ci.
  - split; [apply tidy_nil|constructor].
  - cbn [List.length seq combine map fst snd].
    destruct (IH (S ci)) as [[S B] C]. split; [split|].
    + cbn [in_reading_order]. split; [|exact S].
      rewrite Forall_forall in B, C |- *. intros e He.
      specialize (B e He). specialize (C e He).
      destruct e as [[r c] v]. unfold entry_row, entry_column in *.
      cbn [fst snd] in *. right. lia.
    + constructor; [unfold entry_row; cbn [fst]; lia|exact B].
    + constructor; [unfold entry_column; cbn [fst snd]; lia|].
      eapply Forall_impl; [|exact C]. cbn beta. intros e He. lia.
Qed.

Lemma excel_table_rows_tidy (table_rows : list (list str)) :
  forall row ri ops row',
    excel_table_rows row ri table_rows = (ops, row') ->
    row' = row + List.length table_rows /\ tidy row row' (written ops).
Proof.
  induction table_rows as [|trow rows IH]; intros row ri ops row' H.
  - inversion H; subst. split; [cbn; lia|apply tidy_nil].
  - cbn [excel_table_rows] in H.
    destruct (excel_table_rows (S row) (S ri) rows) as [ops1 r1] eqn:E.
    inversion H; subst. destruct (IH _ _ _ _ E) as [-> T].
    split; [cbn [List.length]; lia|].
    rewrite written_app, written_excel_table_row.
    apply (tidy_app row (S row)); [apply table_row_tidy|exact T|lia|lia].
Qed.

Lemma excel_list_tidy (items : list (nat * str)) :
  forall row ops row',
    excel_list row items = (ops, row') ->
    row' = row + List.length items /\ tidy row row' (written ops).
Proof.
  induction items as [|[indent text] items IH]; intros row ops row' H.
  - inversion H; subst. split; [cbn; lia|apply tidy_nil].
  - cbn [excel_list] in H.
    destruct (excel_list (S row) items) as [ops1 r1] eqn:E.
    inversion H; subst. destruct (IH _ _ _ E) as [-> T].
    split; [cbn [List.length]; lia|].
    cbn [app written].
    apply (tidy_app row (S row) _ [_]); [apply tidy_one|exact T|lia|lia].
Qed.

Lemma excel_code_tidy (code_lines : list str) :
  forall row ops row',
    excel_code row code_lines = (ops, row') ->
    row' = row + List.length code_lines /\ tidy row row' (written ops).
Proof.
  induction code_lines as [|l ls IH]; intros row ops row' H.
  - inversion H; subst. split; [cbn; lia|apply tidy_nil].
  - cbn [excel_code] in H.
    destruct (excel_code (S row) ls) as [ops1 r1] eqn:E.
    inversion H; subst. destruct (IH _ _ _ E) as [-> T].
    split; [cbn [List.length]; lia|].
    cbn [app written].
    apply (tidy_app row (S row) _ [_]); [apply tidy_one|exact T|lia|lia].
Qed.

(** The values of a block are written in reading order into the rows
    of the block. *)
Lemma excel_block_tidy (row : nat) (block : MDBlock) (ops : list sheet_op)
    (row' : nat) :
  excel_block row block = Some (ops, row') ->
  row' = row + rows_of block /\ tidy row row' (written ops).
Proof.
  unfold excel_block, rows_of.
  destruct block as [k c l]. cbn [b_kind b_content b_level].
  destruct k, c as [t|rows|items]; intro H; try discriminate.
  - inversion H; subst. split; [reflexivity|].
    rewrite written_excel_heading, Nat.add_1_r. apply tidy_one.
  - destruct rows as [|trow rows].
    + inversion H; subst. split; [lia|apply tidy_nil].
    + destruct (excel_table_rows row 0 (trow :: rows)) as [ops1 r1] eqn:E.
      inversion H; subst. destruct (excel_table_rows_tidy _ _ _ _ _ E) as [-> T].
      split; [lia|]. apply (tidy_weaken _ _ _ _ T). lia.
  - inversion H; subst. split; [reflexivity|].
    cbn [written]. rewrite Nat.add_1_r. apply tidy_one.
  - destruct (excel_list row items) as [ops1 r1] eqn:E.
    inversion H; subst. destruct (excel_list_tidy _ _ _ _ E) as [-> T].
    split; [lia|]. apply (tidy_weaken _ _ _ _ T). lia.
  - destruct (excel_code row (split LF t)) as [ops1 r1] eqn:E.
    inversion H; subst. destruct (excel_code_tidy _ _ _ _ E) as [-> T].
    split; [lia|]. apply (tidy_weaken _ _ _ _ T). lia.
  - inversion H; subst. split; [reflexivity|]. apply tidy_nil.
  - inversion H; subst. split; [reflexivity|]. apply tidy_nil.
  - inversion H; subst. split; [reflexivity|]. apply tidy_nil.
Qed.

Lemma excel_blocks_tidy (blocks : list MDBlock) :
  forall row ops row',
    excel_blocks row blocks = Some (ops, row') ->
    row' = row + list_sum (map rows_of blocks) /\ tidy row row' (written ops).
Proof.
  induction blocks as [|b blocks IH]; intros row ops row' H.
  - inversion H; subst. split; [cbn; lia|apply tidy_nil].
  - cbn [excel_blocks] in H.
    destruct (excel_block row b) as [[ops1 r1]|] eqn:E1; [|discriminate].
    destruct (excel_blocks r1 blocks) as [[ops2 r2]|] eqn:E2; [|discriminate].
    inversion H; subst.
    destruct (excel_block_tidy _ _ _ _ E1) as [-> T1].
    destruct (IH _ _ _ E2) as [-> T2].
    split.
    { change (list_sum (map rows_of (b :: blocks)))
        with (rows_of b + list_sum (map rows_of blocks)). lia. }
    rewrite written_app.
    apply (tidy_app row (row + rows_of b)); [exact T1|exact T2|lia|lia].
Qed.

(** The exporter handles a block whose content has the shape of its
    kind. *)
Lemma excel_block_defined (row : nat) (block : MDBlock) :
  well_formed block -> exists ops row', excel_block row block = Some (ops, row').
Proof.
  unfold well_formed, excel_block.
  destruct block as [k c l]. cbn [b_kind b_content b_level].
  destruct k, c as [t|rows|items]; intro H; try contradiction;
    try (eexists; eexists; reflexivity).
  - destruct rows as [|trow rows]; [eexists; eexists; reflexivity|].
    destruct (excel_table_rows row 0 (trow :: rows)) as [ops1 r1].
    eexists; eexists; reflexivity.
  - destruct (excel_list row items) as [ops1 r1].
    eexists; eexists; reflexivity.
  - destruct (excel_code row (split LF t)) as [ops1 r1].
    eexists; eexists; reflexivity.
Qed.

Lemma excel_blocks_defined (blocks : list MDBlock) :
  Forall well_formed blocks ->
  forall row, exists ops row', excel_blocks row blocks = Some (ops, row').
Proof.
  induction 1 as [|b blocks Hb _ IH]; intro row.
  - eexists; eexists; reflexivity.
  - destruct (excel_block_defined row b Hb) as (ops1 & r1 & E1).
    destruct (IH r1) as (ops2 & r2 & E2).
    exists (ops1 ++ ops2), r2. cbn [excel_blocks]. rewrite E1, E2.
    reflexivity.
Qed.

Lemma reading_order_NoDup (l : list (nat * nat * value)) :
  in_reading_order l -> NoDup (map fst l).
Proof.
  induction l as [|e l IH]; intro H; [constructor|].
  cbn [in_reading_order] in H. destruct H as [F S].
  cbn [map]. constructor; [|apply IH; exact S].
  intro Hin. apply in_map_iff in Hin. destruct Hin as (e' & Heq & He').
  rewrite Forall_forall in F. specialize (F e' He').
  destruct e as [[r c] v], e' as [[r' c'] v']. cbn [fst] in Heq.
  inversion Heq; subst. cbn in F. lia.
Qed.

(** X15: whatever [parse_md] returns, the loop of [export_to_excel]
    handles every block of it, and the values it writes come in
    reading order, top to bottom and left to right, from row 1 on: no
    cell of the sheet is given a value twice, so no block overwrites
    another. *)
Theorem excel_values_written_once (fuel : nat) (text : str)
    (blocks : list MDBlock) :
  parse_md fuel text = Returns blocks ->
  exists ops row',
    excel_blocks 1 blocks = Some (ops, row')
    /\ in_reading_order (written ops)
    /\ NoDup (map fst (written ops))
    /\ Forall (fun e => 1 <= entry_row e < row') (written ops).
Proof.
  intro H.
  assert (Hwf : Forall well_formed blocks).
  { unfold parse_md in H.
    apply (parse_loop_well_formed _ _ _ _ _ (Forall_nil _) H). }
  destruct (excel_blocks_defined blocks Hwf 1) as (ops & row' & E).
  exists ops, row'. destruct (excel_blocks_tidy _ _ _ _ E) as [_ [S B]].
  split; [exact E|]. split; [exact S|]. split; [|exact B].
  apply reading_order_NoDup. exact S.
Qed.

(** *** Where a block goes *)

Lemma excel_table_row_rows (row ri : nat) (trow : list str) :
  forall ci, Forall (fun op => op_row op = row) (excel_table_row row ri ci trow).
Proof.
  induction trow as [|t trow IH]; intro ci; [constructor|].
  cbn [excel_table_row]. repeat (apply Forall_app; split).
  - repeat constructor.
  - destruct (ri =? 0); repeat constructor.
  - apply IH.
Qed.

Lemma rows_weaken (lo lo' hi hi' : nat) (ops : list sheet_op) :
  Forall (fun op => lo <= op_row op < hi) ops -> lo' <= lo -> hi <= hi' ->
  Forall (fun op => lo' <= op_row op < hi') ops.
Proof.
  intros H H1 H2. eapply Forall_impl; [|exact H]. cbn beta. intros op Hop. lia.
Qed.

Lemma excel_table_rows_rows (table_rows : list (list str)) :
  forall row ri ops row',
    excel_table_rows row ri table_rows = (ops, row') ->
    Forall (fun op => row <= op_row op < row + List.length table_rows) ops.
Proof.
  induction table_rows as [|trow rows IH]; intros row ri ops row' H.
  - inversion H; subst. constructor.
  - cbn [excel_table_rows] in H.
    destruct (excel_table_rows (S row) (S ri) rows) as [ops1 r1] eqn:E.
    inversion H; subst. apply Forall_app. split.
    + eapply Forall_impl; [|apply excel_table_row_rows]. cbn beta.
      intros op ->. cbn [List.length]. lia.
    + apply (rows_weaken _ _ _ _ _ (IH _ _ _ _ E)); cbn [List.length]; lia.
Qed.

Lemma excel_list_rows (items : list (nat * str)) :
  forall row ops row',
    excel_list row items = (ops, row') ->
    Forall (fun op => row <= op_row op < row + List.length items) ops.
Proof.
  induction items as [|[indent text] items IH]; intros row ops row' H.
  - inversion H; subst. constructor.
  - cbn [excel_list] in H.
    destruct (excel_list (S row) items) as [ops1 r1] eqn:E.
    inversion H; subst. cbn [app List.length].
    repeat (constructor; [cbn [op_row]; lia|]).
    apply (rows_weaken _ _ _ _ _ (IH _ _ _ E)); lia.
Qed.

Lemma excel_code_rows (code_lines : list str) :
  forall row ops row',
    excel_code row code_lines = (ops, row') ->
    Forall (fun op => row <= op_row op < row + List.length code_lines) ops.
Proof.
  induction code_lines as [|l ls IH]; intros row ops row' H.
  - inversion H; subst. constructor.
  - cbn [excel_code] in H.
    destruct (excel_code (S row) ls) as [ops1 r1] eqn:E.
    inversion H; subst. cbn [app List.length].
    repeat (constructor; [cbn [op_row]; lia|]).
    apply (rows_weaken _ _ _ _ _ (IH _ _ _ E)); lia.
Qed.

Lemma excel_block_rows (row : nat) (block : MDBlock) (ops : list sheet_op)
    (row' : nat) :
  excel_block row block = Some (ops, row') ->
  Forall (fun op => row <= op_row op < row + rows_of block) ops.
Proof.
  unfold excel_block, rows_of.
  destruct block as [k c l]. cbn [b_kind b_content b_level].
  destruct k, c as [t|rows|items]; intro H; try discriminate.
  - inversion H; subst. unfold excel_heading.
    repeat (apply Forall_app; split).
    + repeat (constructor; [cbn [op_row]; lia|]). constructor.
    + destruct (has_heading_fill l); [|constructor].
      cbn. repeat (constructor; [cbn [op_row]; lia|]). constructor.
    + repeat (constructor; [cbn [op_row]; lia|]). constructor.
  - destruct rows as [|trow rows].
    + inversion H; subst. constructor.
    + destruct (excel_table_rows row 0 (trow :: rows)) as [ops1 r1] eqn:E.
      inversion H; subst.
      apply (rows_weaken _ _ _ _ _ (excel_table_rows_rows _ _ _ _ _ E)); lia.
  - inversion H; subst.
    repeat (constructor; [cbn [op_row]; lia|]). constructor.
  - destruct (excel_list row items) as [ops1 r1] eqn:E.
    inversion H; subst.
    apply (rows_weaken _ _ _ _ _ (excel_list_rows _ _ _ _ E)); lia.
  - destruct (excel_code row (split LF t)) as [ops1 r1] eqn:E.
    inversion H; subst.
    apply (rows_weaken _ _ _ _ _ (excel_code_rows _ _ _ _ E)); lia.
  - inversion H; subst. cbn.
    repeat (constructor; [cbn [op_row]; lia|]). constructor.
  - inversion H; subst. cbn.
    repeat (constructor; [cbn [op_row]; lia|]). constructor.
  - inversion H; subst. cbn.
    repeat (constructor; [cbn [op_row]; lia|]). constructor.
Qed.

(** X16: the layout of the sheet.  A block is written at the row that
    the blocks before it leave free -- the first row plus the rows of
    each earlier block: one for a heading, a paragraph and a rule, and
    for a table, a list and a code block one per row, item or line
    and one left empty -- and every request made for the block, of a
    value or of a style, is about one of the rows of that block. *)
Theorem excel_block_position (earlier later : list MDBlock) (block : MDBlock)
    (row : nat) (ops : list sheet_op) (row' : nat) :
  excel_blocks row (earlier ++ block :: later) = Some (ops, row') ->
  let start := row + list_sum (map rows_of earlier) in
  exists ops1 ops_block ops2,
    ops = ops1 ++ ops_block ++ ops2
    /\ excel_block start block = Some (ops_block, start + rows_of block)
    /\ Forall (fun op => start <= op_row op < start + rows_of block) ops_block
    /\ Forall (fun op => op_row op < start) ops1
    /\ Forall (fun op => start + rows_of block <= op_row op) ops2.
Proof.
  revert row ops. induction earlier as [|b earlier IH]; intros row ops H start.
  - cbn [app excel_blocks] in H. subst start. cbn [map list_sum fold_right].
    rewrite Nat.add_0_r.
    destruct (excel_block row block) as [[opsb r1]|] eqn:E1; [|discriminate].
    destruct (excel_blocks r1 later) as [[ops2 r2]|] eqn:E2; [|discriminate].
    inversion H; subst.
    destruct (excel_block_tidy _ _ _ _ E1) as [-> _].
    exists [], opsb, ops2. split; [reflexivity|]. split; [reflexivity|].
    split; [exact (excel_block_rows _ _ _ _ E1)|]. split; [constructor|].
    clear - E2. revert E2. generalize (row + rows_of block) as r.
    revert ops2 row'. induction later as [|b later IH]; intros ops2 r2 r E2.
    + inversion E2; subst. constructor.
    + cbn [excel_blocks] in E2.
      destruct (excel_block r b) as [[o1 r1]|] eqn:E1; [|discriminate].
      destruct (excel_blocks r1 later) as [[o2 r3]|] eqn:E3; [|discriminate].
      inversion E2; subst. apply Forall_app. split.
      * eapply Forall_impl; [|exact (excel_block_rows _ _ _ _ E1)].
        cbn beta. intros op Hop. lia.
      * destruct (excel_block_tidy _ _ _ _ E1) as [-> _].
        eapply Forall_impl; [|exact (IH _ _ _ E3)].
        cbn beta. intros op Hop. lia.
  - cbn [app excel_blocks] in H.
    destruct (excel_block row b) as [[o1 r1]|] eqn:E1; [|discriminate].
    destruct (excel_blocks r1 (earlier ++ block :: later)) as [[o2 r2]|] eqn:E2;
      [|discriminate].
    inversion H; subst.
    destruct (excel_block_tidy _ _ _ _ E1) as [-> _].
    destruct (IH _ _ E2) as (ops1 & opsb & ops2 & -> & Eb & Hb & H1 & H2).
    assert (Es : start = row + rows_of b + list_sum (map rows_of earlier)).
    { subst start.
      change (list_sum (map rows_of (b :: earlier)))
        with (rows_of b + list_sum (map rows_of earlier)). lia. }
    rewrite Es. exists (o1 ++ ops1), opsb, ops2.
    split; [rewrite app_assoc; reflexivity|]. split; [exact Eb|].
    split; [exact Hb|]. split; [|exact H2].
    apply Forall_app. split; [|exact H1].
    eapply Forall_impl; [|exact (excel_block_rows _ _ _ _ E1)].
    cbn beta. intros op Hop. lia.
Qed.

(** *** The cells of a table *)

Lemma excel_table_row_values (row ri : nat) (trow : list str) :
  forall ci r c v,
    In (r, c, v) (written (excel_table_row row ri ci trow))
    <-> exists k text, nth_error trow k = Some text /\ r = row
                       /\ c = ci + k + 1
                       /\ v = text_value (strip_inline_md text).
Proof.
  induction trow as [|t trow IH]; intros ci r c v.
  - cbn [excel_table_row written In]. split; [contradiction|].
    intros (k & text & H & _). destruct k; discriminate H.
  - cbn [excel_table_row app written]. rewrite written_app.
    replace (written (if ri =? 0
                      then [cell_fill row (ci + 1) TABLE_HEADER_FILL;
                            cell_font row (ci + 1) TABLE_HEADER_FONT]
                      else [cell_font row (ci + 1) TABLE_BODY_FONT]))
      with (@nil (nat * nat * value)) by (destruct (ri =? 0); reflexivity).
    cbn [app In]. rewrite IH. split.
    + intros [H|(k & text & Hn & -> & -> & ->)].
      * inversion H; subst. exists 0, t. repeat split. lia.
      * exists (S k), text. repeat split; [exact Hn|lia].
    + intros (k & text & Hn & -> & -> & ->). destruct k as [|k].
      * left. cbn in Hn. inversion Hn; subst. f_equal. f_equal. lia.
      * right. exists k, text. repeat split; [exact Hn|lia].
Qed.

Lemma excel_table_row_fonts (row ri : nat) (trow : list str) :
  forall ci k text,
    nth_error trow k = Some text ->
    In (cell_font row (ci + k + 1)
          (if ri =? 0 then TABLE_HEADER_FONT else TABLE_BODY_FONT))
       (excel_table_row row ri ci trow).
Proof.
  induction trow as [|t trow IH]; intros ci k text H;
    [destruct k; discriminate H|].
  cbn [excel_table_row]. destruct k as [|k].
  - rewrite Nat.add_0_r. apply in_or_app. right. apply in_or_app. left.
    destruct (ri =? 0); cbn; auto.
  - apply in_or_app. right. apply in_or_app. right.
    replace (ci + S k + 1) with (S ci + k + 1) by lia.
    apply (IH (S ci) k text). exact H.
Qed.

Lemma excel_table_rows_values (table_rows : list (list str)) :
  forall row ri ops row' r c v,
    excel_table_rows row ri table_rows = (ops, row') ->
    In (r, c, v) (written ops)
    <-> exists k ci trow text,
          nth_error table_rows k = Some trow /\ nth_error trow ci = Some text
          /\ r = row + k /\ c = ci + 1
          /\ v = text_value (strip_inline_md text).
Proof.
  induction table_rows as [|trow rows IH]; intros row ri ops row' r c v H.
  - inversion H; subst. cbn [written In]. split; [contradiction|].
    intros (k & ci & tr & text & Hk & _). destruct k; discriminate Hk.
  - cbn [excel_table_rows] in H.
    destruct (excel_table_rows (S row) (S ri) rows) as [ops1 r1] eqn:E.
    inversion H; subst. rewrite written_app, in_app_iff.
    rewrite excel_table_row_values, (IH _ _ _ _ r c v E). split.
    + intros [(k & text & Hn & -> & -> & ->)
             |(k & ci & tr & text & Hk & Hn & -> & -> & ->)].
      * exists 0, k, trow, text. repeat split; [exact Hn|lia].
      * exists (S k), ci, tr, text. repeat split; [exact Hk|exact Hn|lia].
    + intros (k & ci & tr & text & Hk & Hn & -> & -> & ->).
      destruct k as [|k].
      * left. cbn in Hk. inversion Hk; subst. exists ci, text.
        repeat split; [exact Hn|lia].
      * right. exists k, ci, tr, text.
        repeat split; [exact Hk|exact Hn|lia].
Qed.

Lemma excel_table_rows_fonts (table_rows : list (list str)) :
  forall row ri ops row' k ci trow text,
    excel_table_rows row ri table_rows = (ops, row') ->
    nth_error table_rows k = Some trow -> nth_error trow ci = Some text ->
    In (cell_font (row + k) (ci + 1)
          (if ri + k =? 0 then TABLE_HEADER_FONT else TABLE_BODY_FONT)) ops.
Proof.
  induction table_rows as [|tr rows IH];
    intros row ri ops row' k ci trow text H Hk Hn;
    [destruct k; discriminate Hk|].
  cbn [excel_table_rows] in H.
  destruct (excel_table_rows (S row) (S ri) rows) as [ops1 r1] eqn:E.
  inversion H; subst. apply in_or_app. destruct k as [|k].
  - left. cbn in Hk. inversion Hk; subst. rewrite !Nat.add_0_r.
    apply (excel_table_row_fonts row ri trow 0 ci text Hn).
  - right. replace (row + S k) with (S row + k) by lia.
    replace (ri + S k) with (S ri + k) by lia.
    apply (IH _ _ _ _ _ _ _ _ E Hk Hn).
Qed.

(** X17: the cells of a table on the sheet.  The cell of index [ci] in
    the row of index [ri] of a table block is written, normalised, to
    the row [ri] below the first row of the block and to column
    [ci + 1]; nothing else is written for the block; and the cells of
    the head row are given the font of a table head, the others the
    font of a table body. *)
Theorem excel_table_cells (table_rows : list (list str)) (level row : nat)
    (ops : list sheet_op) (row' : nat) :
  excel_block row (mkBlock table (Rows table_rows) level) = Some (ops, row') ->
  (forall r c v,
      In (r, c, v) (written ops)
      <-> exists ri ci trow cell_text,
            nth_error table_rows ri = Some trow
            /\ nth_error trow ci = Some cell_text
            /\ r = row + ri /\ c = ci + 1
            /\ v = text_value (strip_inline_md cell_text))
  /\ (forall ri ci trow cell_text,
         nth_error table_rows ri = Some trow ->
         nth_error trow ci = Some cell_text ->
         In (cell_font (row + ri) (ci + 1)
               (if ri =? 0 then TABLE_HEADER_FONT else TABLE_BODY_FONT)) ops).
Proof.
  unfold excel_block. cbn [b_kind b_content].
  destruct table_rows as [|trow rows]; intro H.
  - inversion H; subst. split.
    + intros r c v. cbn [written In]. split; [contradiction|].
      intros (k & ci & tr & text & Hk & _). destruct k; discriminate Hk.
    + intros ri ci tr text Hk. destruct ri; discriminate Hk.
  - destruct (excel_table_rows row 0 (trow :: rows)) as [ops1 r1] eqn:E.
    inversion H; subst. split.
    + intros r c v. apply (excel_table_rows_values _ _ _ _ _ r c v E).
    + intros ri ci tr text Hk Hn.
      apply (excel_table_rows_fonts _ _ _ _ _ ri ci tr text E Hk Hn).
Qed.

(** *** The lines of a code block *)

Lemma excel_code_values (code_lines : list str) :
  forall row ops row',
    excel_code row code_lines = (ops, row') ->
    written ops
    = map (fun p => (fst p, 1, text_value (snd p)))
          (combine (seq row (List.length code_lines)) code_lines).
Proof.
  induction code_lines as [|l ls IH]; intros row ops row' H.
  - inversion H; subst. reflexivity.
  - cbn [excel_code] in H.
    destruct (excel_code (S row) ls) as [ops1 r1] eqn:E.
    inversion H; subst. cbn [app written List.length seq combine map fst snd].
    rewrite (IH _ _ _ E). reflexivity.
Qed.

Lemma rows_of_combine (n : nat) (ls : list str) :
  forall row,
    n = List.length ls ->
    map (fun e : nat * nat * value => fst e)
        (map (fun p : nat * str => (fst p, 1, text_value (snd p)))
             (combine (seq row n) ls))
    = map (fun r => (r, 1)) (seq row n).
Proof.
  revert n. induction ls as [|l ls IH]; intros n row ->; [reflexivity|].
  cbn [List.length seq combine map fst snd]. rewrite IH by reflexivity.
  reflexivity.
Qed.

Lemma texts_of_combine (n : nat) (ls : list str) :
  forall row,
    n = List.length ls ->
    map (fun e : nat * nat * value => text_of (snd e))
        (map (fun p : nat * str => (fst p, 1, text_value (snd p)))
             (combine (seq row n) ls))
    = ls.
Proof.
  revert n. induction ls as [|l ls IH]; intros n row ->; [reflexivity|].
  cbn [List.length seq combine map fst snd text_of].
  rewrite IH by reflexivity. reflexivity.
Qed.

(** X18: a code block on the sheet.  Its lines go to the first column
    of consecutive rows, from the first row of the block on, one row
    left empty after them; they are not normalised: read from top to
    bottom and joined by newlines, the values written are the content
    of the block. *)
Theorem excel_code_verbatim (content : str) (level row : nat)
    (ops : list sheet_op) (row' : nat) :
  excel_block row (mkBlock code (Text content) level) = Some (ops, row') ->
  let n := List.length (split LF content) in
  1 <= n
  /\ map fst (written ops) = map (fun r => (r, 1)) (seq row n)
  /\ join [LF] (map (fun e => text_of (snd e)) (written ops)) = content
  /\ row' = row + n + 1.
Proof.
  unfold excel_block. cbn [b_kind b_content]. intro H. cbv zeta.
  destruct (excel_code row (split LF content)) as [ops1 r1] eqn:E.
  inversion H; subst ops1 row'.
  destruct (excel_code_tidy _ _ _ _ E) as [-> _].
  rewrite (excel_code_values _ _ _ _ E).
  split; [|split; [|split]].
  - pose proof (split_not_nil LF content) as Hs.
    destruct (split LF content); [congruence|cbn; lia].
  - apply rows_of_combine. reflexivity.
  - rewrite texts_of_combine by reflexivity. apply join_split.
  - reflexivity.
Qed.

(** ** The document of [export_to_word] *)

Lemma word_cell_defined (ri ci : nat) (cell_text : str) :
  exists first extra,
    split LF (strip_inline_md cell_text) = first :: extra
    /\ word_cell ri ci cell_text
       = Some ([table_cell ri ci; set_cell_text ri ci first]
               ++ map (cell_add_paragraph ri ci) extra
               ++ [cell_runs_size ri ci 9]
               ++ (if ri =? 0 then [cell_shading ri ci; cell_runs_bold ri ci]
                   else [])).
Proof.
  unfold word_cell. cbv zeta.
  pose proof (split_not_nil LF (strip_inline_md cell_text)) as Hs.
  destruct (split LF (strip_inline_md cell_text)) as [|first extra];
    [congruence|].
  exists first, extra. split; reflexivity.
Qed.

Lemma in_map_cell_add_paragraph (ri ci r c : nat) (extra : list str) :
  ~ In (table_cell r c) (map (cell_add_paragraph ri ci) extra).
Proof.
  induction extra as [|e extra IH]; [intros []|].
  cbn [map In]. intros [H|H]; [discriminate H|exact (IH H)].
Qed.

Lemma word_cell_access (ri ci : nat) (cell_text : str) (ops : list doc_op)
    (r c : nat) :
  word_cell ri ci cell_text = Some ops ->
  In (table_cell r c) ops <-> r = ri /\ c = ci.
Proof.
  destruct (word_cell_defined ri ci cell_text) as (first & extra & _ & E).
  rewrite E. intro H. inversion H; subst. clear H E.
  cbn [app In]. rewrite in_app_iff. split.
  - intros [H|[H|[H|H]]].
    + inversion H; subst. split; reflexivity.
    + discriminate H.
    + exfalso. exact (in_map_cell_add_paragraph _ _ _ _ _ H).
    + cbn [app In] in H. destruct H as [H|H]; [discriminate H|].
      destruct (ri =? 0); cbn [In] in H;
        repeat (destruct H as [H|H]; [discriminate H|]); contradiction.
  - intros [-> ->]. left. reflexivity.
Qed.

Lemma word_table_row_access (ri : nat) (trow : list str) :
  forall ci ops r c,
    word_table_row ri ci trow = Some ops ->
    In (table_cell r c) ops
    <-> r = ri /\ ci <= c /\ c < ci + List.length trow.
Proof.
  induction trow as [|t trow IH]; intros ci ops r c H.
  - inversion H; subst. cbn [In List.length]. split; [contradiction|lia].
  - cbn [word_table_row] in H.
    destruct (word_cell ri ci t) as [o1|] eqn:E1; [|discriminate].
    destruct (word_table_row ri (S ci) trow) as [o2|] eqn:E2; [|discriminate].
    inversion H; subst. rewrite in_app_iff.
    rewrite (word_cell_access _ _ _ _ r c E1), (IH _ _ r c E2).
    cbn [List.length]. lia.
Qed.

Lemma word_table_rows_access (table_rows : list (list str)) :
  forall ri ops r c,
    word_table_rows ri table_rows = Some ops ->
    In (table_cell r c) ops
    <-> exists k trow, nth_error table_rows k = Some trow /\ r = ri + k
                       /\ c < List.length trow.
Proof.
  induction table_rows as [|trow rows IH]; intros ri ops r c H.
  - inversion H; subst. cbn [In]. split; [contradiction|].
    intros (k & tr & Hk & _). destruct k; discriminate Hk.
  - cbn [word_table_rows] in H.
    destruct (word_table_row ri 0 trow) as [o1|] eqn:E1; [|discriminate].
    destruct (word_table_rows (S ri) rows) as [o2|] eqn:E2; [|discriminate].
    inversion H; subst. rewrite in_app_iff.
    rewrite (word_table_row_access _ _ _ _ r c E1), (IH _ _ r c E2). split.
    + intros [(-> & _ & Hc)|(k & tr & Hk & -> & Hc)].
      * exists 0, trow. repeat split; [lia|exact Hc].
      * exists (S k), tr. repeat split; [exact Hk|lia|exact Hc].
    + intros (k & tr & Hk & -> & Hc). destruct k as [|k].
      * left. cbn in Hk. inversion Hk; subst. lia.
      * right. exists k, tr. repeat split; [exact Hk|lia|exact Hc].
Qed.

Lemma num_cols_bound (table_rows : list (list str)) (k : nat)
    (trow : list str) :
  nth_error table_rows k = Some trow ->
  List.length trow <= num_cols table_rows.
Proof.
  intro H. unfold num_cols.
  assert (F : Forall (fun n => n <= list_max (map (@List.length str) table_rows))
                (map (@List.length str) table_rows)).
  { apply list_max_le. apply le_n. }
  rewrite Forall_forall in F. apply F. apply in_map.
  exact (nth_error_In _ _ H).
Qed.

Lemma word_table_rows_defined (table_rows : list (list str)) :
  forall ri, exists ops, word_table_rows ri table_rows = Some ops.
Proof.
  assert (Hrow : forall trow ri ci, exists ops,
               word_table_row ri ci trow = Some ops).
  { induction trow as [|t trow IH]; intros ri ci; [eexists; reflexivity|].
    cbn [word_table_row].
    destruct (word_cell_defined ri ci t) as (f & e & _ & ->).
    destruct (IH ri (S ci)) as (o & ->). eexists; reflexivity. }
  induction table_rows as [|trow rows IH]; intro ri; [eexists; reflexivity|].
  cbn [word_table_rows]. destruct (Hrow trow ri 0) as (o1 & ->).
  destruct (IH (S ri)) as (o2 & ->). eexists; reflexivity.
Qed.

Lemma word_cell_requests (ri ci : nat) (cell_text : str) (ops : list doc_op) :
  word_cell ri ci cell_text = Some ops -> Forall cell_request ops.
Proof.
  destruct (word_cell_defined ri ci cell_text) as (first & extra & _ & E).
  rewrite E. intro H. injection H as <-.
  constructor; [exact I|]. constructor; [exact I|].
  apply Forall_app. split.
  - apply Forall_forall. intros op Hop. apply in_map_iff in Hop.
    destruct Hop as (x & <- & _). exact I.
  - constructor; [exact I|].
    destruct (ri =? 0); repeat (constructor; [exact I|]); constructor.
Qed.

Lemma word_table_row_requests (ri : nat) (trow : list str) :
  forall ci ops, word_table_row ri ci trow = Some ops -> Forall cell_request ops.
Proof.
  induction trow as [|t trow IH]; intros ci ops H.
  - injection H as <-. constructor.
  - cbn [word_table_row] in H.
    destruct (word_cell ri ci t) as [o1|] eqn:E1; [|discriminate].
    destruct (word_table_row ri (S ci) trow) as [o2|] eqn:E2; [|discriminate].
    injection H as <-. apply Forall_app. split.
    + exact (word_cell_requests _ _ _ _ E1).
    + exact (IH _ _ E2).
Qed.

Lemma word_table_rows_requests (table_rows : list (list str)) :
  forall ri ops, word_table_rows ri table_rows = Some ops ->
                 Forall cell_request ops.
Proof.
  induction table_rows as [|trow rows IH]; intros ri ops H.
  - injection H as <-. constructor.
  - cbn [word_table_rows] in H.
    destruct (word_table_row ri 0 trow) as [o1|] eqn:E1; [|discriminate].
    destruct (word_table_rows (S ri) rows) as [o2|] eqn:E2; [|discriminate].
    injection H as <-. apply Forall_app. split.
    + exact (word_table_row_requests _ _ _ _ E1).
    + exact (IH _ _ E2).
Qed.

(** X19: the table of the document is large enough.  For a table block
    the exporter asks for a table of as many rows as the block has and
    as many columns as its longest row, and then reaches exactly the
    cells that the rows of the block hold; each of them lies within
    the table asked for, whatever the lengths of the rows. *)
Theorem word_table_cells_in_range (table_rows : list (list str))
    (level : nat) :
  table_rows <> [] ->
  exists rest,
    word_block (mkBlock table (Rows table_rows) level)
    = Some (add_table (List.length table_rows) (num_cols table_rows) :: rest)
    /\ (forall ri ci,
           In (table_cell ri ci) rest
           <-> exists trow, nth_error table_rows ri = Some trow
                            /\ ci < List.length trow)
    /\ (forall ri ci,
           In (table_cell ri ci) rest ->
           ri < List.length table_rows /\ ci < num_cols table_rows)
    /\ (forall rows cols, ~ In (add_table rows cols) rest).
Proof.
  intro Hne. unfold word_block. cbn [b_kind b_content].
  destruct table_rows as [|trow rows] eqn:Erows; [congruence|].
  rewrite <- Erows. clear Hne.
  destruct (word_table_rows_defined table_rows 0) as (ops & E).
  rewrite E. eexists. split; [reflexivity|].
  assert (Hacc : forall ri ci,
             In (table_cell ri ci)
                ([table_style_grid; table_autofit; table_width_pct 5000]
                 ++ ops ++ [add_paragraph [] false])
             <-> exists trow0, nth_error table_rows ri = Some trow0
                               /\ ci < List.length trow0).
  { intros ri ci. cbn [app In]. rewrite in_app_iff.
    rewrite (word_table_rows_access _ _ _ ri ci E). split.
    - intros [H|[H|[H|[(k & tr & Hk & -> & Hc)|H]]]]; try discriminate H.
      + exists tr. split; [exact Hk|exact Hc].
      + cbn [In] in H. destruct H as [H|[]]. discriminate H.
    - intros (tr & Hk & Hc). right. right. right. left.
      exists ri, tr. repeat split; [exact Hk|exact Hc]. }
  split; [exact Hacc|]. split.
  - intros ri ci H. apply Hacc in H. destruct H as (tr & Hk & Hc). split.
    + apply nth_error_Some. congruence.
    + pose proof (num_cols_bound _ _ _ Hk). lia.
  - intros n m H. cbn [app In] in H.
    destruct H as [H|[H|[H|H]]]; try discriminate H.
    apply in_app_iff in H. destruct H as [H|[H|[]]]; [|discriminate H].
    pose proof (word_table_rows_requests _ _ _ E) as F.
    rewrite Forall_forall in F. exact (F _ H).
Qed.

(** *** The text of a table cell *)

Lemma cell_paragraphs_app (r c : nat) (a b : list doc_op) :
  cell_paragraphs r c (a ++ b) = cell_paragraphs r c a ++ cell_paragraphs r c b.
Proof.
  induction a as [|op a IH]; [reflexivity|].
  destruct op; cbn [app cell_paragraphs]; try exact IH;
    destruct ((_ =? r) && (_ =? c)); cbn [app]; rewrite IH; reflexivity.
Qed.

Lemma cell_paragraphs_extra (ri ci r c : nat) (extra : list str) :
  cell_paragraphs r c (map (cell_add_paragraph ri ci) extra)
  = if (ri =? r) && (ci =? c) then extra else [].
Proof.
  induction extra as [|e extra IH].
  - destruct ((ri =? r) && (ci =? c)); reflexivity.
  - cbn [map cell_paragraphs]. rewrite IH.
    destruct ((ri =? r) && (ci =? c)); reflexivity.
Qed.

Lemma word_cell_paragraphs (ri ci : nat) (cell_text : str)
    (ops : list doc_op) (r c : nat) :
  word_cell ri ci cell_text = Some ops ->
  cell_paragraphs r c ops
  = if (ri =? r) && (ci =? c) then split LF (strip_inline_md cell_text) else [].
Proof.
  destruct (word_cell_defined ri ci cell_text) as (first & extra & Es & E).
  rewrite E. intro H. injection H as <-. rewrite Es.
  cbn [cell_paragraphs]. rewrite cell_paragraphs_app, cell_paragraphs_extra.
  cbn [cell_paragraphs].
  replace (cell_paragraphs r c
             (if ri =? 0 then [cell_shading ri ci; cell_runs_bold ri ci]
              else []))
    with (@nil str) by (destruct (ri =? 0); reflexivity).
  destruct ((ri =? r) && (ci =? c)); [rewrite app_nil_r|]; reflexivity.
Qed.

Lemma word_table_row_paragraphs (ri : nat) (trow : list str) :
  forall ci ops r c,
    word_table_row ri ci trow = Some ops ->
    cell_paragraphs r c ops
    = if (ri =? r) && (ci <=? c)
      then match nth_error trow (c - ci) with
           | Some t => split LF (strip_inline_md t)
           | None => []
           end
      else [].
Proof.
  induction trow as [|t trow IH]; intros ci ops r c H.
  - injection H as <-. cbn [cell_paragraphs].
    destruct ((ri =? r) && (ci <=? c)); [|reflexivity].
    destruct (c - ci); reflexivity.
  - cbn [word_table_row] in H.
    destruct (word_cell ri ci t) as [o1|] eqn:E1; [|discriminate].
    destruct (word_table_row ri (S ci) trow) as [o2|] eqn:E2; [|discriminate].
    injection H as <-. rewrite cell_paragraphs_app.
    rewrite (word_cell_paragraphs _ _ _ _ r c E1), (IH _ _ r c E2).
    destruct (ri =? r); cbn [andb]; [|reflexivity].
    destruct (Nat.eqb_spec ci c) as [->|Hne].
    + rewrite Nat.leb_refl, Nat.sub_diag. cbn [nth_error].
      replace (S c <=? c) with false by (symmetry; apply Nat.leb_gt; lia).
      apply app_nil_r.
    + cbn [app]. destruct (Nat.leb_spec (S ci) c) as [Hle|Hgt].
      * replace (ci <=? c) with true by (symmetry; apply Nat.leb_le; lia).
        replace (c - ci) with (S (c - S ci)) by lia. reflexivity.
      * replace (ci <=? c) with false by (symmetry; apply Nat.leb_gt; lia).
        reflexivity.
Qed.

Lemma word_table_rows_paragraphs (table_rows : list (list str)) :
  forall ri ops r c,
    word_table_rows ri table_rows = Some ops ->
    cell_paragraphs r c ops
    = if ri <=? r
      then match nth_error table_rows (r - ri) with
           | Some trow =>
               match nth_error trow c with
               | Some t => split LF (strip_inline_md t)
               | None => []
               end
           | None => []
           end
      else [].
Proof.
  induction table_rows as [|trow rows IH]; intros ri ops r c H.
  - injection H as <-. cbn [cell_paragraphs].
    destruct (ri <=? r); [|reflexivity]. destruct (r - ri); reflexivity.
  - cbn [word_table_rows] in H.
    destruct (word_table_row ri 0 trow) as [o1|] eqn:E1; [|discriminate].
    destruct (word_table_rows (S ri) rows) as [o2|] eqn:E2; [|discriminate].
    injection H as <-. rewrite cell_paragraphs_app.
    rewrite (word_table_row_paragraphs _ _ _ _ r c E1), (IH _ _ r c E2).
    change (0 <=? c) with true. rewrite Nat.sub_0_r, andb_true_r.
    destruct (Nat.eqb_spec ri r) as [->|Hne].
    + rewrite Nat.leb_refl, Nat.sub_diag. cbn [nth_error].
      replace (S r <=? r) with false by (symmetry; apply Nat.leb_gt; lia).
      apply app_nil_r.
    + cbn [app]. destruct (Nat.leb_spec (S ri) r) as [Hle|Hgt].
      * replace (ri <=? r) with true by (symmetry; apply Nat.leb_le; lia).
        replace (r - ri) with (S (r - S ri)) by lia. reflexivity.
      * replace (ri <=? r) with false by (symmetry; apply Nat.leb_gt; lia).
        reflexivity.
Qed.

(** X20: the text of a table cell in the document.  The paragraphs
    the exporter puts into the cell of a table block -- the text of
    the cell and the paragraphs added to it -- are the lines of the
    normalised cell: joined by newlines they give the normalised
    text, and none of them holds a newline. *)
Theorem word_cell_text (table_rows : list (list str)) (level ri ci : nat)
    (trow : list str) (cell_text : str) (ops : list doc_op) :
  word_block (mkBlock table (Rows table_rows) level) = Some ops ->
  nth_error table_rows ri = Some trow ->
  nth_error trow ci = Some cell_text ->
  join [LF] (cell_paragraphs ri ci ops) = strip_inline_md cell_text
  /\ Forall (fun p => ~ In LF p) (cell_paragraphs ri ci ops).
Proof.
  unfold word_block. cbn [b_kind b_content]. intros H Hr Hc.
  destruct table_rows as [|tr rows] eqn:Erows; [destruct ri; discriminate Hr|].
  rewrite <- Erows in *. clear Erows.
  destruct (word_table_rows 0 table_rows) as [o|] eqn:E; [|discriminate].
  injection H as <-.
  assert (P : cell_paragraphs ri ci (o ++ [add_paragraph [] false])
              = split LF (strip_inline_md cell_text)).
  { rewrite cell_paragraphs_app. cbn [cell_paragraphs].
    rewrite (word_table_rows_paragraphs _ _ _ ri ci E).
    change (0 <=? ri) with true. cbv iota.
    rewrite Nat.sub_0_r, Hr, Hc. apply app_nil_r. }
  cbn [app cell_paragraphs].
  rewrite P. split; [apply join_split|].
  apply Forall_forall. intros p Hp. exact (split_no_sep LF _ p Hp).
Qed.

(** *** Headings and paragraphs *)

Lemma word_block_defined (block : MDBlock) :
  well_formed block ->
  exists ops, word_block block = Some ops /\ Forall heading_level_ok ops.
Proof.
  unfold well_formed, word_block.
  destruct block as [k c l]. cbn [b_kind b_content b_level].
  destruct k, c as [t|rows|items]; intro H; try contradiction.
  - eexists. split; [reflexivity|]. constructor; [|constructor].
    cbn [heading_level_ok]. lia.
  - destruct H as [Hne _]. destruct rows as [|trow rows]; [congruence|].
    destruct (word_table_rows_defined (trow :: rows) 0) as (o & E).
    rewrite E. eexists. split; [reflexivity|].
    repeat (constructor; [exact I|]). apply Forall_app. split.
    + eapply Forall_impl; [|exact (word_table_rows_requests _ _ _ E)].
      intros op. destruct op; cbn; tauto || contradiction.
    + constructor; [exact I|constructor].
  - pose proof (split_not_nil LF (strip_inline_md t)) as Hs.
    destruct (split LF (strip_inline_md t)) as [|first extra]; [congruence|].
    eexists. split; [reflexivity|]. constructor; [exact I|].
    apply Forall_forall. intros op Hop. apply in_map_iff in Hop.
    destruct Hop as (x & <- & _). exact I.
  - eexists. split; [reflexivity|].
    clear H. induction items as [|[indent text] items IH]; [constructor|].
    cbn [flat_map app]. constructor; [exact I|]. constructor; [exact I|].
    exact IH.
  - eexists. split; [reflexivity|]. repeat (constructor; [exact I|]).
    constructor.
  - eexists. split; [reflexivity|]. repeat (constructor; [exact I|]).
    constructor.
Qed.

(** X21: whatever [parse_md] returns, the loop of [export_to_word]
    handles every block of it, and every heading is asked for with a
    level from 1 to 4: the levels 5 and 6 of the parser are lowered to
    4 and no level is 0. *)
Theorem word_heading_levels (fuel : nat) (text : str) (blocks : list MDBlock) :
  parse_md fuel text = Returns blocks ->
  exists ops,
    word_blocks blocks = Some ops
    /\ forall t level, In (add_heading t level) ops -> 1 <= level <= 4.
Proof.
  intro H.
  assert (Hwf : Forall well_formed blocks).
  { unfold parse_md in H.
    apply (parse_loop_well_formed _ _ _ _ _ (Forall_nil _) H). }
  clear H.
  assert (E : exists ops, word_blocks blocks = Some ops
                          /\ Forall heading_level_ok ops).
  { induction Hwf as [|b blocks Hb _ IH].
    - exists []. split; [reflexivity|constructor].
    - destruct (word_block_defined b Hb) as (o1 & E1 & F1).
      destruct IH as (o2 & E2 & F2).
      exists (o1 ++ o2). cbn [word_blocks]. rewrite E1, E2.
      split; [reflexivity|]. apply Forall_app. split; assumption. }
  destruct E as (ops & E & F). exists ops. split; [exact E|].
  intros t level Hin. rewrite Forall_forall in F.
  exact (F _ Hin).
Qed.

Lemma concat_runs (extra : list str) :
  List.concat (map body_text (map (fun extra_line => add_run (LF :: extra_line)) extra))
  = List.concat (map (fun l => LF :: l) extra).
Proof.
  induction extra as [|e extra IH]; [reflexivity|].
  cbn [map List.concat body_text]. rewrite IH. reflexivity.
Qed.

Lemma join_as_concat (first : str) (extra : list str) :
  join [LF] (first :: extra) = first ++ List.concat (map (fun l => LF :: l) extra).
Proof.
  revert first. induction extra as [|e extra IH]; intro first.
  - cbn. rewrite app_nil_r. reflexivity.
  - change (join [LF] (first :: e :: extra))
      with (first ++ [LF] ++ join [LF] (e :: extra)).
    rewrite IH. reflexivity.
Qed.

(** X22: a paragraph in the document.  The exporter adds one paragraph
    and then runs to it, nothing else, and the texts of these, one
    after the other, are the normalised text of the block: the
    newlines that the line-break tags became are kept, each at the
    head of a run. *)
Theorem word_paragraph_text (content : str) (level : nat) :
  exists first runs,
    word_block (mkBlock paragraph (Text content) level)
    = Some (add_paragraph first false :: map add_run runs)
    /\ first ++ List.concat runs = strip_inline_md content
    /\ ~ In LF first
    /\ Forall (fun run => exists l, run = LF :: l /\ ~ In LF l) runs.
Proof.
  unfold word_block. cbn [b_kind b_content]. cbv zeta.
  pose proof (join_split LF (strip_inline_md content)) as J.
  pose proof (split_no_sep LF (strip_inline_md content)) as N.
  pose proof (split_not_nil LF (strip_inline_md content)) as Hs.
  destruct (split LF (strip_inline_md content)) as [|first extra];
    [congruence|].
  exists first, (map (fun l => LF :: l) extra). split; [|split; [|split]].
  - rewrite map_map. reflexivity.
  - rewrite <- join_as_concat. exact J.
  - apply N. left. reflexivity.
  - apply Forall_forall. intros run Hrun. apply in_map_iff in Hrun.
    destruct Hrun as (l & <- & Hl). exists l. split; [reflexivity|].
    apply N. right. exact Hl.
Qed.

(** ** The width of a column *)

Lemma max_len_from_ge (col_cells : list (option value)) :
  forall m, m <= max_len_from m col_cells.
Proof.
  induction col_cells as [|v cells IH]; intro m; [apply le_n|].
  cbn [max_len_from]. etransitivity; [|apply IH].
  destruct (has_value v); [|apply le_n]. destruct v; lia.
Qed.

Lemma max_len_from_value (col_cells : list (option value)) (v : value) :
  forall m, In (Some v) col_cells -> value_len v <= max_len_from m col_cells.
Proof.
  induction col_cells as [|w cells IH]; intros m H; [contradiction|].
  cbn [max_len_from]. destruct H as [->|H]; [|apply IH; exact H].
  etransitivity; [|apply max_len_from_ge].
  destruct v as [t|d t]; cbn [has_value value_len].
  - destruct t; cbn [truthy List.length]; lia.
  - lia.
Qed.

Lemma max_len_from_reached (col_cells : list (option value)) :
  forall m,
    max_len_from m col_cells = m
    \/ exists v, In (Some v) col_cells /\ max_len_from m col_cells = value_len v.
Proof.
  induction col_cells as [|w cells IH]; intro m; [left; reflexivity|].
  cbn [max_len_from]. destruct (has_value w) eqn:Hw.
  - destruct w as [x|]; [|discriminate Hw].
    destruct (IH (Nat.max m (value_len x))) as [E|(v & Hv & E)].
    + rewrite E. destruct (Nat.max_spec m (value_len x)) as [[_ ->]|[_ ->]].
      * right. exists x. split; [left; reflexivity|reflexivity].
      * left. reflexivity.
    + right. exists v. split; [right; exact Hv|exact E].
  - destruct (IH m) as [E|(v & Hv & E)]; [left; exact E|].
    right. exists v. split; [right; exact Hv|exact E].
Qed.

(** X23: the width of a column of the sheet.  It is the length of the
    longest value of the column plus 4, and 60 at most: between 4 and
    60, wide enough for every value of up to 56 characters with 4 to
    spare, and exactly 4 more than some value of the column unless it
    is 4 or 60. *)
Theorem column_width_fits (col_cells : list (option value)) :
  4 <= column_width col_cells <= 60
  /\ (forall v, In (Some v) col_cells ->
                Nat.min (value_len v + 4) 60 <= column_width col_cells)
  /\ (column_width col_cells = 4 \/ column_width col_cells = 60
      \/ exists v, In (Some v) col_cells
                   /\ column_width col_cells = value_len v + 4).
Proof.
  unfold column_width. split; [lia|]. split.
  - intros v Hv. pose proof (max_len_from_value col_cells v 0 Hv). lia.
  - destruct (max_len_from_reached col_cells 0) as [E|(v & Hv & E)].
    + left. rewrite E. reflexivity.
    + destruct (Nat.le_gt_cases (value_len v + 4) 60) as [Hle|Hgt].
      * right. right. exists v. split; [exact Hv|]. rewrite E. lia.
      * right. left. rewrite E. lia.
Qed.

(** ** The texts [strip_inline_md] leaves as they are *)

Lemma spans_shift (r : regex) :
  bol_free r = true -> forall i s n, spans r i s n <-> spans r 0 s n.
Proof.
  induction r as [| |p|gr lo hi p|r1 IH1 r2 IH2|r1 IH1 r2 IH2|x r1 IH1];
    intro Hb; cbn [bol_free] in Hb; try discriminate Hb;
    intros i s n; cbn [spans]; try tauto.
  - apply andb_true_iff in Hb. destruct Hb as [H1 H2]. split.
    + intros (n1 & n2 & -> & S1 & S2). exists n1, n2. split; [reflexivity|].
      split; [apply (IH1 H1 i); exact S1|].
      apply (IH2 H2 (0 + n1)). apply (IH2 H2 (i + n1)). exact S2.
    + intros (n1 & n2 & -> & S1 & S2). exists n1, n2. split; [reflexivity|].
      split; [apply (IH1 H1 i); exact S1|].
      apply (IH2 H2 (i + n1)). apply (IH2 H2 (0 + n1)). exact S2.
  - apply andb_true_iff in Hb. destruct Hb as [H1 H2].
    rewrite (IH1 H1 i), (IH2 H2 i). tauto.
  - apply (IH1 Hb).
Qed.

Lemma spans_le (r : regex) :
  forall i s n, spans r i s n -> n <= List.length s.
Proof.
  induction r as [| |p|gr lo hi p|r1 IH1 r2 IH2|r1 IH1 r2 IH2|x r1 IH1];
    intros i s n H; cbn [spans] in H.
  - destruct H as [_ ->]. lia.
  - destruct H as [-> _]. lia.
  - destruct H as [-> (c & s' & -> & _)]. cbn. lia.
  - lia.
  - destruct H as (n1 & n2 & -> & S1 & S2).
    apply IH1 in S1. apply IH2 in S2. rewrite length_skipn in S2. lia.
  - destruct H as [H|H]; [exact (IH1 _ _ _ H)|exact (IH2 _ _ _ H)].
  - exact (IH1 _ _ _ H).
Qed.

(** A match is a span, and a span gives a match. *)
Lemma match_at_spans (r : regex) (i : nat) (s : str) :
  (forall m, match_at r i s = Some m ->
             exists n, spans r i s n /\ fst m = i + n)
  /\ ((exists n, spans r i s n) -> match_at r i s <> None).
Proof.
  unfold match_at. split.
  - intros m H. apply run_sound in H. destruct H as (n & g' & S & E).
    exists n. split; [exact S|]. injection E as <-. reflexivity.
  - intros [n S]. apply run_complete with (n := n); [exact S|].
    intros g'. discriminate.
Qed.

(** A pattern without the anchor of the beginning matches at a
    position of the text exactly when it matches the rest of the text
    taken alone. *)
Lemma match_at_anywhere (r : regex) (i : nat) (s : str) :
  bol_free r = true -> (match_at r i s = None <-> matches r s = false).
Proof.
  intro Hb. unfold matches, re_match.
  destruct (match_at r i s) as [m|] eqn:Ei; destruct (match_at r 0 s) as [m0|] eqn:E0;
    split; intro H; try reflexivity; try discriminate H; exfalso.
  - apply (proj1 (match_at_spans r i s)) in Ei. destruct Ei as (n & S & _).
    apply (proj2 (match_at_spans r 0 s)); [|exact E0].
    exists n. apply (spans_shift r Hb i). exact S.
  - apply (proj1 (match_at_spans r 0 s)) in E0. destruct E0 as (n & S & _).
    apply (proj2 (match_at_spans r i s)); [|exact Ei].
    exists n. apply (spans_shift r Hb i). exact S.
Qed.

Section Shrinking.

Variables (r : regex) (repl : matched -> str).

(** Every match is replaced by a shorter text. *)
Hypothesis shrinks :
  forall i s m, match_at r i s = Some m ->
                List.length (repl m) < fst m - i /\ fst m - i <= List.length s.

Lemma sub_from_length :
  forall s i k, k <= List.length s ->
                List.length (sub_from r repl i k s) + k <= List.length s.
Proof.
  induction s as [|c s IH]; intros i k Hk.
  - cbn in *. lia.
  - cbn [sub_from]. destruct k as [|k].
    + destruct (match_at r i (c :: s)) as [m|] eqn:E.
      * destruct (shrinks _ _ _ E) as [H1 H2].
        destruct (fst m - i) as [|n]; [lia|].
        rewrite length_app. cbn [List.length] in *.
        pose proof (IH (S i) n ltac:(lia)). lia.
      * cbn [List.length]. pose proof (IH (S i) 0 ltac:(lia)). lia.
    + cbn [List.length] in *. pose proof (IH (S i) k ltac:(lia)). lia.
Qed.

(** A substitution that keeps the length met no match. *)
Lemma sub_from_same_length :
  forall s i,
    List.length (sub_from r repl i 0 s) = List.length s ->
    forall n, n < List.length s -> match_at r (i + n) (skipn n s) = None.
Proof.
  induction s as [|c s IH]; intros i H n Hn; [cbn in Hn; lia|].
  cbn [sub_from] in H. destruct (match_at r i (c :: s)) as [m|] eqn:E.
  - exfalso. destruct (shrinks _ _ _ E) as [H1 H2].
    destruct (fst m - i) as [|k]; [lia|].
    rewrite length_app in H. cbn [List.length] in *.
    pose proof (sub_from_length s (S i) k ltac:(lia)). lia.
  - cbn [List.length] in H. destruct n as [|n].
    + rewrite Nat.add_0_r. exact E.
    + cbn [skipn]. replace (i + S n) with (S i + n) by lia.
      apply IH; [lia|]. cbn [List.length] in Hn. lia.
Qed.

End Shrinking.

(** Where no match begins the substitution copies the text. *)
Lemma sub_from_no_match (r : regex) (repl : matched -> str) :
  forall s i,
    (forall n, n < List.length s -> match_at r (i + n) (skipn n s) = None) ->
    sub_from r repl i 0 s = s.
Proof.
  induction s as [|c s IH]; intros i H; [reflexivity|].
  cbn [sub_from]. pose proof (H 0 ltac:(cbn; lia)) as H0.
  rewrite Nat.add_0_r in H0. cbn [skipn] in H0. rewrite H0. f_equal.
  apply IH. intros n Hn. specialize (H (S n) ltac:(cbn; lia)).
  cbn [skipn] in H. replace (S i + n) with (i + S n) by lia. exact H.
Qed.

(** The characters of the result of a substitution are those of the
    text and of the replacements. *)
Lemma sub_from_chars (r : regex) (repl : matched -> str) (P : ascii -> bool) :
  (forall i s m, match_at r i s = Some m -> forallb P s = true ->
                 forallb P (repl m) = true) ->
  forall s i k, forallb P s = true -> forallb P (sub_from r repl i k s) = true.
Proof.
  intro Hrepl. induction s as [|c s IH]; intros i k H; [reflexivity|].
  pose proof H as Hcs.
  cbn [forallb] in H. apply andb_true_iff in H. destruct H as [Hc Hs].
  cbn [sub_from]. destruct k as [|k]; [|apply IH; exact Hs].
  destruct (match_at r i (c :: s)) as [m|] eqn:E.
  - pose proof (Hrepl _ _ _ E Hcs) as Hm.
    destruct (fst m - i) as [|n]; rewrite forallb_app, Hm; cbn [andb forallb].
    + rewrite Hc. cbn [andb]. apply IH. exact Hs.
    + apply IH. exact Hs.
  - cbn [forallb]. rewrite Hc. cbn [andb]. apply IH. exact Hs.
Qed.

Lemma br_shrinks (i : nat) (s : str) (m : matched) :
  match_at re_br i s = Some m ->
  List.length [LF] < fst m - i /\ fst m - i <= List.length s.
Proof.
  intro H. apply (proj1 (match_at_spans re_br i s)) in H.
  destruct H as (n & S & ->). pose proof (spans_le _ _ _ _ S) as Hle.
  replace (i + n - i) with n by lia. split; [|exact Hle].
  unfold re_br, lit, star, opt in S. cbn [spans] in S.
  destruct S as (n1 & n2 & -> & [-> _] & n3 & n4 & -> & [-> _]
                 & n5 & n6 & -> & [-> _] & n7 & n8 & -> & _
                 & n9 & n10 & -> & _ & [-> _]).
  cbn [List.length]. lia.
Qed.

(** The shape of a match of the anchor pattern: the opening tag with
    its attributes, the enclosed text, which is the group, and the
    closing tag. *)
Lemma anchor_match_shape (i : nat) (s : str) (m : matched) :
  match_at re_anchor i s = Some m ->
  exists a sp attrs inner a2 rest,
    s = "<"%char :: a :: sp :: attrs ++ ">"%char :: inner
          ++ "<"%char :: "/"%char :: a2 :: ">"%char :: rest
    /\ m = (i + (3 + (List.length attrs + S (List.length inner + 4))),
            [(1, inner)]).
Proof.
  intro H. unfold match_at, re_anchor, lazy_star in H.
  rewrite run_cat in H.
  destruct s as [|c0 s]; [discriminate H|].
  cbn [run lit] in H.
  destruct (chr_is "<"%char c0) eqn:E0; [|discriminate H].
  apply chr_is_eq in E0. subst c0.
  destruct s as [|a s]; [discriminate H|].
  destruct (nocase "a"%char "A"%char a) eqn:Ea; [|discriminate H].
  destruct s as [|sp s]; [discriminate H|].
  destruct (isspace sp) eqn:Esp; [|discriminate H].
  apply rep_sound in H. destruct H as (n1 & _ & _ & Hn1 & _ & H).
  destruct (skipn n1 s) as [|c1 t2] eqn:Es1; [discriminate H|].
  destruct (chr_is ">"%char c1) eqn:E1; [|discriminate H].
  apply chr_is_eq in E1. subst c1.
  apply rep_sound in H. destruct H as (n2 & _ & _ & Hn2 & _ & H).
  destruct (skipn n2 t2) as [|c2 t3] eqn:Es2; [discriminate H|].
  destruct (chr_is "<"%char c2) eqn:E2; [|discriminate H].
  apply chr_is_eq in E2. subst c2.
  destruct t3 as [|c3 t3]; [discriminate H|].
  destruct (chr_is "/"%char c3) eqn:E3; [|discriminate H].
  apply chr_is_eq in E3. subst c3.
  destruct t3 as [|a2 t3]; [discriminate H|].
  destruct (nocase "a"%char "A"%char a2) eqn:Ea2; [|discriminate H].
  destruct t3 as [|c4 rest]; [discriminate H|].
  destruct (chr_is ">"%char c4) eqn:E4; [|discriminate H].
  apply chr_is_eq in E4. subst c4.
  injection H as <-.
  exists a, sp, (firstn n1 s), (firstn n2 t2), a2, rest.
  rewrite !length_firstn, !Nat.min_l by assumption.
  split.
  - do 3 f_equal. rewrite <- (firstn_skipn n1 s) at 1. f_equal.
    rewrite Es1. f_equal. rewrite <- (firstn_skipn n2 t2) at 1. f_equal.
    exact Es2.
  - replace (i + n1 + n2 - (i + n1)) with n2 by lia. f_equal. lia.
Qed.

Lemma anchor_shrinks (i : nat) (s : str) (m : matched) :
  match_at re_anchor i s = Some m ->
  List.length (group 1 m) < fst m - i /\ fst m - i <= List.length s.
Proof.
  intro H. apply anchor_match_shape in H.
  destruct H as (a & sp & attrs & inner & a2 & rest & -> & ->).
  unfold group. cbn [snd fst lookup Nat.eqb]. cbn [List.length].
  rewrite !length_app. cbn [List.length]. rewrite !length_app.
  cbn [List.length]. lia.
Qed.

Lemma anchor_chars (P : ascii -> bool) (i : nat) (s : str) (m : matched) :
  match_at re_anchor i s = Some m -> forallb P s = true ->
  forallb P (group 1 m) = true.
Proof.
  intros H HP. apply anchor_match_shape in H.
  destruct H as (a & sp & attrs & inner & a2 & rest & -> & ->).
  unfold group. cbn [snd lookup Nat.eqb].
  cbn [forallb] in HP. rewrite !forallb_app in HP. cbn [forallb] in HP.
  rewrite !forallb_app in HP.
  repeat (apply andb_true_iff in HP; destruct HP as [? HP]).
  repeat match goal with
         | H : _ && _ = true |- _ => apply andb_true_iff in H; destruct H
         end.
  assumption.
Qed.

Lemma no_md_delimiter_lacks (a : ascii) (t : str) :
  md_delimiter a = true -> no_md_delimiter t = true ->
  forallb (fun c => negb (chr_is a c)) t = true.
Proof.
  intros Ha H. unfold no_md_delimiter in H. rewrite forallb_forall in H.
  apply forallb_forall. intros c Hc. specialize (H c Hc).
  apply negb_true_iff. apply negb_true_iff in H. unfold chr_is.
  apply Ascii.eqb_neq. intros ->. congruence.
Qed.

(** On a text without markdown delimiter the six rules between the
    first and the last do nothing. *)
Lemma strip_inline_md_tags_only (t : str) :
  no_md_delimiter t = true ->
  no_md_delimiter (re_sub re_br (fun _ => [LF]) t) = true
  /\ strip_inline_md t
     = re_sub re_anchor (group 1) (re_sub re_br (fun _ => [LF]) t).
Proof.
  intro H.
  assert (Hb : no_md_delimiter (re_sub re_br (fun _ => [LF]) t) = true).
  { unfold no_md_delimiter, re_sub. apply sub_from_chars; [|exact H].
    intros. reflexivity. }
  split; [exact Hb|].
  unfold strip_inline_md. cbv zeta.
  set (u := re_sub re_br (fun _ => [LF]) t) in *.
  unfold re_bold, re_bold_alt, re_italic, re_italic_alt, re_code, re_link.
  rewrite (re_sub_lacking "*"%char _ _ u)
    by (apply no_md_delimiter_lacks; [reflexivity|exact Hb]).
  rewrite (re_sub_lacking "_"%char _ _ u)
    by (apply no_md_delimiter_lacks; [reflexivity|exact Hb]).
  rewrite (re_sub_lacking "*"%char _ _ u)
    by (apply no_md_delimiter_lacks; [reflexivity|exact Hb]).
  rewrite (re_sub_lacking "_"%char _ _ u)
    by (apply no_md_delimiter_lacks; [reflexivity|exact Hb]).
  rewrite (re_sub_lacking "`"%char _ _ u)
    by (apply no_md_delimiter_lacks; [reflexivity|exact Hb]).
  rewrite (re_sub_lacking "["%char _ _ u)
    by (apply no_md_delimiter_lacks; [reflexivity|exact Hb]).
  reflexivity.
Qed.

(** [strip_inline_md] keeps a text free of markdown delimiters. *)
Lemma strip_inline_md_no_md_delimiter (t : str) :
  no_md_delimiter t = true -> no_md_delimiter (strip_inline_md t) = true.
Proof.
  intro H. destruct (strip_inline_md_tags_only t H) as [Hb ->].
  unfold no_md_delimiter, re_sub. apply sub_from_chars; [|exact Hb].
  intros i s m Hm Hs. exact (anchor_chars _ i s m Hm Hs).
Qed.

Lemma tag_free_spec (t : str) :
  tag_free t = true
  <-> forall n, n < List.length t ->
                matches re_br (skipn n t) = false
                /\ matches re_anchor (skipn n t) = false.
Proof.
  induction t as [|c t IH].
  - split; [intros _ n Hn; cbn in Hn; lia|reflexivity].
  - cbn [tag_free]. rewrite !andb_true_iff, !negb_true_iff, IH. split.
    + intros [[Hb Ha] Ht] n Hn. destruct n as [|n].
      * split; assumption.
      * cbn [skipn]. apply Ht. cbn [List.length] in Hn. lia.
    + intro H. split.
      * exact (H 0 ltac:(cbn; lia)).
      * intros n Hn. exact (H (S n) ltac:(cbn; lia)).
Qed.

(** The texts without markdown delimiter that [strip_inline_md] leaves
    as they are: those without a tag. *)
Lemma strip_inline_md_fixed_iff (t : str) :
  no_md_delimiter t = true ->
  (strip_inline_md t = t <-> tag_free t = true).
Proof.
  intro H. destruct (strip_inline_md_tags_only t H) as [Hb E]. rewrite E.
  rewrite tag_free_spec. unfold re_sub in *. split.
  - intro Hfix.
    assert (L1 : List.length (sub_from re_br (fun _ => [LF]) 0 0 t)
                 <= List.length t).
    { pose proof (sub_from_length re_br (fun _ => [LF])
                    (fun i s m Hm => br_shrinks i s m Hm) t 0 0 ltac:(lia)).
      lia. }
    assert (L2 : List.length
                   (sub_from re_anchor (group 1) 0 0
                      (sub_from re_br (fun _ => [LF]) 0 0 t))
                 <= List.length (sub_from re_br (fun _ => [LF]) 0 0 t)).
    { pose proof (sub_from_length re_anchor (group 1) anchor_shrinks
                    (sub_from re_br (fun _ => [LF]) 0 0 t) 0 0 ltac:(lia)).
      lia. }
    assert (Lb : List.length (sub_from re_br (fun _ => [LF]) 0 0 t)
                 = List.length t).
    { rewrite Hfix in L2. lia. }
    pose proof (sub_from_same_length re_br (fun _ => [LF])
                  (fun i s m Hm => br_shrinks i s m Hm) t 0 Lb) as Nb.
    assert (Eb : sub_from re_br (fun _ => [LF]) 0 0 t = t).
    { apply sub_from_no_match. exact Nb. }
    rewrite Eb in Hfix.
    pose proof (sub_from_same_length re_anchor (group 1) anchor_shrinks t 0
                  (f_equal (@List.length ascii) Hfix)) as Na.
    intros n Hn. split.
    + apply (match_at_anywhere re_br (0 + n)); [reflexivity|].
      apply Nb. exact Hn.
    + apply (match_at_anywhere re_anchor (0 + n)); [reflexivity|].
      apply Na. exact Hn.
  - intro Hfree.
    assert (Eb : sub_from re_br (fun _ => [LF]) 0 0 t = t).
    { apply sub_from_no_match. intros n Hn.
      apply (match_at_anywhere re_br (0 + n)); [reflexivity|].
      apply (Hfree n Hn). }
    rewrite Eb. apply sub_from_no_match. intros n Hn.
    apply (match_at_anywhere re_anchor (0 + n)); [reflexivity|].
    apply (Hfree n Hn).
Qed.

Lemma plain_tag_free (t : str) : plain t = true -> tag_free t = true.
Proof.
  intro H. apply tag_free_spec. intros n Hn.
  assert (Hq : forall r, (forall i u, may_start u = false -> match_at r i u = None) ->
                         matches r (skipn n t) = false).
  { intros r Hr. unfold matches, re_match. rewrite Hr; [reflexivity|].
    assert (Hp : plain (skipn n t) = true).
    { unfold plain in *. rewrite forallb_forall in H. apply forallb_forall.
      intros c Hc. apply H. eapply In_skipn. exact Hc. }
    apply plain_quiet in Hp. destruct (skipn n t) as [|c u]; [reflexivity|].
    cbn [quiet] in Hp. apply andb_true_iff in Hp. destruct Hp as [Hp _].
    apply negb_true_iff in Hp. exact Hp. }
  split; [exact (Hq _ inert_br)|exact (Hq _ inert_anchor)].
Qed.

(** C9, as amended: on an input without markdown delimiter a second
    pass of [strip_inline_md] changes nothing exactly when the first
    pass left no tag behind, that is, when no position of its result
    begins a line-break tag or an anchor element; in particular when
    its result has none of the characters star, underscore, backtick,
    opening bracket and opening angle, as for ["a<br>b"]. *)
Theorem strip_inline_md_idempotent_iff (s : str) :
  no_md_delimiter s = true ->
  (strip_inline_md (strip_inline_md s) = strip_inline_md s
   <-> tag_free (strip_inline_md s) = true)
  /\ (plain (strip_inline_md s) = true ->
      strip_inline_md (strip_inline_md s) = strip_inline_md s).
Proof.
  intro H.
  pose proof (strip_inline_md_no_md_delimiter s H) as Hn.
  pose proof (strip_inline_md_fixed_iff (strip_inline_md s) Hn) as Hiff.
  split; [exact Hiff|].
  intro Hp. apply Hiff. apply plain_tag_free. exact Hp.
Qed.

(** [table_recognised_iff] at the head line of the table of the
    specification, and at the single line ["a|b"]. *)
Lemma table_recognised_iff_witness :
  (exists j rows,
      turn [py "| A | B |"; py "| - | - |"; py "| 1 | 2 |"] 0 (py "| A | B |")
      = Ok (j, [mkBlock table (Rows rows) 0]))
  /\ in_para [py "a|b"] 0 (py "a|b") = true
  /\ turn [py "a|b"] 0 (py "a|b")
     = Ok (1, [mkBlock paragraph (Text (py "a|b")) 0]).
Proof.
  split.
  - apply (proj1 (table_recognised_iff
                    [py "| A | B |"; py "| - | - |"; py "| 1 | 2 |"] 0
                    (py "| A | B |"))).
    split; [repeat split; reflexivity|]. split; [reflexivity|].
    exists (py "| - | - |"). split; [reflexivity|].
    exists [PIPE], (py " - | - "), []. repeat split; try reflexivity.
    + right. reflexivity.
    + discriminate.
  - apply (proj2 (table_recognised_iff [py "a|b"] 0 (py "a|b"))
                 eq_refl eq_refl eq_refl); [|reflexivity].
    intro H. simpl in H.
    repeat (destruct H as [H|H]; [discriminate|]). exact H.
Defined.

(** ** The theorems at concrete inputs *)

(** [table_rows_from_trimmed_lines] at a table with an indented row. *)
Lemma table_rows_from_trimmed_lines_witness :
  let lines := [py "| A | B |"; py "| - | - |"; py "  | 1 | 2 |"] in
  let b := mkBlock table (Rows [[py "A"; py "B"]; [py "1"; py "2"]]) 0 in
  nth_error lines 0 = Some (py "| A | B |")
  /\ turn lines 0 (py "| A | B |") = Ok (3, [b])
  /\ b_kind b = table
  /\ 0 + 2 <= 3
  /\ b_content b
     = Rows (map (fun l => row_as_worded (strip l))
                 (py "| A | B |" :: slice lines (0 + 2) 3)).
Proof.
  intros lines b.
  split; [reflexivity|]. split; [reflexivity|]. split; [reflexivity|].
  apply (proj1 table_rows_from_trimmed_lines lines 0 (py "| A | B |") 3 b);
    reflexivity.
Defined.

(** [fence_opens_code_block] at a fence that holds a heading-like line
    and a blank line. *)
Lemma fence_opens_code_block_witness :
  let lines := [py "```"; py "# not a heading"; py ""; py "```"; py "x"] in
  nth_error lines 0 = Some (py "```")
  /\ is_fence (py "```") = true
  /\ exists j,
      0 < j /\ j <= List.length lines
      /\ (forall k l, 0 < k -> k < j -> nth_error lines k = Some l ->
                      is_fence l = false)
      /\ (forall l, nth_error lines j = Some l -> is_fence l = true)
      /\ turn lines 0 (py "```")
         = Ok (j + 1,
               [mkBlock code (Text (join [LF] (slice lines (0 + 1) j))) 0]).
Proof.
  intro lines. split; [reflexivity|]. split; [reflexivity|].
  apply (fence_opens_code_block lines 0 (py "```")); reflexivity.
Defined.

(** [list_block_has_one_style] at the list example of the
    specification. *)
Lemma list_block_has_one_style_witness :
  let lines := [py "- a"; py "- b"; py "1. c"] in
  let b := mkBlock list_ (Items [(0, py "a"); (0, py "b")]) 0 in
  (nth_error lines 0 = Some (py "- a")
   /\ turn lines 0 (py "- a") = Ok (2, [b])
   /\ b_kind b = list_)
  /\ (0 < 2 /\ 2 <= List.length lines
      /\ exists s,
          b_content b = Items (map (list_item s) (slice lines 0 2))
          /\ (forall k l, 0 <= k -> k < 2 -> nth_error lines k = Some l ->
                          matches (start_of s) l = true)
          /\ (forall l, nth_error lines 2 = Some l ->
                        matches (start_of s) l = false))
  /\ (matches re_ol (py "1. c") = true
      /\ table_head (py "1. c") lines 2 = false
      /\ exists items,
          [mkBlock list_ (Items [(0, py "c")]) 0]
          = [mkBlock list_ (Items (list_item ordered (py "1. c") :: items)) 0]).
Proof.
  intros lines b.
  split; [repeat split; reflexivity|]. split.
  - apply (proj1 list_block_has_one_style lines 0 (py "- a") 2 b); reflexivity.
  - split; [reflexivity|]. split; [reflexivity|].
    apply (proj1 (proj2 (proj2 list_block_has_one_style))
                 lines 2 (py "1. c") 3); reflexivity.
Defined.

(** [first_matching_rule_wins] at a line that is both a list item and
    the head of a table, and at ["- 3. item"]. *)
Lemma first_matching_rule_wins_witness :
  let lines := [py "- a | b"; py "|-|"] in
  (truthy (strip (py "- a | b")) = true
   /\ matches re_ul (py "- a | b") = true
   /\ first_match lines 0 (py "- a | b") = rule_table
   /\ turn lines 0 (py "- a | b") = consume lines 0 (py "- a | b") rule_table)
  /\ (nth_error [py "- 3. item"] 0 = Some (py "- 3. item")
      /\ turn [py "- 3. item"] 0 (py "- 3. item")
         = Ok (1, [mkBlock list_ (Items [(0, py "3. item")]) 0])
      /\ exists items,
          [mkBlock list_ (Items [(0, py "3. item")]) 0]
          = [mkBlock list_ (Items ((0, py "3. item") :: items)) 0]).
Proof.
  intro lines. split.
  - split; [reflexivity|]. split; [reflexivity|]. split; [reflexivity|].
    apply (proj1 (proj2 first_matching_rule_wins) lines 0 (py "- a | b")).
    reflexivity.
  - split; [reflexivity|]. split; [reflexivity|].
    apply (proj2 (proj2 (proj2 (proj2 first_matching_rule_wins)
                               [py "- 3. item"] 0)) 1); reflexivity.
Defined.

(** [paragraph_stops_before_constructs] at a paragraph of two lines
    with blanks around them, before a heading: the content is
    ["one two"]. *)
Lemma paragraph_stops_before_constructs_witness :
  let lines := [py "  one "; py " two"; py "# Heading"] in
  nth_error lines 0 = Some (py "  one ")
  /\ truthy (strip (py "  one ")) = true
  /\ first_match lines 0 (py "  one ") = rule_paragraph
  /\ (exists j,
        0 <= j /\ j <= List.length lines
        /\ (forall k l, 0 <= k -> k < j -> nth_error lines k = Some l ->
                        truthy (strip l) = true
                        /\ _is_special_line l lines k = false)
        /\ (forall l, nth_error lines j = Some l ->
                      truthy (strip l) = false
                      \/ _is_special_line l lines j = true)
        /\ turn lines 0 (py "  one ")
           = Ok (j, if 0 <? j
                    then [mkBlock paragraph
                            (Text (spaced (map strip (slice lines 0 j)))) 0]
                    else []))
  /\ turn lines 0 (py "  one ")
     = Ok (2, [mkBlock paragraph (Text (py "one two")) 0])
  /\ spaced (map strip (slice lines 0 2)) = py "one two"
  /\ first_match lines 2 (py "# Heading") <> rule_paragraph
  /\ _is_special_line (py "# Heading") lines 2 = true.
Proof.
  intro lines.
  split; [reflexivity|]. split; [reflexivity|]. split; [reflexivity|]. split.
  - apply (proj1 paragraph_stops_before_constructs lines 0 (py "  one "));
      reflexivity.
  - split; [reflexivity|]. split; [reflexivity|]. split; [discriminate|].
    apply (proj1 (proj2 paragraph_stops_before_constructs) lines 2
             (py "# Heading")).
    discriminate.
Defined.

(** [bare_anchor_is_kept] at ["<a>home</a>"]. *)
Lemma bare_anchor_is_kept_witness :
  plain (py "home") = true
  /\ strip_inline_md (py "<a>" ++ py "home" ++ py "</a>")
     = py "<a>" ++ py "home" ++ py "</a>".
Proof.
  split; [reflexivity|].
  apply (proj2 bare_anchor_is_kept (py "home")). reflexivity.
Defined.

(** [parse_md_returns_on_well_marked] at a text of five kinds of
    lines. *)
Lemma parse_md_returns_on_well_marked_witness :
  let text := py "# T\n\n- a\n1. b\ntext" in
  forallb well_marked (split LF text) = true
  /\ exists blocks,
      forall fuel, List.length (split LF text) < fuel ->
                   parse_md fuel text = Returns blocks.
Proof.
  intro text. split; [reflexivity|].
  apply (parse_md_returns_on_well_marked text). reflexivity.
Defined.

Lemma lone_blank_ends_blank (l : str) :
  lone_blank l -> isspace (last l LF) = true.
Proof.
  intros (m & w & _ & Hw & ->). rewrite last_last. exact Hw.
Qed.

(** [parse_md_returns_without_lone_blanks] at ["## Title"]. *)
Lemma parse_md_returns_without_lone_blanks_witness :
  (forall l, In l (split LF (py "## Title")) -> ~ lone_blank l)
  /\ exists blocks,
      forall fuel, List.length (split LF (py "## Title")) < fuel ->
                   parse_md fuel (py "## Title") = Returns blocks.
Proof.
  assert (H : forall l, In l (split LF (py "## Title")) -> ~ lone_blank l).
  { intros l [<-|[]] Hl. apply lone_blank_ends_blank in Hl. discriminate. }
  split; [exact H|].
  apply (parse_md_returns_without_lone_blanks (py "## Title") H).
Defined.

(** [turn_stalls_iff] at the line ["# "]. *)
Lemma turn_stalls_iff_witness :
  nth_error [py "# "] 0 = Some (py "# ")
  /\ (exists bs, turn [py "# "] 0 (py "# ") = Ok (0, bs))
  /\ forall fuel blocks, parse_loop fuel [py "# "] 0 blocks = OutOfFuel.
Proof.
  split; [reflexivity|].
  assert (H : exists bs, turn [py "# "] 0 (py "# ") = Ok (0, bs)).
  { apply (proj1 (turn_stalls_iff [py "# "] 0 (py "# ") eq_refl)).
    repeat split; reflexivity. }
  split; [exact H|].
  exact (proj2 (turn_stalls_iff [py "# "] 0 (py "# ") eq_refl) H).
Defined.

(** [turn_monotone] at an unterminated fence, where the cursor ends one
    past the last line. *)
Lemma turn_monotone_witness :
  let lines := [py "```"; py "x"] in
  nth_error lines 0 = Some (py "```")
  /\ turn lines 0 (py "```") = Ok (3, [mkBlock code (Text (py "x")) 0])
  /\ 0 <= 3 /\ 3 <= List.length lines + 1.
Proof.
  intro lines. split; [reflexivity|]. split; [reflexivity|].
  apply (turn_monotone lines 0 (py "```") 3 [mkBlock code (Text (py "x")) 0]);
    reflexivity.
Defined.


(** [turn_raises_iff] at a list whose second item is empty. *)
Lemma turn_raises_iff_witness :
  exists e, turn [py "- a"; py "- "] 0 (py "- a") = Error e.
Proof.
  apply (proj2 (turn_raises_iff [py "- a"; py "- "] 0 (py "- a"))).
  split; [reflexivity|]. exists unordered. split; [reflexivity|].
  change (Exists (fun l => re_match re_ul_item l = None) [py "- a"; py "- "]).
  apply Exists_cons_tl, Exists_cons_hd. reflexivity.
Defined.

(** [returned_blocks_cover_lines] at a heading, a blank line and a
    paragraph of two lines. *)
Lemma returned_blocks_cover_lines_witness :
  let lines := [py "# T"; py ""; py "a"; py "b"] in
  let blocks := [mkBlock heading (Text (py "T")) 1;
                 mkBlock paragraph (Text (py "a b")) 0] in
  parse_loop 5 lines 0 [] = Returns blocks
  /\ exists bs, blocks = [] ++ bs /\ covers lines 0 bs.
Proof.
  intros lines blocks. split; [reflexivity|].
  apply (returned_blocks_cover_lines lines 5 0 [] blocks). reflexivity.
Defined.

(** ** The further theorems at concrete inputs *)

(** [fenced_body_is_kept] at a fence that holds an empty line and a
    line that looks like a heading. *)
Lemma fenced_body_is_kept_witness :
  parse_md 2 (py "```python\nx = 1\n\n# not a heading\n```")
  = Returns [mkBlock code (Text (py "x = 1\n\n# not a heading")) 0].
Proof.
  apply (fenced_body_is_kept (py "```python") (py "```")
           (py "x = 1\n\n# not a heading") 2).
  - reflexivity.
  - vm_compute. intuition discriminate.
  - reflexivity.
  - vm_compute. intuition discriminate.
  - intros l Hl. vm_compute in Hl.
    destruct Hl as [<-|[<-|[<-|[]]]]; reflexivity.
  - lia.
Defined.

(** [parse_md_blocks_well_formed] at a heading, a table, a list and a
    rule. *)
Lemma parse_md_blocks_well_formed_witness :
  Forall well_formed
    [mkBlock heading (Text (py "T")) 1;
     mkBlock table (Rows [[py "a"; py "b"]; [py "1"; py "2"]]) 0;
     mkBlock list_ (Items [(0, py "x")]) 0;
     mkBlock hr (Text []) 0].
Proof.
  apply (parse_md_blocks_well_formed 10
           (py "# T\na|b\n-|-\n1|2\n\n- x\n---")).
  reflexivity.
Defined.

(** [table_row_cells] at a row of three cells, one of them empty. *)
Lemma table_row_cells_witness :
  _parse_table_row (py "|a b||c|") = [py "a b"; py ""; py "c"].
Proof.
  apply (proj2 table_row_cells [py "a b"; py ""; py "c"]).
  - discriminate.
  - intros c Hc. vm_compute in Hc.
    destruct Hc as [<-|[<-|[<-|[]]]]; vm_compute; intuition discriminate.
Defined.

(** [line_break_becomes_newline] at an upper-case tag with a blank and
    a slash. *)
Lemma line_break_becomes_newline_witness :
  strip_inline_md (py "one<BR />two") = py "one\ntwo".
Proof.
  apply (line_break_becomes_newline (py "one") (py "two") (py " ") (py "/")
           "B"%char "R"%char); try reflexivity.
  right. reflexivity.
Defined.

(** [span_delimiters_removed] at a bold span. *)
Lemma span_delimiters_removed_witness :
  strip_inline_md (py "a **b c** d") = py "a b c d".
Proof.
  apply (span_delimiters_removed (py "**") (py "a ") (py "b c") (py " d"));
    try reflexivity.
  - left. reflexivity.
  - discriminate.
  - vm_compute. intuition discriminate.
Defined.

(** [link_becomes_label] at a link between two words. *)
Lemma link_becomes_label_witness :
  strip_inline_md (py "see [the page](http://x.org/a) now")
  = py "see the page now".
Proof.
  apply (link_becomes_label (py "see ") (py "the page") (py "http://x.org/a")
           (py " now")); try reflexivity; try discriminate;
    vm_compute; intuition discriminate.
Defined.

(** [anchor_becomes_inner] at an upper-case element with an attribute. *)
Lemma anchor_becomes_inner_witness :
  strip_inline_md (py "see <A href=x>here</a>.") = py "see here.".
Proof.
  apply (anchor_becomes_inner (py "see ") (py "href=x") (py "here") (py ".")
           "A"%char "a"%char " "%char); try reflexivity;
    vm_compute; intuition discriminate.
Defined.

(** [excel_values_written_once] at a heading, a table and a list. *)
Lemma excel_values_written_once_witness :
  exists ops row',
    excel_blocks 1
      [mkBlock heading (Text (py "T")) 1;
       mkBlock table (Rows [[py "a"; py "b"]; [py "1"; py "2"]]) 0;
       mkBlock list_ (Items [(0, py "x")]) 0]
    = Some (ops, row')
    /\ in_reading_order (written ops)
    /\ NoDup (map fst (written ops))
    /\ Forall (fun e => 1 <= entry_row e < row') (written ops).
Proof.
  apply (excel_values_written_once 10 (py "# T\na|b\n-|-\n1|2\n\n- x")).
  reflexivity.
Defined.

(** [excel_block_position] at a table after a paragraph and before a
    rule: the table takes the rows 2 to 4. *)
Lemma excel_block_position_witness :
  let earlier := [mkBlock paragraph (Text (py "a")) 0] in
  let block := mkBlock table (Rows [[py "h"]; [py "1"]]) 0 in
  let later := [mkBlock hr (Text []) 0] in
  exists ops row' ops1 ops_block ops2,
    excel_blocks 1 (earlier ++ block :: later) = Some (ops, row')
    /\ ops = ops1 ++ ops_block ++ ops2
    /\ excel_block 2 block = Some (ops_block, 5)
    /\ Forall (fun op => 2 <= op_row op < 5) ops_block
    /\ Forall (fun op => op_row op < 2) ops1
    /\ Forall (fun op => 5 <= op_row op) ops2.
Proof.
  intros earlier block later.
  destruct (excel_blocks 1 (earlier ++ block :: later)) as [[ops row']|] eqn:E;
    [|discriminate E].
  destruct (excel_block_position earlier later block 1 ops row' E)
    as (ops1 & ops_block & ops2 & H1 & H2 & H3 & H4 & H5).
  exists ops, row', ops1, ops_block, ops2.
  split; [reflexivity|]. split; [exact H1|]. split; [exact H2|].
  split; [exact H3|]. split; [exact H4|exact H5].
Defined.

(** [excel_table_cells] at a table of two rows written from row 3
    on. *)
Lemma excel_table_cells_witness :
  let table_rows := [[py "**h**"; py "k"]; [py "1"]] in
  exists ops row',
    excel_block 3 (mkBlock table (Rows table_rows) 0) = Some (ops, row')
    /\ In (3, 1, text_value (py "h")) (written ops)
    /\ In (4, 1, text_value (py "1")) (written ops)
    /\ In (cell_font 3 2 TABLE_HEADER_FONT) ops
    /\ In (cell_font 4 1 TABLE_BODY_FONT) ops.
Proof.
  intro table_rows.
  destruct (excel_block 3 (mkBlock table (Rows table_rows) 0))
    as [[ops row']|] eqn:E; [|discriminate E].
  destruct (excel_table_cells table_rows 0 3 ops row' E) as [V F].
  exists ops, row'. split; [reflexivity|]. split; [|split; [|split]].
  - apply V. exists 0, 0, [py "**h**"; py "k"], (py "**h**").
    repeat split; reflexivity.
  - apply V. exists 1, 0, [py "1"], (py "1"). repeat split; reflexivity.
  - apply (F 0 1 [py "**h**"; py "k"] (py "k")); reflexivity.
  - apply (F 1 0 [py "1"] (py "1")); reflexivity.
Defined.

(** [excel_code_verbatim] at a code block of three lines, one of them
    empty, written from row 2 on. *)
Lemma excel_code_verbatim_witness :
  exists ops row',
    excel_block 2 (mkBlock code (Text (py "a\n\n**b**")) 0) = Some (ops, row')
    /\ map fst (written ops) = [(2, 1); (3, 1); (4, 1)]
    /\ join [LF] (map (fun e => text_of (snd e)) (written ops))
       = py "a\n\n**b**"
    /\ row' = 6.
Proof.
  destruct (excel_block 2 (mkBlock code (Text (py "a\n\n**b**")) 0))
    as [[ops row']|] eqn:E; [|discriminate E].
  destruct (excel_code_verbatim (py "a\n\n**b**") 0 2 ops row' E)
    as (_ & H1 & H2 & H3).
  exists ops, row'. split; [reflexivity|]. split; [exact H1|].
  split; [exact H2|exact H3].
Defined.

(** [word_table_cells_in_range] at a table whose second row is the
    longer one. *)
Lemma word_table_cells_in_range_witness :
  let table_rows := [[py "a"]; [py "1"; py "2"; py "3"]] in
  exists rest,
    word_block (mkBlock table (Rows table_rows) 0)
    = Some (add_table 2 3 :: rest)
    /\ In (table_cell 1 2) rest
    /\ ~ In (table_cell 0 1) rest
    /\ forall ri ci, In (table_cell ri ci) rest -> ri < 2 /\ ci < 3.
Proof.
  intro table_rows.
  destruct (word_table_cells_in_range table_rows 0) as (rest & E & A & B & _).
  - discriminate.
  - exists rest. split; [exact E|]. split; [|split].
    + apply A. exists [py "1"; py "2"; py "3"]. split; [reflexivity|].
      cbn. lia.
    + intro H. apply A in H. destruct H as (trow & Hr & Hc).
      cbn in Hr. injection Hr as <-. cbn in Hc. lia.
    + exact B.
Defined.

(** [word_cell_text] at a cell that holds a line break. *)
Lemma word_cell_text_witness :
  let table_rows := [[py "a"; py "x<br>**y**"]] in
  exists ops,
    word_block (mkBlock table (Rows table_rows) 0) = Some ops
    /\ join [LF] (cell_paragraphs 0 1 ops) = py "x\ny"
    /\ Forall (fun p => ~ In LF p) (cell_paragraphs 0 1 ops).
Proof.
  intro table_rows.
  destruct (word_block (mkBlock table (Rows table_rows) 0)) as [ops|] eqn:E;
    [|discriminate E].
  destruct (word_cell_text table_rows 0 0 1 [py "a"; py "x<br>**y**"]
              (py "x<br>**y**") ops E eq_refl eq_refl) as [H1 H2].
  exists ops. split; [reflexivity|]. split; [exact H1|exact H2].
Defined.

(** [word_heading_levels] at headings of level 1 and 6. *)
Lemma word_heading_levels_witness :
  exists ops,
    word_blocks [mkBlock heading (Text (py "a")) 1;
                 mkBlock heading (Text (py "b")) 6] = Some ops
    /\ forall t level, In (add_heading t level) ops -> 1 <= level <= 4.
Proof.
  apply (word_heading_levels 10 (py "# a\n###### b")). reflexivity.
Defined.

(** [strip_inline_md_idempotent_iff] at a text with a line-break tag
    and an anchor element, which the first pass removes, and at a text
    whose first pass leaves a tag behind. *)
Lemma strip_inline_md_idempotent_iff_witness :
  let s := py "a<br>b <a href=x>c</a>" in
  no_md_delimiter s = true
  /\ strip_inline_md s = py "a\nb c"
  /\ tag_free (strip_inline_md s) = true
  /\ strip_inline_md (strip_inline_md s) = strip_inline_md s
  /\ tag_free (strip_inline_md (py "<br<br>>")) = false.
Proof.
  intro s. split; [reflexivity|]. split; [reflexivity|].
  split; [reflexivity|]. split; [|reflexivity].
  apply (proj2 (proj1 (strip_inline_md_idempotent_iff s eq_refl))).
  reflexivity.
Defined.
